(** * WriteWise: the analysis, style-detection and scoring core

    A shallow embedding of [writewise/core/grammar_checker.py] and the
    properties its specification states about it.

    Conventions of the embedding:
    - a Python [str] is a list of Unicode code points ([N]);
    - a Python [int] is a [Z]; a Python [float] is an IEEE-754 binary64
      number, Rocq's primitive [float], so every score below is computed
      with the rounding CPython performs;
    - a Python function that may raise returns a [result];
    - the external collaborators (LanguageTool, NLTK's sentence tokenizer,
      textstat) and CPython's Unicode character tables are fields of an
      environment record [Env]; nothing is assumed about them unless a
      theorem says so;
    - [re] patterns are kept as the strings of the source and compiled by
      [re_compile] into the syntax tree the backtracking matcher runs. *)

From Stdlib Require Import ZArith NArith List Bool String Ascii Lia.
From Stdlib Require Import Floats Uint63 DecimalString.
Import ListNotations.

Set Warnings "-inexact-float".

Local Open Scope Z_scope.

(* ================================================================== *)
(** * Python values *)
(* ================================================================== *)

Definition char := N.
Definition str := list char.

(** A string literal of the source (ASCII only) as a [str]. *)
Definition lit (x : string) : str := map N_of_ascii (list_ascii_of_string x).
Arguments lit x%_string.

Definition len {A : Type} (l : list A) : Z := Z.of_nat (List.length l).

Fixpoint str_eqb (a b : str) : bool :=
  match a, b with
  | [], [] => true
  | x :: a', y :: b' => N.eqb x y && str_eqb a' b'
  | _, _ => false
  end.

(** [x in [a; b; ...]] on strings. *)
Definition str_in (x : str) (l : list str) : bool := existsb (str_eqb x) l.

(** Slice indices as CPython adjusts them: a negative index counts from
    the end, and both ends are clipped to [0, n]. *)
Definition adjust_index (n i : Z) : Z :=
  if i <? 0 then Z.max 0 (i + n) else Z.min i n.

(** [s[lo:hi]]. *)
Definition py_slice {A : Type} (s : list A) (lo hi : Z) : list A :=
  let lo' := adjust_index (len s) lo in
  let hi' := adjust_index (len s) hi in
  firstn (Z.to_nat (hi' - lo')) (skipn (Z.to_nat lo') s).

Fixpoint starts_with (sub s : str) : bool :=
  match sub, s with
  | [], _ => true
  | x :: sub', y :: s' => N.eqb x y && starts_with sub' s'
  | _ :: _, [] => false
  end.

(** The lowest index at or after [i] (the index of the head of [s]) where
    [sub] occurs. *)
Fixpoint find_from (sub s : str) (i : nat) : option nat :=
  if starts_with sub s then Some i
  else match s with
       | [] => None
       | _ :: s' => find_from sub s' (S i)
       end.

(** [s.find(sub, start)]: -1 when [sub] does not occur in [s[start:]]. *)
Definition py_find (s sub : str) (start : Z) : Z :=
  let start' := if start <? 0 then Z.max 0 (start + len s) else start in
  if len s <? start' then -1
  else match find_from sub (skipn (Z.to_nat start') s) (Z.to_nat start') with
       | Some i => Z.of_nat i
       | None => -1
       end.

(** [str(n)] for a non-negative [int], as an f-string renders it. *)
Definition py_str_of_int (n : Z) : str :=
  lit (NilZero.string_of_uint (N.to_uint (Z.to_N n))).

(** int -> float, as [int * float] converts its left operand.  The ints
    converted here are list lengths, below 2^63 in CPython. *)
Definition float_of_int (n : Z) : float := of_uint63 (Uint63.of_Z n).

(** The two-argument [min] and [max] builtins on floats: the first
    argument is kept unless the second compares strictly below (above). *)
Definition py_min (a b : float) : float := if (b <? a)%float then b else a.
Definition py_max (a b : float) : float := if (a <? b)%float then b else a.

(** ** Exceptions *)

Inductive exn :=
| ReError          (* re.error: the pattern does not compile *)
| AttributeError   (* a method called on None *)
| CapabilityError (which : str). (* raised by an external collaborator *)

Inductive result (A : Type) :=
| Ok (a : A)
| Raise (e : exn).
Arguments Ok {A} a.
Arguments Raise {A} e.

Definition bind {A B : Type} (c : result A) (k : A -> result B) : result B :=
  match c with
  | Ok a => k a
  | Raise e => Raise e
  end.

Notation "x <- c ;; k" := (bind c (fun x => k))
  (at level 61, c at next level, right associativity).

(** A [for] loop whose body may raise, threading the loop's state. *)
Fixpoint for_each {A S : Type} (l : list A) (body : S -> A -> result S) (s : S)
  : result S :=
  match l with
  | [] => Ok s
  | x :: l' => s' <- body s x ;; for_each l' body s'
  end.

(* ================================================================== *)
(** * CPython's Unicode tables *)
(* ================================================================== *)

(** What the code consults of the Unicode character database, through
    [str.split], [str.lower] and the [re] module compiled with
    [re.IGNORECASE] on a [str] pattern. *)
Record UnicodeData := {
  (** [Py_UNICODE_ISSPACE]: [str.isspace], the separators of [str.split()]
      and the class [\s]. *)
  isspace : char -> bool;
  (** [Py_UNICODE_ISALNUM]; [\w] is an alphanumeric or an underscore. *)
  isalnum : char -> bool;
  (** pattern literal against text character under IGNORECASE. *)
  ieq_literal : char -> char -> bool;
  (** captured character against text character under IGNORECASE (a
      back-reference). *)
  ieq_groupref : char -> char -> bool;
  (** [str.lower()]. *)
  lower : str -> str
}.

Definition ascii_lower (c : char) : char :=
  if ((65 <=? c) && (c <=? 90))%N then (c + 32)%N else c.

Definition ascii_isspace (c : char) : bool :=
  (((9 <=? c) && (c <=? 13)) || ((28 <=? c) && (c <=? 32)))%N.

Definition ascii_isalnum (c : char) : bool :=
  (((48 <=? c) && (c <=? 57)) || ((65 <=? c) && (c <=? 90))
   || ((97 <=? c) && (c <=? 122)))%N.

Definition is_ascii (c : char) : bool := (c <? 128)%N.

(** Any table, with CPython's values on the ASCII range. *)
Definition with_ascii (base : UnicodeData) : UnicodeData := {|
  isspace c := if is_ascii c then ascii_isspace c else isspace base c;
  isalnum c := if is_ascii c then ascii_isalnum c else isalnum base c;
  ieq_literal p c :=
    if is_ascii p && is_ascii c then N.eqb (ascii_lower p) (ascii_lower c)
    else ieq_literal base p c;
  ieq_groupref g c :=
    if is_ascii g && is_ascii c then N.eqb (ascii_lower g) (ascii_lower c)
    else ieq_groupref base g c;
  lower s := if forallb is_ascii s then map ascii_lower s else lower base s
|}.

(** The table that knows ASCII only: every other code point is neither a
    space nor alphanumeric and equals only itself. *)
Definition ascii_only : UnicodeData := with_ascii {|
  isspace _ := false;
  isalnum _ := false;
  ieq_literal := N.eqb;
  ieq_groupref := N.eqb;
  lower s := s
|}.

(* ================================================================== *)
(** * The [re] module: the pattern syntax the source uses *)
(* ================================================================== *)

Module Re.

Inductive cclass :=
| cc_space   (* \s *)
| cc_word.   (* \w *)

(** Syntax trees of the patterns: literals, [\b], greedy [\s+] and [\w+],
    one capturing group, its back-reference [\1], alternation and
    concatenation. *)
Inductive regex :=
| Eps
| Lit (c : char)
| Boundary
| Plus (k : cclass)
| Group (r : regex)
| Backref
| Alt (r1 r2 : regex)
| Cat (r1 r2 : regex).

Fixpoint count_groups (r : regex) : nat :=
  match r with
  | Group r1 => S (count_groups r1)
  | Alt r1 r2 | Cat r1 r2 => (count_groups r1 + count_groups r2)%nat
  | _ => O
  end.

Definition is_special (c : ascii) : bool :=
  existsb (Ascii.eqb c)
          (list_ascii_of_string ".^$*+?{}[]\|()").

(** The parser: [parse_alt] reads alternatives up to a closing parenthesis
    or the end, [parse_seq] one alternative.  A construct outside the
    fragment is refused. *)
Fixpoint parse_alt (fuel : nat) (p : list ascii) : option (regex * list ascii) :=
  match fuel with
  | O => None
  | S fuel' =>
      match parse_seq fuel' p with
      | Some (r1, "|"%char :: p1) =>
          match parse_alt fuel' p1 with
          | Some (r2, p2) => Some (Alt r1 r2, p2)
          | None => None
          end
      | other => other
      end
  end
with parse_seq (fuel : nat) (p : list ascii) : option (regex * list ascii) :=
  match fuel with
  | O => None
  | S fuel' =>
      let item (r : regex) (p1 : list ascii) :=
        match parse_seq fuel' p1 with
        | Some (rs, p2) => Some (Cat r rs, p2)
        | None => None
        end in
      match p with
      | [] | ")"%char :: _ | "|"%char :: _ => Some (Eps, p)
      | "("%char :: p1 =>
          match parse_alt fuel' p1 with
          | Some (r, ")"%char :: p2) =>
              match p2 with
              | "+"%char :: _ | "*"%char :: _ | "?"%char :: _ | "{"%char :: _ => None
              | _ => item (Group r) p2
              end
          | _ => None
          end
      | "\"%char :: "b"%char :: p1 => item Boundary p1
      | "\"%char :: "s"%char :: "+"%char :: p1 =>
          match p1 with
          | "+"%char :: _ | "*"%char :: _ | "?"%char :: _ | "{"%char :: _ => None
          | _ => item (Plus cc_space) p1
          end
      | "\"%char :: "w"%char :: "+"%char :: p1 =>
          match p1 with
          | "+"%char :: _ | "*"%char :: _ | "?"%char :: _ | "{"%char :: _ => None
          | _ => item (Plus cc_word) p1
          end
      | "\"%char :: "1"%char :: p1 =>
          match p1 with
          | "+"%char :: _ | "*"%char :: _ | "?"%char :: _ | "{"%char :: _ => None
          | _ => item Backref p1
          end
      | c :: p1 =>
          if is_special c then None
          else match p1 with
               | "+"%char :: _ | "*"%char :: _ | "?"%char :: _ | "{"%char :: _ => None
               | _ => item (Lit (N_of_ascii c)) p1
               end
      end
  end.

(** [re.compile(pattern)] on the fragment; [None] stands for [re.error]
    (or a construct this model does not cover). *)
Definition re_compile (pattern : string) : option regex :=
  let p := list_ascii_of_string pattern in
  match parse_alt (2 * List.length p + 2) p with
  | Some (r, []) => if (count_groups r <=? 1)%nat then Some r else None
  | _ => None
  end.

(** ** The backtracking matcher *)

(** Where the matcher stands: the character before the cursor, the text
    from the cursor on, the cursor's index, and the span of group 1 when
    it has been closed. *)
Record mstate := {
  prev : option char;
  rest : str;
  pos : nat;
  grp : option (nat * nat)
}.

(** The end of the match and the span of group 1. *)
Definition mresult : Type := nat * option (nat * nat).

Section Matcher.

Variable U : UnicodeData.
Variable text : str.

Definition is_word (c : char) : bool := isalnum U c || N.eqb c 95.

Definition in_class (k : cclass) (c : char) : bool :=
  match k with
  | cc_space => isspace U c
  | cc_word => is_word c
  end.

Definition word_at (c : option char) : bool :=
  match c with
  | Some x => is_word x
  | None => false
  end.

(** [\b]: exactly one of the characters around the cursor is a word
    character (the ends of the text count as non-word). *)
Definition at_boundary (st : mstate) : bool :=
  xorb (word_at (prev st)) (word_at (hd_error (rest st))).

(** Greedy [\s+] / [\w+]: take characters of the class as long as
    possible, then give them back one at a time until the continuation
    succeeds. *)
Fixpoint plus_loop (k : cclass) (p : option char) (s : str) (i : nat)
  (g : option (nat * nat)) (cont : mstate -> option mresult) : option mresult :=
  match s with
  | c :: s' =>
      if in_class k c then
        match plus_loop k (Some c) s' (S i) g cont with
        | Some res => Some res
        | None => cont {| prev := Some c; rest := s'; pos := S i; grp := g |}
        end
      else None
  | [] => None
  end.

(** The text of group 1 is matched again, character by character, under
    IGNORECASE. *)
Fixpoint match_ref (captured : str) (p : option char) (s : str) (i : nat)
  : option (option char * str * nat) :=
  match captured with
  | [] => Some (p, s, i)
  | x :: captured' =>
      match s with
      | c :: s' => if ieq_groupref U x c then match_ref captured' (Some c) s' (S i)
                   else None
      | [] => None
      end
  end.

(** [rmatch r st cont]: match [r] at [st], then the rest of the pattern
    [cont]; alternatives are tried left to right. *)
Fixpoint rmatch (r : regex) (st : mstate) (cont : mstate -> option mresult)
  : option mresult :=
  match r with
  | Eps => cont st
  | Lit p =>
      match rest st with
      | c :: s' =>
          if ieq_literal U p c
          then cont {| prev := Some c; rest := s'; pos := S (pos st); grp := grp st |}
          else None
      | [] => None
      end
  | Boundary => if at_boundary st then cont st else None
  | Plus k => plus_loop k (prev st) (rest st) (pos st) (grp st) cont
  | Group r1 =>
      rmatch r1 st (fun st' =>
        cont {| prev := prev st'; rest := rest st'; pos := pos st';
                grp := Some (pos st, pos st') |})
  | Backref =>
      match grp st with
      | Some (a, b) =>
          match match_ref (py_slice text (Z.of_nat a) (Z.of_nat b))
                          (prev st) (rest st) (pos st) with
          | Some (p, s, i) => cont {| prev := p; rest := s; pos := i; grp := grp st |}
          | None => None
          end
      | None => None
      end
  | Alt r1 r2 =>
      match rmatch r1 st cont with
      | Some res => Some res
      | None => rmatch r2 st cont
      end
  | Cat r1 r2 => rmatch r1 st (fun st' => rmatch r2 st' cont)
  end.

Definition accept (st : mstate) : option mresult := Some (pos st, grp st).

(** A match object: the searched string and the spans of group 0 and
    group 1. *)
Record match_obj := {
  m_string : str;
  m_start : Z;
  m_end : Z;
  m_group1 : option (Z * Z)
}.

(** [match.start()], [match.end()], [match.group()], [match.group(1)]
    (the latter is [None] when the group took no part in the match). *)
Definition start (m : match_obj) : Z := m_start m.
Definition end_ (m : match_obj) : Z := m_end m.
Definition group (m : match_obj) : str := py_slice (m_string m) (m_start m) (m_end m).
Definition group1 (m : match_obj) : option str :=
  match m_group1 m with
  | Some (a, b) => Some (py_slice (m_string m) a b)
  | None => None
  end.

Definition mk_match (i : nat) (res : mresult) : match_obj := {|
  m_string := text;
  m_start := Z.of_nat i;
  m_end := Z.of_nat (fst res);
  m_group1 := match snd res with
              | Some (a, b) => Some (Z.of_nat a, Z.of_nat b)
              | None => None
              end
|}.

(** The scan of [finditer]: try the pattern at every index from left to
    right; after a match resume at its end ([skip] counts the characters
    still to step over).  None of the source's patterns matches the empty
    string; after an empty match the scan moves on by one character. *)
Fixpoint scan (r : regex) (p : option char) (s : str) (i : nat) (skip : nat)
  : list match_obj :=
  match skip with
  | S skip' =>
      match s with
      | [] => []
      | c :: s' => scan r (Some c) s' (S i) skip'
      end
  | O =>
      match rmatch r {| prev := p; rest := s; pos := i; grp := None |} accept with
      | Some res =>
          mk_match i res ::
          match s with
          | [] => []
          | c :: s' => scan r (Some c) s' (S i) (fst res - i - 1)
          end
      | None =>
          match s with
          | [] => []
          | c :: s' => scan r (Some c) s' (S i) 0
          end
      end
  end.

End Matcher.

(** [re.finditer(pattern, text, re.IGNORECASE)], as the list of its
    matches. *)
Definition finditer (U : UnicodeData) (pattern : string) (text : str)
  : result (list match_obj) :=
  match re_compile pattern with
  | Some r => Ok (scan U text r None text 0 0)
  | None => Raise ReError
  end.

End Re.

(* ================================================================== *)
(** * The data model (the dataclasses of the source) *)
(* ================================================================== *)

Module GrammarIssue.
Record t := {
  message : str;
  rule_id : str;
  category : str;
  offset : Z;
  length : Z;
  context : str;
  suggestions : list str;
  severity : str
}.
End GrammarIssue.

Module StyleSuggestion.
Record t := {
  message : str;
  category : str;
  offset : Z;
  length : Z;
  original : str;
  suggestion : str
}.
End StyleSuggestion.

Module ReadabilityMetrics.
Record t := {
  flesch_reading_ease : float;
  flesch_kincaid_grade : float;
  gunning_fog : float;
  smog_index : float;
  automated_readability_index : float;
  coleman_liau_index : float;
  difficult_words : Z;
  reading_time_minutes : float
}.
End ReadabilityMetrics.

Module AnalysisResult.
Record t := {
  original_text : str;
  grammar_issues : list GrammarIssue.t;
  style_suggestions : list StyleSuggestion.t;
  readability : ReadabilityMetrics.t;
  word_count : Z;
  sentence_count : Z;
  character_count : Z;
  score : float
}.
End AnalysisResult.

(* ================================================================== *)
(** * The external collaborators *)
(* ================================================================== *)

(** A match of [language_tool_python]: the fields the core reads. *)
Module LanguageTool.
Record Match := {
  ruleId : str;
  message : str;
  replacements : list str;
  offset : Z;
  errorLength : Z;
  category : str
}.
End LanguageTool.

(** The functions of [textstat] the core calls. *)
Module textstat.
Record api := {
  flesch_reading_ease : str -> result float;
  flesch_kincaid_grade : str -> result float;
  gunning_fog : str -> result float;
  smog_index : str -> result float;
  automated_readability_index : str -> result float;
  coleman_liau_index : str -> result float;
  difficult_words : str -> result Z;
  (** [reading_time(text, ms_per_char)] *)
  reading_time : str -> float -> result float
}.
End textstat.

(** Everything [GrammarChecker] reaches outside its own code. *)
Record Env := {
  unicode : UnicodeData;
  (** [self.tool.check] *)
  tool_check : str -> result (list LanguageTool.Match);
  (** [nltk.sent_tokenize] *)
  sent_tokenize : str -> result (list str);
  stat : textstat.api
}.

(* ================================================================== *)
(** * GrammarChecker *)
(* ================================================================== *)

(** [self.passive_voice_patterns], set in [__init__]. *)
Definition passive_voice_patterns : list string :=
  [ "\b(am|is|are|was|were|be|been|being)\s+\w+ed\b";
    "\b(am|is|are|was|were|be|been|being)\s+\w+en\b" ]%string.

(** The dict of [_check_wordy_phrases], in insertion order (the order a
    Python dict iterates in). *)
Definition wordy_phrases : list (string * str) :=
  [ ("\bat this point in time\b"%string, lit "now");
    ("\bdue to the fact that\b"%string, lit "because");
    ("\bin order to\b"%string, lit "to");
    ("\bfor the purpose of\b"%string, lit "to");
    ("\bin the event that\b"%string, lit "if");
    ("\bwith regard to\b"%string, lit "about");
    ("\bin spite of the fact that\b"%string, lit "although");
    ("\ba number of\b"%string, lit "many");
    ("\bprior to\b"%string, lit "before") ].

Definition repeated_word_pattern : string := "\b(\w+)\s+\1\b".

(** The words whose doubling [_check_repeated_words] lets pass. *)
Definition intentional_repetitions : list str :=
  [lit "very"; lit "far"; lit "long"; lit "many"].

Section Checker.

Variable env : Env.

(** [s.split()]: the maximal runs of non-space characters ([word] holds
    the run being read, reversed). *)
Fixpoint split_from (s : str) (word : str) : list str :=
  match s with
  | [] => match word with
          | [] => []
          | _ :: _ => [rev word]
          end
  | c :: s' =>
      if isspace (unicode env) c
      then match word with
           | [] => split_from s' []
           | _ :: _ => rev word :: split_from s' []
           end
      else split_from s' (c :: word)
  end.

Definition py_split (s : str) : list str := split_from s [].

Definition issue_of_match (text : str) (m : LanguageTool.Match) : GrammarIssue.t :=
  (* Extract context *)
  let start := Z.max 0 (LanguageTool.offset m - 20) in
  let end_ := Z.min (len text) (LanguageTool.offset m + LanguageTool.errorLength m + 20) in
  let context := py_slice text start end_ in
  (* Determine severity *)
  let severity :=
    if str_in (LanguageTool.category m) [lit "GRAMMAR"; lit "TYPOS"]
    then lit "error" else lit "warning" in
  {| GrammarIssue.message := LanguageTool.message m;
     GrammarIssue.rule_id := LanguageTool.ruleId m;
     GrammarIssue.category := LanguageTool.category m;
     GrammarIssue.offset := LanguageTool.offset m;
     GrammarIssue.length := LanguageTool.errorLength m;
     GrammarIssue.context := context;
     GrammarIssue.suggestions := py_slice (LanguageTool.replacements m) 0 3;
     GrammarIssue.severity := severity |}.

Definition _check_grammar (text : str) : result (list GrammarIssue.t) :=
  matches <- tool_check env text ;;
  Ok (fold_left (fun issues m => issues ++ [issue_of_match text m]) matches []).

Definition passive_suggestion (m : Re.match_obj) : StyleSuggestion.t :=
  {| StyleSuggestion.message :=
       lit "Consider using active voice for more direct writing";
     StyleSuggestion.category := lit "passive_voice";
     StyleSuggestion.offset := Re.start m;
     StyleSuggestion.length := Re.end_ m - Re.start m;
     StyleSuggestion.original := Re.group m;
     StyleSuggestion.suggestion := lit "Consider rewriting in active voice" |}.

Definition _check_passive_voice (text : str) : result (list StyleSuggestion.t) :=
  for_each passive_voice_patterns
    (fun suggestions pattern =>
       matches <- Re.finditer (unicode env) pattern text ;;
       Ok (fold_left (fun acc m => acc ++ [passive_suggestion m]) matches suggestions))
    [].

Definition wordy_suggestion (replacement : str) (m : Re.match_obj) : StyleSuggestion.t :=
  {| StyleSuggestion.message :=
       lit "Consider simplifying to '" ++ replacement ++ lit "'";
     StyleSuggestion.category := lit "wordiness";
     StyleSuggestion.offset := Re.start m;
     StyleSuggestion.length := Re.end_ m - Re.start m;
     StyleSuggestion.original := Re.group m;
     StyleSuggestion.suggestion := replacement |}.

Definition _check_wordy_phrases (text : str) : result (list StyleSuggestion.t) :=
  for_each wordy_phrases
    (fun suggestions '(pattern, replacement) =>
       matches <- Re.finditer (unicode env) pattern text ;;
       Ok (fold_left (fun acc m => acc ++ [wordy_suggestion replacement m])
                     matches suggestions))
    [].

Definition length_suggestion (text sentence : str) (offset word_count : Z)
  : StyleSuggestion.t :=
  {| StyleSuggestion.message :=
       lit "This sentence has " ++ py_str_of_int word_count
       ++ lit " words. Consider breaking it into shorter sentences for better readability.";
     StyleSuggestion.category := lit "sentence_length";
     StyleSuggestion.offset := py_find text sentence offset;
     StyleSuggestion.length := len sentence;
     StyleSuggestion.original :=
       if 50 <? len sentence then py_slice sentence 0 50 ++ lit "..." else sentence;
     StyleSuggestion.suggestion := lit "Break into shorter sentences" |}.

(** The loop's state is the list built so far and the running [offset]. *)
Definition sentence_step (text : str) (state : list StyleSuggestion.t * Z)
  (sentence : str) : list StyleSuggestion.t * Z :=
  let '(suggestions, offset) := state in
  let word_count := len (py_split sentence) in
  let suggestions :=
    if 30 <? word_count
    then suggestions ++ [length_suggestion text sentence offset word_count]
    else suggestions in
  (suggestions, offset + len sentence).

Definition _check_sentence_length (text : str) : result (list StyleSuggestion.t) :=
  sentences <- sent_tokenize env text ;;
  Ok (fst (fold_left (sentence_step text) sentences ([], 0))).

Definition repetition_suggestion (m : Re.match_obj) (word : str) : StyleSuggestion.t :=
  {| StyleSuggestion.message :=
       lit "Possible unintentional word repetition: '" ++ Re.group m ++ lit "'";
     StyleSuggestion.category := lit "repetition";
     StyleSuggestion.offset := Re.start m;
     StyleSuggestion.length := Re.end_ m - Re.start m;
     StyleSuggestion.original := Re.group m;
     StyleSuggestion.suggestion := word |}.

Definition _check_repeated_words (text : str) : result (list StyleSuggestion.t) :=
  matches <- Re.finditer (unicode env) repeated_word_pattern text ;;
  for_each matches
    (fun suggestions m =>
       (* Skip intentional repetitions like very very *)
       match Re.group1 m with
       | None => Raise AttributeError
       | Some g =>
           let word := lower (unicode env) g in
           if negb (str_in word intentional_repetitions)
           then Ok (suggestions ++ [repetition_suggestion m g])
           else Ok suggestions
       end)
    [].

Definition _analyze_style (text : str) : result (list StyleSuggestion.t) :=
  let suggestions := [] in
  (* Check for passive voice *)
  found <- _check_passive_voice text ;;
  let suggestions := suggestions ++ found in
  (* Check for wordy phrases *)
  found <- _check_wordy_phrases text ;;
  let suggestions := suggestions ++ found in
  (* Check for sentence length *)
  found <- _check_sentence_length text ;;
  let suggestions := suggestions ++ found in
  (* Check for repeated words *)
  found <- _check_repeated_words text ;;
  let suggestions := suggestions ++ found in
  Ok suggestions.

Definition _calculate_readability (text : str) : result ReadabilityMetrics.t :=
  fre <- textstat.flesch_reading_ease (stat env) text ;;
  fkg <- textstat.flesch_kincaid_grade (stat env) text ;;
  fog <- textstat.gunning_fog (stat env) text ;;
  smog <- textstat.smog_index (stat env) text ;;
  ari <- textstat.automated_readability_index (stat env) text ;;
  cli <- textstat.coleman_liau_index (stat env) text ;;
  dw <- textstat.difficult_words (stat env) text ;;
  rt <- textstat.reading_time (stat env) text 14.69%float ;;
  Ok {| ReadabilityMetrics.flesch_reading_ease := fre;
        ReadabilityMetrics.flesch_kincaid_grade := fkg;
        ReadabilityMetrics.gunning_fog := fog;
        ReadabilityMetrics.smog_index := smog;
        ReadabilityMetrics.automated_readability_index := ari;
        ReadabilityMetrics.coleman_liau_index := cli;
        ReadabilityMetrics.difficult_words := dw;
        ReadabilityMetrics.reading_time_minutes := rt |}.

End Checker.

(** The body of the loop over [grammar_issues] in [_calculate_score]. *)
Definition deduct_issue (score : float) (issue : GrammarIssue.t) : float :=
  if str_eqb (GrammarIssue.severity issue) (lit "error")
  then (score - 2.0)%float
  else (score - 0.5)%float.

Definition _calculate_score (grammar_issues : list GrammarIssue.t)
  (style_suggestions : list StyleSuggestion.t)
  (readability : ReadabilityMetrics.t) : float :=
  let score := 100.0%float in
  (* Deduct points for grammar issues *)
  let score := fold_left deduct_issue grammar_issues score in
  (* Deduct points for style issues *)
  let score := (score - float_of_int (len style_suggestions) * 0.3)%float in
  (* Adjust based on readability *)
  let score :=
    if (ReadabilityMetrics.flesch_reading_ease readability <? 30)%float
    then (score - 5)%float
    else if (90 <? ReadabilityMetrics.flesch_reading_ease readability)%float
         then (score - 2)%float
         else score in
  py_max 0.0 (py_min 100.0 score).

Definition analyze (env : Env) (text : str) : result AnalysisResult.t :=
  (* Grammar checking *)
  grammar_issues <- _check_grammar env text ;;
  (* Style analysis *)
  style_suggestions <- _analyze_style env text ;;
  (* Readability metrics *)
  readability <- _calculate_readability env text ;;
  (* Basic statistics *)
  let word_count := len (py_split env text) in
  sentences <- sent_tokenize env text ;;
  let sentence_count := len sentences in
  let character_count := len text in
  (* Calculate overall score *)
  let score := _calculate_score grammar_issues style_suggestions readability in
  Ok {| AnalysisResult.original_text := text;
        AnalysisResult.grammar_issues := grammar_issues;
        AnalysisResult.style_suggestions := style_suggestions;
        AnalysisResult.readability := readability;
        AnalysisResult.word_count := word_count;
        AnalysisResult.sentence_count := sentence_count;
        AnalysisResult.character_count := character_count;
        AnalysisResult.score := score |}.

(* ================================================================== *)
(** * Auxiliary definitions for the statements about the scorer *)
(* ================================================================== *)

(** The scorer as the specification words it: four steps applied in
    order to a running score that starts at 100.0. *)
Definition grammar_penalty (issue : GrammarIssue.t) : float :=
  if str_eqb (GrammarIssue.severity issue) (lit "error") then 2.0%float else 0.5%float.

Fixpoint spec_grammar_step (score : float) (issues : list GrammarIssue.t) : float :=
  match issues with
  | [] => score
  | issue :: issues' => spec_grammar_step (score - grammar_penalty issue)%float issues'
  end.

Definition spec_style_step (score : float) (n_style : Z) : float :=
  (score - float_of_int n_style * 0.3)%float.

Definition spec_readability_step (score : float) (fre : float) : float :=
  if (fre <? 30)%float then (score - 5.0)%float
  else if (90 <? fre)%float then (score - 2.0)%float
  else score.

Definition spec_clamp (score : float) : float := py_max 0.0 (py_min 100.0 score).

Definition spec_score (grammar : list GrammarIssue.t) (style : list StyleSuggestion.t)
  (readability : ReadabilityMetrics.t) : float :=
  spec_clamp
    (spec_readability_step
       (spec_style_step (spec_grammar_step 100.0 grammar) (len style))
       (ReadabilityMetrics.flesch_reading_ease readability)).

(** The deductions of the scorer in exact arithmetic, in tenths of a
    point: 20 or 5 per grammar finding, 3 per style finding, 50 or 20 for
    readability.  The exact score is [100 - exact_deductions / 10], and
    the scorer clamps at 0 when the deductions pass 1000. *)
Definition issue_tenths (issue : GrammarIssue.t) : Z :=
  if str_eqb (GrammarIssue.severity issue) (lit "error") then 20 else 5.

Definition readability_tenths (readability : ReadabilityMetrics.t) : Z :=
  if (ReadabilityMetrics.flesch_reading_ease readability <? 30)%float then 50
  else if (90 <? ReadabilityMetrics.flesch_reading_ease readability)%float then 20
  else 0.

Definition exact_deductions (grammar : list GrammarIssue.t)
  (style : list StyleSuggestion.t) (readability : ReadabilityMetrics.t) : Z :=
  fold_right (fun issue acc => issue_tenths issue + acc) 0 grammar
  + 3 * len style + readability_tenths readability.

(** The binary64 number [100 - k/2]: the running score after grammar
    findings worth [k] half points (4 for an error, 1 otherwise). *)
Definition grid (k : Z) : float := (100.0 - float_of_int k * 0.5)%float.

Definition half_points (issues : list GrammarIssue.t) : Z :=
  fold_right (fun issue acc => issue_tenths issue / 5 + acc) 0 issues.

(** The scorer from the end of its grammar loop on: [g] is the running
    score, [n] the number of style findings, [low] and [high] the two
    comparisons of the Flesch Reading Ease. *)
Definition score_tail (g : float) (n : Z) (low high : bool) : float :=
  let score := (g - float_of_int n * 0.3)%float in
  let score := if low then (score - 5)%float
               else if high then (score - 2)%float else score in
  py_max 0.0 (py_min 100.0 score).

Definition zs_upto (n : nat) : list Z := map Z.of_nat (seq 0 n).

(** One more error finding on top of [k] half points of grammar
    deductions, [n] style findings and the readability band
    ([low], [high]): whether the exact score stays at or above 0, and
    what then holds of the two binary64 scores. *)
Definition step_in_range (k n : Z) (low high : bool) : bool :=
  5 * (k + 4) + 3 * n + (if low then 50 else if high then 20 else 0) <=? 1000.

Definition step_holds (k n : Z) (low high : bool) : bool :=
  let before := score_tail (grid k) n low high in
  let after := score_tail (grid (k + 4)) n low high in
  (after <? before)%float
  && (abs (before - after - 2.0) <=? 1e-14)%float
  && ((negb (n =? 0)) || PrimFloat.Leibniz.eqb after (before - 2.0)%float).

(** Inputs of the scorer used in the examples: a finding of each
    severity, a style finding, and metrics with a given Flesch Reading
    Ease. *)
Definition issue_with_severity (severity : str) : GrammarIssue.t :=
  {| GrammarIssue.message := lit "Possible agreement error";
     GrammarIssue.rule_id := lit "RULE";
     GrammarIssue.category := lit "GRAMMAR";
     GrammarIssue.offset := 0;
     GrammarIssue.length := 1;
     GrammarIssue.context := lit "x";
     GrammarIssue.suggestions := [];
     GrammarIssue.severity := severity |}.

Definition error_issue : GrammarIssue.t := issue_with_severity (lit "error").

Definition thirty_three_errors : list GrammarIssue.t := repeat error_issue 33.

Definition a_style_finding : StyleSuggestion.t :=
  {| StyleSuggestion.message := lit "Consider simplifying to 'to'";
     StyleSuggestion.category := lit "wordiness";
     StyleSuggestion.offset := 0;
     StyleSuggestion.length := 11;
     StyleSuggestion.original := lit "in order to";
     StyleSuggestion.suggestion := lit "to" |}.

Definition metrics_with_fre (fre : float) : ReadabilityMetrics.t :=
  {| ReadabilityMetrics.flesch_reading_ease := fre;
     ReadabilityMetrics.flesch_kincaid_grade := 8.0%float;
     ReadabilityMetrics.gunning_fog := 10.0%float;
     ReadabilityMetrics.smog_index := 9.0%float;
     ReadabilityMetrics.automated_readability_index := 8.0%float;
     ReadabilityMetrics.coleman_liau_index := 9.0%float;
     ReadabilityMetrics.difficult_words := 3;
     ReadabilityMetrics.reading_time_minutes := 0.5%float |}.

(* ================================================================== *)
(** * Auxiliary definitions for the statements about the detectors *)
(* ================================================================== *)

(** Whether every successful match of a pattern closes group 1. *)
Fixpoint has_group (r : Re.regex) : bool :=
  match r with
  | Re.Group _ => true
  | Re.Alt r1 r2 => has_group r1 && has_group r2
  | Re.Cat r1 r2 => has_group r1 || has_group r2
  | _ => false
  end.

(** The tree of a pattern of the source ([Eps] if it did not compile). *)
Definition compiled (pattern : string) : Re.regex :=
  match Re.re_compile pattern with
  | Some r => r
  | None => Re.Eps
  end.

(** The matcher stands inside [text]: the cursor is an index of it, what
    is left to read is the text from the cursor on, and a closed group
    spans a range of it. *)
Definition st_ok (text : str) (st : Re.mstate) : Prop :=
  (Re.pos st <= List.length text)%nat
  /\ Re.rest st = skipn (Re.pos st) text
  /\ (forall a b, Re.grp st = Some (a, b) -> (a <= b <= List.length text)%nat).

(** A match object of a search in [text]: its spans are ranges of
    [text]. *)
Definition match_ok (text : str) (m : Re.match_obj) : Prop :=
  Re.m_string m = text
  /\ 0 <= Re.m_start m <= Re.m_end m
  /\ Re.m_end m <= len text
  /\ (forall a b, Re.m_group1 m = Some (a, b) -> 0 <= a <= b /\ b <= len text).

(** The span that starts at [offset] and is [length] long is a range of
    [text]. *)
Definition span_ok (text : str) (offset length : Z) : Prop :=
  0 <= offset /\ 0 <= length /\ offset + length <= len text.

(** All the matches of [pattern] in [text], in the order [finditer]
    yields them. *)
Definition matches_of (U : UnicodeData) (pattern : string) (text : str)
  : list Re.match_obj :=
  Re.scan U text (compiled pattern) None text 0 0.

(** What [_check_repeated_words] keeps of a match: nothing when the
    lower-cased word is one of the intentional repetitions. *)
Definition repetition_of (U : UnicodeData) (m : Re.match_obj) : list StyleSuggestion.t :=
  match Re.group1 m with
  | Some g =>
      if str_in (lower U g) intentional_repetitions then []
      else [repetition_suggestion m g]
  | None => []
  end.

(** Whether every match of a pattern consumes at least one character. *)
Fixpoint consumes (r : Re.regex) : bool :=
  match r with
  | Re.Lit _ | Re.Plus _ => true
  | Re.Group r1 => consumes r1
  | Re.Alt r1 r2 => consumes r1 && consumes r2
  | Re.Cat r1 r2 => consumes r1 || consumes r2
  | _ => false
  end.

(** The shape of a match of [\b(\w+)\s+\1\b]: a non-empty run of word
    characters (group 1), a non-empty run of spaces, and as many
    characters again, each equal to the one of the first run in the same
    place up to case. *)
Definition doubled_word (U : UnicodeData) (m : Re.match_obj) : Prop :=
  exists w ws w',
    Re.group m = w ++ ws ++ w'
    /\ Re.group1 m = Some w
    /\ w <> [] /\ Forall (fun c => Re.is_word U c = true) w
    /\ ws <> [] /\ Forall (fun c => isspace U c = true) ws
    /\ Forall2 (fun x c => ieq_groupref U x c = true) w w'.

(** The contract of the sentence tokenizer: the sentences are slices of
    the text, in order and without overlap, the first one starting at or
    after index [from]. *)
Inductive ordered_slices (text : str) : Z -> list str -> Prop :=
| slices_nil from : ordered_slices text from []
| slices_cons from a sentence rest :
    from <= a ->
    a + len sentence <= len text ->
    py_slice text a (a + len sentence) = sentence ->
    ordered_slices text (a + len sentence) rest ->
    ordered_slices text from (sentence :: rest).

(** The contract of the grammar capability: every flagged span is a range
    of the text. *)
Definition match_in_text (text : str) (m : LanguageTool.Match) : Prop :=
  0 <= LanguageTool.offset m
  /\ 0 <= LanguageTool.errorLength m
  /\ LanguageTool.offset m + LanguageTool.errorLength m <= len text.

(** ** A stand-in environment for running the checker in examples *)

Definition example_textstat : textstat.api := {|
  textstat.flesch_reading_ease _ := Ok 65.0%float;
  textstat.flesch_kincaid_grade _ := Ok 8.0%float;
  textstat.gunning_fog _ := Ok 10.0%float;
  textstat.smog_index _ := Ok 9.0%float;
  textstat.automated_readability_index _ := Ok 8.0%float;
  textstat.coleman_liau_index _ := Ok 9.0%float;
  textstat.difficult_words _ := Ok 3;
  textstat.reading_time _ _ := Ok 0.5%float
|}.

(** The grammar tool answers [matches]; the tokenizer takes a non-empty
    text for one sentence. *)
Definition example_env (U : UnicodeData) (matches : list LanguageTool.Match) : Env := {|
  unicode := U;
  tool_check _ := Ok matches;
  sent_tokenize t := Ok match t with
                        | [] => []
                        | _ :: _ => [t]
                        end;
  stat := example_textstat
|}.

(** The characters of [text] at the indices from [lo] up to, not
    including, [hi] that exist: the span clipped to the bounds of the
    text. *)
Definition clipped_substring (text : str) (lo hi : Z) : str :=
  let lo' := Z.max 0 lo in
  let hi' := Z.min (len text) hi in
  firstn (Z.to_nat (hi' - lo')) (skipn (Z.to_nat lo') text).

(** An environment whose Unicode tables are [U]. *)
Definition env_with (U : UnicodeData)
  (tool : str -> result (list LanguageTool.Match))
  (tokenizer : str -> result (list str)) (ts : textstat.api) : Env :=
  {| unicode := U; tool_check := tool; sent_tokenize := tokenizer; stat := ts |}.

(** Texts of the test suite and of the specification's scenarios. *)
Definition text_ball : str := lit "The ball was thrown by the boy.".
Definition text_the_the : str := lit "The the cat sat on the mat.".
Definition text_very_very : str := lit "very very tired".
Definition text_long_sentence : str :=
  lit "This is a very long sentence that goes on and on and on with many clauses and phrases that could easily be broken up into multiple shorter sentences to improve readability and make the text easier to understand for the average reader.".

(** A text whose findings do not come out in the order of their
    positions. *)
Definition text_unordered : str := lit "In order to be taken, the the.".

(** A match the grammar tool could report on [text_unordered]. *)
Definition example_match : LanguageTool.Match :=
  {| LanguageTool.ruleId := lit "ENGLISH_WORD_REPEAT_RULE";
     LanguageTool.message := lit "Possible typo: you repeated a word";
     LanguageTool.replacements := [lit "the"; lit "then"; lit "they"; lit "thee"];
     LanguageTool.offset := 22;
     LanguageTool.errorLength := 7;
     LanguageTool.category := lit "MISC" |}.

Definition offsets (l : list StyleSuggestion.t) : list Z := map StyleSuggestion.offset l.
Definition categories (l : list StyleSuggestion.t) : list str := map StyleSuggestion.category l.

(* ================================================================== *)
(** * Auxiliary definitions for further properties of the core *)
(* ================================================================== *)

From Stdlib Require Import Sorted Permutation.

(** The findings of the long-sentence loop from a given value of its
    running [offset] on. *)
Fixpoint long_findings (env : Env) (text : str) (sentences : list str) (cursor : Z)
  : list StyleSuggestion.t :=
  match sentences with
  | [] => []
  | sentence :: rest =>
      (if 30 <? len (py_split env sentence)
       then [length_suggestion text sentence cursor (len (py_split env sentence))]
       else [])
      ++ long_findings env text rest (cursor + len sentence)
  end.

(** A sentence the long-sentence detector reports. *)
Definition is_long (env : Env) (sentence : str) : bool :=
  30 <? len (py_split env sentence).

(** Two match objects, the first ending before the second starts. *)
Definition match_before (m1 m2 : Re.match_obj) : Prop :=
  Re.m_start m1 < Re.m_start m2 /\ Re.m_end m1 <= Re.m_start m2.

(** Two findings, the span of the first ending before the span of the
    second starts. *)
Definition finding_before (s1 s2 : StyleSuggestion.t) : Prop :=
  StyleSuggestion.offset s1 < StyleSuggestion.offset s2
  /\ StyleSuggestion.offset s1 + StyleSuggestion.length s1 <= StyleSuggestion.offset s2.

(** A text with no character other than spaces. *)
Definition is_blank (U : UnicodeData) (s : str) : bool := forallb (isspace U) s.

(** The sentences of a text with the index each one starts at: slices of
    the text, in order and without overlap, the first one starting at or
    after index [from]. *)
Inductive sliced_at (text : str) : Z -> list (Z * str) -> Prop :=
| sliced_nil from : sliced_at text from []
| sliced_cons from a sentence rest :
    from <= a ->
    a + len sentence <= len text ->
    py_slice text a (a + len sentence) = sentence ->
    sliced_at text (a + len sentence) rest ->
    sliced_at text from ((a, sentence) :: rest).

(** A text in which a long sentence comes twice after a wide gap, and
    the tokenizer that cuts it into the two sentences. *)
Definition text_twice : str :=
  repeat 32%N 240 ++ text_long_sentence ++ lit " " ++ text_long_sentence.

Definition env_twice : Env :=
  env_with ascii_only (fun _ => Ok [])
    (fun _ => Ok [text_long_sentence; text_long_sentence]) example_textstat.

(** The strings a pattern can match, the context ([\b]) and the text a
    back-reference repeats left aside. *)
Fixpoint reads (U : UnicodeData) (r : Re.regex) (w : str) : Prop :=
  match r with
  | Re.Eps | Re.Boundary => w = []
  | Re.Lit p => exists c, w = [c] /\ ieq_literal U p c = true
  | Re.Plus k => w <> [] /\ Forall (fun c => Re.in_class U k c = true) w
  | Re.Group r1 => reads U r1 w
  | Re.Backref => True
  | Re.Alt r1 r2 => reads U r1 w \/ reads U r2 w
  | Re.Cat r1 r2 => exists w1 w2, w = w1 ++ w2 /\ reads U r1 w1 /\ reads U r2 w2
  end.

(** [w] is [phrase] up to case, character by character, as a literal of
    a pattern matches under IGNORECASE. *)
Definition same_up_to_case (U : UnicodeData) (phrase w : str) : Prop :=
  Forall2 (fun p c => ieq_literal U p c = true) phrase w.

(** The forms of "to be" in the passive-voice patterns. *)
Definition be_forms : list str :=
  [lit "am"; lit "is"; lit "are"; lit "was"; lit "were"; lit "be"; lit "been";
   lit "being"].

(** A form of "to be", white space, and a word that ends in "ed" or
    "en". *)
Definition passive_shape (U : UnicodeData) (w : str) : Prop :=
  exists be gap word ending,
    w = be ++ gap ++ word ++ ending
    /\ (exists form, In form be_forms /\ same_up_to_case U form be)
    /\ gap <> [] /\ Forall (fun c => isspace U c = true) gap
    /\ word <> [] /\ Forall (fun c => Re.is_word U c = true) word
    /\ (same_up_to_case U (lit "ed") ending \/ same_up_to_case U (lit "en") ending).

(** The phrase of a wordy-phrase pattern: the pattern without the [\b]
    at its two ends. *)
Definition phrase_of (pattern : string) : str :=
  lit (substring 2 (String.length pattern - 4) pattern).

(** The syntax tree of a phrase between two [\b]. *)
Definition phrase_tree (phrase : str) : Re.regex :=
  Re.Cat Re.Boundary
    (fold_right (fun c r => Re.Cat (Re.Lit c) r) (Re.Cat Re.Boundary Re.Eps) phrase).

(** The syntax trees of the passive-voice patterns: a word, the
    alternation of the forms of "to be", and the whole pattern with a
    given ending. *)
Definition word_tree (tail : Re.regex) (word : str) : Re.regex :=
  fold_right (fun c r => Re.Cat (Re.Lit c) r) tail word.

Fixpoint alt_tree (forms : list str) : Re.regex :=
  match forms with
  | [] => Re.Eps
  | [form] => word_tree Re.Eps form
  | form :: rest => Re.Alt (word_tree Re.Eps form) (alt_tree rest)
  end.

Definition passive_tree (ending : str) : Re.regex :=
  Re.Cat Re.Boundary
    (Re.Cat (Re.Group (alt_tree be_forms))
       (Re.Cat (Re.Plus Re.cc_space)
          (Re.Cat (Re.Plus Re.cc_word)
             (word_tree (Re.Cat Re.Boundary Re.Eps) ending)))).

(* ================================================================== *)
(** * [GrammarChecker.correct_text] and the checker object *)
(* ================================================================== *)

(** A [GrammarChecker] instance, as its callers hold it: the
    collaborators [analyze] reaches and
    [language_tool_python.utils.correct]. *)
Record Checker := {
  checker_env : Env;
  (** [language_tool_python.utils.correct(text, matches)] *)
  utils_correct : str -> list LanguageTool.Match -> result str;
  (** [self.tool.close()] *)
  tool_close : result unit
}.

Definition correct_text (c : Checker) (text : str) : result str :=
  matches <- tool_check (checker_env c) text ;;
  utils_correct c text matches.

Definition close (c : Checker) : result unit := tool_close c.

(** What a caller of the constructor can see raised: the [TypeError] of
    a call that does not fit the signature, or what the body raises. *)
Inductive exception :=
| TypeError (msg : str)
| Raised (e : exn).

Inductive attempt (A : Type) :=
| Done (a : A)
| Failed (e : exception).
Arguments Done {A} a.
Arguments Failed {A} e.

(** [GrammarChecker(k1=..., ...)].  [__init__(self)] takes no argument
    besides [self]: a call with a keyword raises [TypeError] before the
    body runs.  [init] is what the body builds (it starts LanguageTool). *)
Definition GrammarChecker_call (init : result Checker) (keywords : list string)
  : attempt Checker :=
  match keywords with
  | [] => match init with
          | Ok c => Done c
          | Raise e => Failed (Raised e)
          end
  | k :: _ =>
      Failed (TypeError (lit "GrammarChecker.__init__() got an unexpected keyword argument '"
                         ++ lit k ++ lit "'"))
  end.

(** [bool(s)] and [s.strip()] on a [str]. *)
Definition truthy (s : str) : bool :=
  match s with
  | [] => false
  | _ :: _ => true
  end.

Fixpoint lstrip (U : UnicodeData) (s : str) : str :=
  match s with
  | [] => []
  | c :: s' => if isspace U c then lstrip U s' else s
  end.

Definition py_strip (U : UnicodeData) (s : str) : str :=
  rev (lstrip U (rev (lstrip U s))).

(* ================================================================== *)
(** * The HTTP API ([writewise/api/server.py]) *)
(* ================================================================== *)

Module server.

Record CheckRequest := {
  text : str;
  auto_correct : bool
}.

Record GrammarIssueResponse := {
  gi_message : str;
  gi_rule_id : str;
  gi_category : str;
  gi_offset : Z;
  gi_length : Z;
  gi_context : str;
  gi_suggestions : list str;
  gi_severity : str
}.

Record StyleSuggestionResponse := {
  ss_message : str;
  ss_category : str;
  ss_offset : Z;
  ss_length : Z;
  ss_original : str;
  ss_suggestion : str
}.

Record ReadabilityResponse := {
  flesch_reading_ease : float;
  flesch_kincaid_grade : float;
  gunning_fog : float;
  smog_index : float;
  automated_readability_index : float;
  coleman_liau_index : float;
  difficult_words : Z;
  reading_time_minutes : float
}.

Record CheckResponse := {
  original_text : str;
  corrected_text : option str;
  grammar_issues : list GrammarIssueResponse;
  style_suggestions : list StyleSuggestionResponse;
  readability : ReadabilityResponse;
  word_count : Z;
  sentence_count : Z;
  character_count : Z;
  score : float
}.

(** What the handler of [POST /api/check] ends with: the response model
    it returns, or the [HTTPException] it raises. *)
Inductive outcome :=
| Return (response : CheckResponse)
| HTTPException (status_code : Z) (detail : str).

Section Handler.

(** The interpreter's character tables, [str(e)] on the exceptions of
    the collaborators, and what the body of [GrammarChecker.__init__]
    builds. *)
Variable U : UnicodeData.
Variable exn_str : exn -> str.
Variable init : result Checker.

Definition exception_str (e : exception) : str :=
  match e with
  | TypeError msg => msg
  | Raised e' => exn_str e'
  end.

(** The body of the [try] block, from [checker.analyze] on. *)
Definition respond (checker : Checker) (request : CheckRequest) : result CheckResponse :=
  (* Analyze text *)
  result <- analyze (checker_env checker) (text request) ;;
  (* Convert to response models *)
  let grammar_issues :=
    map (fun issue =>
           {| gi_message := GrammarIssue.message issue;
              gi_rule_id := GrammarIssue.rule_id issue;
              gi_category := GrammarIssue.category issue;
              gi_offset := GrammarIssue.offset issue;
              gi_length := GrammarIssue.length issue;
              gi_context := GrammarIssue.context issue;
              gi_suggestions := GrammarIssue.suggestions issue;
              gi_severity := GrammarIssue.severity issue |})
        (AnalysisResult.grammar_issues result) in
  let style_suggestions :=
    map (fun sug =>
           {| ss_message := StyleSuggestion.message sug;
              ss_category := StyleSuggestion.category sug;
              ss_offset := StyleSuggestion.offset sug;
              ss_length := StyleSuggestion.length sug;
              ss_original := StyleSuggestion.original sug;
              ss_suggestion := StyleSuggestion.suggestion sug |})
        (AnalysisResult.style_suggestions result) in
  let readability :=
    let r := AnalysisResult.readability result in
    {| flesch_reading_ease := ReadabilityMetrics.flesch_reading_ease r;
       flesch_kincaid_grade := ReadabilityMetrics.flesch_kincaid_grade r;
       gunning_fog := ReadabilityMetrics.gunning_fog r;
       smog_index := ReadabilityMetrics.smog_index r;
       automated_readability_index := ReadabilityMetrics.automated_readability_index r;
       coleman_liau_index := ReadabilityMetrics.coleman_liau_index r;
       difficult_words := ReadabilityMetrics.difficult_words r;
       reading_time_minutes := ReadabilityMetrics.reading_time_minutes r |} in
  (* Auto-correct if requested *)
  corrected_text <- (if auto_correct request
                     then corrected <- correct_text checker (text request) ;;
                          Ok (Some corrected)
                     else Ok None) ;;
  Ok {| original_text := AnalysisResult.original_text result;
        corrected_text := corrected_text;
        grammar_issues := grammar_issues;
        style_suggestions := style_suggestions;
        readability := readability;
        word_count := AnalysisResult.word_count result;
        sentence_count := AnalysisResult.sentence_count result;
        character_count := AnalysisResult.character_count result;
        score := AnalysisResult.score result |}.

Definition internal_error (e : exception) : outcome :=
  HTTPException 500 (lit "Error processing text: " ++ exception_str e).

(** [check_grammar(request)]: the handler reads and may assign the
    module's global [checker]; it is threaded through as the first
    argument and the first component of the result. *)
Definition check_grammar (checker : option Checker) (request : CheckRequest)
  : option Checker * outcome :=
  if negb (truthy (text request)) || negb (truthy (py_strip U (text request)))
  then (checker, HTTPException 400 (lit "Text cannot be empty"))
  else
    (* try: *)
    (* Initialize checker if not already done *)
    match (match checker with
           | None => GrammarChecker_call init ["use_language_tool"%string]
           | Some c => Done c
           end) with
    | Failed e => (checker, internal_error e)
    | Done c =>
        (Some c,
         match respond c request with
         | Ok response => Return response
         | Raise e => internal_error (Raised e)
         end)
    end.

(** The startup half of [lifespan]: the value of the global [checker]
    once it has run. *)
Definition lifespan_startup : attempt (option Checker) :=
  match GrammarChecker_call init ["use_language_tool"%string] with
  | Done c => Done (Some c)
  | Failed e => Failed e
  end.

End Handler.

End server.

(** A checker over the stand-in environment: the correction returns the
    text unchanged. *)
Definition example_checker (U : UnicodeData) (matches : list LanguageTool.Match)
  : Checker :=
  {| checker_env := example_env U matches;
     utils_correct text _ := Ok text;
     tool_close := Ok tt |}.

(* ================================================================== *)
(** * The command line ([writewise/cli.py]): the score it shows *)
(* ================================================================== *)

(** [num / den] rounded to the nearest integer, ties to the even one
    ([0 <= num], [0 < den]). *)
Definition round_half_even (num den : Z) : Z :=
  let q := num / den in
  match 2 * (num mod den) ?= den with
  | Lt => q
  | Gt => q + 1
  | Eq => if Z.even q then q else q + 1
  end.

(** Ten times the magnitude [m * 2^e] of a finite number, rounded to an
    integer: the digits [".1f"] shows (CPython rounds the exact binary
    value correctly, ties to even). *)
Definition tenths (m : positive) (e : Z) : Z :=
  if 0 <=? e then Zpos m * 2 ^ e * 10
  else round_half_even (Zpos m * 10) (2 ^ (- e)).

Definition show_tenths (t : Z) : str :=
  py_str_of_int (t / 10) ++ lit "." ++ py_str_of_int (t mod 10).

(** [f"{x:.1f}"] *)
Definition format_1f (x : float) : str :=
  match Prim2SF x with
  | S754_nan => lit "nan"
  | S754_infinity s => (if s then lit "-" else []) ++ lit "inf"
  | S754_zero s => (if s then lit "-" else []) ++ lit "0.0"
  | S754_finite s m e => (if s then lit "-" else []) ++ show_tenths (tenths m e)
  end.

(** The escape character, ["\033"]. *)
Definition ESC : str := [27%N].

(** [str(n)] for an [int] of either sign. *)
Definition py_str_of_Z (n : Z) : str :=
  if n <? 0 then lit "-" ++ py_str_of_int (- n) else py_str_of_int n.

(** [sep.join(items)] *)
Fixpoint py_join (sep : str) (items : list str) : str :=
  match items with
  | [] => []
  | x :: rest =>
      match rest with
      | [] => x
      | _ :: _ => x ++ sep ++ py_join sep rest
      end
  end.

(** [enumerate(l, start)] *)
Fixpoint enumerate {A : Type} (start : Z) (l : list A) : list (Z * A) :=
  match l with
  | [] => []
  | x :: l' => (start, x) :: enumerate (start + 1) l'
  end.

Module cli.

(** A [pathlib.Path], as the text [str(path)] gives. *)
Definition Path := str.

(** The parsed arguments ([args]); [command] is one of ["check"] and
    ["correct"]. *)
Record Namespace := {
  command : str;
  text : option str;
  file : option Path;
  output : option Path;
  correct : bool;
  verbose : bool
}.

(** What [main] reaches outside the checker. *)
Record System := {
  (** [path.exists()] *)
  path_exists : Path -> bool;
  (** [path.read_text(encoding='utf-8')] *)
  read_text : Path -> result str;
  (** [path.write_text(data, encoding='utf-8')] *)
  write_text : Path -> str -> result unit;
  (** [GrammarChecker()] *)
  new_checker : result Checker
}.

(** What a run of [main] does, in order, and how it ends. *)
Inductive event :=
| Print (line : str)                       (* print(line) *)
| PrintErr (line : str)                    (* print(line, file=sys.stderr) *)
| PrintHelp                                (* parser.print_help() *)
| WriteText (path : Path) (data : str)     (* path.write_text(data) *)
| Close.                                   (* checker.close() *)

Inductive ending :=
| Returns
| Exits (status : Z)                       (* sys.exit(status) *)
| Raises (e : exn).

Definition run := (list event * ending)%type.

Definition emit (events : list event) : run := (events, Returns).

(** Two statements in sequence: the second runs when the first
    returns. *)
Definition seq (a b : run) : run :=
  match snd a with
  | Returns => (fst a ++ fst b, snd b)
  | _ => a
  end.

(** [try: body finally: final] *)
Definition try_finally (body final : run) : run :=
  (fst body ++ fst final,
   match snd final with
   | Returns => snd body
   | ended => ended
   end).

Definition separator : str := repeat 61%N 80.        (* "=" * 80 *)

Definition print_separator : list event := [Print separator].

Definition format_score_color (score : float) : str :=
  if (90 <=? score)%float
  then ESC ++ lit "[92m" ++ format_1f score ++ ESC ++ lit "[0m"      (* Green *)
  else if (75 <=? score)%float
  then ESC ++ lit "[93m" ++ format_1f score ++ ESC ++ lit "[0m"      (* Yellow *)
  else ESC ++ lit "[91m" ++ format_1f score ++ ESC ++ lit "[0m".     (* Red *)

Section Main.

Variable sys : System.
Variable args : Namespace.

(** The text to analyze, or how [main] ends without one. *)
Definition input_text : run + str :=
  match file args with
  | Some path =>
      if negb (path_exists sys path)
      then inl ([PrintErr (lit "Error: File '" ++ path ++ lit "' not found")], Exits 1)
      else match read_text sys path with
           | Ok content => inr content
           | Raise e => inl ([], Raises e)
           end
  | None =>
      match text args with
      | Some (c :: t) => inr (c :: t)
      | _ =>
          inl ([PrintErr (lit "Error: Please provide text or use --file option");
                PrintHelp], Exits 1)
      end
  end.

(** The corrected text goes to [args.output] when there is one;
    [otherwise] is what is printed when there is none. *)
Definition deliver (corrected : str) (otherwise : list event) : run :=
  match output args with
  | Some path =>
      match write_text sys path corrected with
      | Ok _ => emit [WriteText path corrected;
                      Print ([10003%N] ++ lit " Corrected text saved to: " ++ path)]
      | Raise e => ([], Raises e)
      end
  | None => emit otherwise
  end.

Definition correct_command (checker : Checker) (input : str) : run :=
  (* Just correct the text *)
  seq (emit [Print (lit "Correcting text...")])
      match correct_text checker input with
      | Raise e => ([], Raises e)
      | Ok corrected =>
          deliver corrected
            (print_separator ++ [Print (lit "CORRECTED TEXT:")] ++ print_separator
             ++ [Print corrected])
      end.

Definition print_issue (entry : Z * GrammarIssue.t) : list event :=
  let '(i, issue) := entry in
  let severity_marker :=
    if str_eqb (GrammarIssue.severity issue) (lit "error")
    then [10060%N] else [9888%N; 65039%N] in
  [Print ([10%N] ++ severity_marker ++ lit " Issue " ++ py_str_of_Z i ++ lit ": "
          ++ GrammarIssue.message issue);
   Print (lit "   Category: " ++ GrammarIssue.category issue);
   Print (lit "   Context: ..." ++ GrammarIssue.context issue ++ lit "...")]
  ++ (match GrammarIssue.suggestions issue with
      | [] => []
      | _ :: _ =>
          [Print (lit "   Suggestions: "
                  ++ py_join (lit ", ") (py_slice (GrammarIssue.suggestions issue) 0 3))]
      end)
  ++ (if verbose args
      then [Print (lit "   Rule ID: " ++ GrammarIssue.rule_id issue);
            Print (lit "   Position: " ++ py_str_of_Z (GrammarIssue.offset issue)
                   ++ lit " (length " ++ py_str_of_Z (GrammarIssue.length issue)
                   ++ lit ")")]
      else []).

Definition print_suggestion (entry : Z * StyleSuggestion.t) : list event :=
  let '(i, sug) := entry in
  [Print ([10%N] ++ [128161%N] ++ lit " Suggestion " ++ py_str_of_Z i ++ lit ": "
          ++ StyleSuggestion.message sug);
   Print (lit "   Category: " ++ StyleSuggestion.category sug);
   Print (lit "   Original: " ++ StyleSuggestion.original sug);
   Print (lit "   Suggestion: " ++ StyleSuggestion.suggestion sug)]
  ++ (if verbose args
      then [Print (lit "   Position: " ++ py_str_of_Z (StyleSuggestion.offset sug)
                   ++ lit " (length " ++ py_str_of_Z (StyleSuggestion.length sug)
                   ++ lit ")")]
      else []).

(** The report of the check command, up to the readability metrics. *)
Definition report (result : AnalysisResult.t) : list event :=
  (* Print summary *)
  print_separator ++ [Print (lit "ANALYSIS SUMMARY")] ++ print_separator
  ++ [Print (lit "Quality Score: " ++ format_score_color (AnalysisResult.score result)
             ++ lit "/100");
      Print (lit "Word Count: " ++ py_str_of_Z (AnalysisResult.word_count result));
      Print (lit "Sentence Count: " ++ py_str_of_Z (AnalysisResult.sentence_count result));
      Print (lit "Character Count: "
             ++ py_str_of_Z (AnalysisResult.character_count result));
      Print (lit "Grammar Issues: " ++ py_str_of_Z (len (AnalysisResult.grammar_issues result)));
      Print (lit "Style Suggestions: "
             ++ py_str_of_Z (len (AnalysisResult.style_suggestions result)))]
  (* Print grammar issues *)
  ++ (match AnalysisResult.grammar_issues result with
      | [] => []
      | _ :: _ =>
          print_separator ++ [Print (lit "GRAMMAR ISSUES")] ++ print_separator
          ++ flat_map print_issue (enumerate 1 (AnalysisResult.grammar_issues result))
      end)
  (* Print style suggestions *)
  ++ (match AnalysisResult.style_suggestions result with
      | [] => []
      | _ :: _ =>
          print_separator ++ [Print (lit "STYLE SUGGESTIONS")] ++ print_separator
          ++ flat_map print_suggestion
               (enumerate 1 (AnalysisResult.style_suggestions result))
      end)
  (* Print readability metrics *)
  ++ print_separator ++ [Print (lit "READABILITY METRICS")] ++ print_separator
  ++ (let readability := AnalysisResult.readability result in
      [Print (lit "Flesch Reading Ease: "
              ++ format_1f (ReadabilityMetrics.flesch_reading_ease readability));
       Print (lit "Flesch-Kincaid Grade: "
              ++ format_1f (ReadabilityMetrics.flesch_kincaid_grade readability));
       Print (lit "Gunning Fog Index: "
              ++ format_1f (ReadabilityMetrics.gunning_fog readability));
       Print (lit "SMOG Index: " ++ format_1f (ReadabilityMetrics.smog_index readability));
       Print (lit "Difficult Words: "
              ++ py_str_of_Z (ReadabilityMetrics.difficult_words readability));
       Print (lit "Reading Time: "
              ++ format_1f (ReadabilityMetrics.reading_time_minutes readability)
              ++ lit " minutes")]).

(** The final message of the check command. *)
Definition verdict (result : AnalysisResult.t) : list event :=
  print_separator
  ++ [Print
        (if (len (AnalysisResult.grammar_issues result) =? 0)
            && (len (AnalysisResult.style_suggestions result) =? 0)
         then [9989%N] ++ lit " Excellent! No issues found."
         else lit "Found " ++ py_str_of_Z (len (AnalysisResult.grammar_issues result))
              ++ lit " grammar issues and "
              ++ py_str_of_Z (len (AnalysisResult.style_suggestions result))
              ++ lit " style suggestions.")].

Definition check_command (checker : Checker) (input : str) : run :=
  seq (emit [Print (lit "Analyzing text...")])
      match analyze (checker_env checker) input with
      | Raise e => ([], Raises e)
      | Ok result =>
          seq (emit (report result))
            (seq
               (* Auto-correct if requested *)
               (if correct args
                then seq (emit (print_separator ++ [Print (lit "AUTO-CORRECTED TEXT")]
                                ++ print_separator))
                       match correct_text checker input with
                       | Raise e => ([], Raises e)
                       | Ok corrected => deliver corrected [Print corrected]
                       end
                else emit [])
               (* Final message *)
               (emit (verdict result)))
      end.

Definition main : run :=
  (* Get text to analyze *)
  match input_text with
  | inl ended => ended
  | inr input =>
      (* Initialize checker *)
      seq (emit [Print (lit "Initializing WriteWise Grammar Checker...")])
          match new_checker sys with
          | Raise e => ([], Raises e)
          | Ok checker =>
              try_finally
                (if str_eqb (command args) (lit "correct")
                 then correct_command checker input
                 else check_command checker input)
                ([Close], match close checker with
                          | Ok _ => Returns
                          | Raise e => Raises e
                          end)
          end
  end.

End Main.

End cli.

(** ** The score in exact arithmetic *)

(** The exact score in tenths of a point: [100 - exact_deductions / 10],
    not below 0. *)
Definition exact_tenths (deductions : Z) : Z := Z.max 0 (1000 - deductions).

(** Whether the number [x] is within [1 / tol] of the fraction
    [num / den] ([0 < den], [0 < tol]), decided in integers. *)
Definition float_close (x : float) (num den tol : Z) : bool :=
  match Prim2SF x with
  | S754_zero _ => Z.abs num * tol <=? den
  | S754_finite s m e =>
      let v := if s then Zneg m else Zpos m in
      if 0 <=? e then Z.abs (den * (2 ^ e * v) - num) * tol <=? den
      else Z.abs (den * v - num * 2 ^ (- e)) * tol <=? den * 2 ^ (- e)
  | _ => false
  end.

(** Whether [x] is +0.0 or a positive number. *)
Definition positive_sign (x : float) : bool :=
  match Prim2SF x with
  | S754_zero false | S754_finite false _ _ => true
  | _ => false
  end.

(** What the command line shows for a score with the given exact
    deductions: green down to 90 points, yellow down to 75, red below,
    around the exact score with one decimal. *)
Definition expected_display (deductions : Z) : str :=
  ESC
  ++ (if deductions <=? 100 then lit "[92m"
      else if deductions <=? 250 then lit "[93m" else lit "[91m")
  ++ show_tenths (exact_tenths deductions) ++ ESC ++ lit "[0m".

(** The binary64 number [j * 0.05], next to [j / 20]: the marks between
    which the scores lie, one mark half way between two neighbouring
    exact scores. *)
Definition mark (j : Z) : float := (float_of_int j * 0.05)%float.

(** Whether the score [x] lies between the marks around the exact score
    for the deductions [d] (the lower mark is left out at 0). *)
Definition between_marks (d : Z) (x : float) : bool :=
  (x <? mark (2 * (1000 - d) + 1))%float
  && ((1000 <=? d) || (mark (2 * (1000 - d) - 1) <? x)%float).

(** The facts checked of a score [x] computed for the exact deductions
    [d]: past 100 points of deductions it is 0.0; up to there it is
    within 2e-14 of the exact score, positive or +0.0, at or above 90
    and 75 as the exact score is, 100.0 only without deductions, and
    between the marks around the exact score. *)
Definition score_facts (d : Z) (x : float) : bool :=
  if 1000 <? d then PrimFloat.Leibniz.eqb x 0.0
  else float_close x (exact_tenths d) 10 (5 * 10 ^ 13)
       && positive_sign x
       && Bool.eqb (90 <=? x)%float (d <=? 100)
       && Bool.eqb (75 <=? x)%float (d <=? 250)
       && Bool.eqb (PrimFloat.Leibniz.eqb x 100.0) (d =? 0)
       && between_marks d x.

Definition band_tenths (low high : bool) : Z :=
  if low then 50 else if high then 20 else 0.

(** A number that is zero, negative or minus infinity; and one that is
    zero, positive or plus infinity. *)
Definition nonpositive (x : spec_float) : bool :=
  match x with
  | S754_zero _ | S754_finite true _ _ | S754_infinity true => true
  | _ => false
  end.

Definition nonnegative (x : spec_float) : bool :=
  match x with
  | S754_zero _ | S754_finite false _ _ | S754_infinity false => true
  | _ => false
  end.

(** A positive number of at least 128 (a mantissa of 53 bits or more
    with an exponent of at least -45), or plus infinity. *)
Definition at_least_128 (x : spec_float) : bool :=
  match x with
  | S754_finite false m e => (2 ^ 52 <=? Zpos m) && (-45 <=? e)
  | S754_infinity false => true
  | _ => false
  end.

(** A number in [0, 128): zero, or positive with a mantissa below 2^53
    and an exponent of at most -46. *)
Definition below_128 (x : spec_float) : bool :=
  match x with
  | S754_zero _ => true
  | S754_finite false m e => (Zpos m <? 2 ^ 53) && (e <=? -46)
  | _ => false
  end.


(** Whether an event of a run is the closing of the checker. *)
Definition is_close (e : cli.event) : bool :=
  match e with
  | cli.Close => true
  | _ => false
  end.

(** No event of a run closes the checker. *)
Definition no_close (events : list cli.event) : Prop :=
  Forall (fun e => is_close e = false) events.

(** A system for the examples: one file, [notes.txt], and a checker
    over the stand-in environment. *)
Definition example_system (content : str) : cli.System :=
  {| cli.path_exists p := str_eqb p (lit "notes.txt");
     cli.read_text p :=
       if str_eqb p (lit "notes.txt") then Ok content
       else Raise (CapabilityError (lit "FileNotFoundError"));
     cli.write_text _ _ := Ok tt;
     cli.new_checker := Ok (example_checker ascii_only []) |}.

Definition example_args (command : string) (text : option str) : cli.Namespace :=
  {| cli.command := lit command;
     cli.text := text;
     cli.file := None;
     cli.output := None;
     cli.correct := false;
     cli.verbose := false |}.

(* ================================================================== *)
(** * The quality scorer *)
(* ================================================================== *)

Section FloatFacts.

Local Open Scope float_scope.

Lemma float_ltb_leb (x y : float) : (x <? y) = true -> (x <=? y) = true.
Proof.
  rewrite FloatAxioms.ltb_spec, FloatAxioms.leb_spec. unfold SFltb, SFleb.
  destruct (SFcompare (Prim2SF x) (Prim2SF y)) as [[ | | ] | ]; congruence.
Qed.

Lemma float_eq_dec_true (x y : float) : PrimFloat.Leibniz.eqb x y = true -> x = y.
Proof. apply FloatAxioms.Leibniz.eqb_spec. Qed.

Lemma float_neq (x y : float) : PrimFloat.Leibniz.eqb x y = false -> x <> y.
Proof.
  intros H E. apply FloatAxioms.Leibniz.eqb_spec in E. congruence.
Qed.

(** The clamp [max(0.0, min(100.0, score))] lands in [0, 100] whatever
    [score] is (a NaN included). *)
Lemma clamp_bounds (score : float) :
  (0.0 <=? py_max 0.0 (py_min 100.0 score)) = true
  /\ (py_max 0.0 (py_min 100.0 score) <=? 100.0) = true.
Proof.
  unfold py_min. destruct (score <? 100.0) eqn:Hhi.
  - unfold py_max. destruct (0.0 <? score) eqn:Hlo.
    + split; apply float_ltb_leb; assumption.
    + split; reflexivity.
  - split; reflexivity.
Qed.

End FloatFacts.

Lemma in_zs_upto (n : nat) (k : Z) : 0 <= k < Z.of_nat n -> In k (zs_upto n).
Proof.
  intros H. unfold zs_upto. apply in_map_iff. exists (Z.to_nat k). split.
  - lia.
  - apply in_seq. lia.
Qed.

Lemma score_as_tail gs ss r :
  _calculate_score gs ss r
  = score_tail (fold_left deduct_issue gs 100.0%float) (len ss)
      (ReadabilityMetrics.flesch_reading_ease r <? 30)%float
      (90 <? ReadabilityMetrics.flesch_reading_ease r)%float.
Proof. reflexivity. Qed.

Lemma spec_grammar_step_fold gs : forall s,
  spec_grammar_step s gs = fold_left deduct_issue gs s.
Proof.
  induction gs as [ | g gs IH]; intros s; simpl.
  - reflexivity.
  - rewrite IH. unfold deduct_issue, grammar_penalty.
    destruct (str_eqb (GrammarIssue.severity g) (lit "error")); reflexivity.
Qed.

Lemma str_eqb_refl (a : str) : str_eqb a a = true.
Proof.
  induction a as [ | x a IH]; simpl.
  - reflexivity.
  - rewrite N.eqb_refl, IH. reflexivity.
Qed.

Lemma str_eqb_eq (a b : str) : str_eqb a b = true <-> a = b.
Proof.
  split.
  - revert b. induction a as [ | x a IH]; intros [ | y b]; simpl; try discriminate.
    + reflexivity.
    + intros H. apply andb_true_iff in H as [Hx Hab].
      apply N.eqb_eq in Hx. apply IH in Hab. congruence.
  - intros ->. apply str_eqb_refl.
Qed.

(** The score is within [0, 100] for every input of the scorer. *)
Lemma calculate_score_bounds gs ss r :
  (0.0 <=? _calculate_score gs ss r)%float = true
  /\ (_calculate_score gs ss r <=? 100.0)%float = true.
Proof. unfold _calculate_score. apply clamp_bounds. Qed.

(** Subtracting 2.0 or 0.5 from a grid point is exact (checked for every
    grid point from 100 down to 0). *)
Lemma grid_table_ok :
  forallb (fun k =>
    PrimFloat.Leibniz.eqb (grid k - 2.0)%float (grid (k + 4))
    && PrimFloat.Leibniz.eqb (grid k - 0.5)%float (grid (k + 1)))
    (zs_upto 201) = true.
Proof. vm_cast_no_check (eq_refl true). Qed.

(** [step_holds] at every configuration whose exact score stays at or
    above 0 (checked by running the scorer on each of them). *)
Lemma step_table_ok :
  forallb (fun k =>
    forallb (fun n =>
      forallb (fun low =>
        forallb (fun high =>
          implb (step_in_range k n low high) (step_holds k n low high))
          [true; false])
        [true; false])
      (zs_upto 334))
    (zs_upto 197) = true.
Proof. vm_cast_no_check (eq_refl true). Qed.

Lemma issue_tenths_cases g :
  (GrammarIssue.severity g = lit "error" /\ issue_tenths g = 20)
  \/ (str_eqb (GrammarIssue.severity g) (lit "error") = false /\ issue_tenths g = 5).
Proof.
  unfold issue_tenths.
  destruct (str_eqb (GrammarIssue.severity g) (lit "error")) eqn:E.
  - left. split; [apply str_eqb_eq; exact E | reflexivity].
  - right. split; reflexivity.
Qed.

Lemma half_points_nonneg gs : 0 <= half_points gs.
Proof.
  induction gs as [ | g gs IH]; cbn [half_points fold_right].
  - lia.
  - fold (half_points gs).
    destruct (issue_tenths_cases g) as [[_ ->] | [_ ->]];
      [change (20 / 5) with 4 | change (5 / 5) with 1]; lia.
Qed.

Lemma half_points_app gs1 gs2 :
  half_points (gs1 ++ gs2) = half_points gs1 + half_points gs2.
Proof.
  induction gs1 as [ | g gs1 IH]; cbn [half_points fold_right app].
  - reflexivity.
  - fold (half_points (gs1 ++ gs2)). fold (half_points gs1). rewrite IH. lia.
Qed.

Lemma half_points_tenths gs :
  fold_right (fun issue acc => issue_tenths issue + acc) 0 gs = 5 * half_points gs.
Proof.
  induction gs as [ | g gs IH]; cbn [half_points fold_right].
  - reflexivity.
  - fold (half_points gs). rewrite IH.
    destruct (issue_tenths_cases g) as [[_ ->] | [_ ->]];
      [change (20 / 5) with 4 | change (5 / 5) with 1]; lia.
Qed.

(** One turn of the grammar loop moves the running score along the grid
    without rounding. *)
Lemma deduct_issue_grid (k : Z) (g : GrammarIssue.t) :
  0 <= k <= 200 ->
  deduct_issue (grid k) g = grid (k + issue_tenths g / 5).
Proof.
  intros Hk.
  pose proof grid_table_ok as T.
  rewrite forallb_forall in T.
  assert (Hin : In k (zs_upto 201)).
  { apply in_zs_upto. change (Z.of_nat 201) with 201. lia. }
  specialize (T k Hin).
  apply andb_true_iff in T as [T2 T1].
  apply float_eq_dec_true in T2. apply float_eq_dec_true in T1.
  unfold deduct_issue, issue_tenths.
  destruct (str_eqb (GrammarIssue.severity g) (lit "error")).
  - change (20 / 5) with 4. exact T2.
  - change (5 / 5) with 1. exact T1.
Qed.

Lemma grammar_loop_grid gs : forall k,
  0 <= k -> k + half_points gs <= 201 ->
  fold_left deduct_issue gs (grid k) = grid (k + half_points gs).
Proof.
  induction gs as [ | g gs IH]; intros k Hk Hsum;
    cbn [half_points fold_right fold_left] in *.
  - f_equal. lia.
  - fold (half_points gs) in *.
    pose proof (half_points_nonneg gs) as Hn.
    assert (Hg : 1 <= issue_tenths g / 5).
    { destruct (issue_tenths_cases g) as [[_ ->] | [_ ->]];
        [change (20 / 5) with 4 | change (5 / 5) with 1]; lia. }
    rewrite deduct_issue_grid by lia.
    rewrite IH by lia. f_equal. lia.
Qed.

Lemma grid_zero : grid 0 = 100.0%float.
Proof. reflexivity. Qed.

(** C1. The scorer computes what the four steps of the specification
    compute, in that order: start at 100.0; subtract 2.0 for every
    grammar finding of severity error and 0.5 for every other one;
    subtract 0.3 times the number of style findings; subtract 5.0 when
    the Flesch Reading Ease is below 30, else 2.0 when it is above 90;
    clamp to [0.0, 100.0].  The grammar step is exact in binary64: down
    to 0 the running score is 100 minus half a point per [half_points]
    (four for an error, one otherwise), in whatever order the findings
    come.  With exactly one error finding, two style findings and a
    Flesch Reading Ease of 65 the score is the binary64 number 97.4. *)
Theorem calculate_score_formula :
  (forall gs ss r, _calculate_score gs ss r = spec_score gs ss r)
  /\ (forall gs, half_points gs <= 200 ->
                 spec_grammar_step 100.0 gs = grid (half_points gs))
  /\ (forall g s1 s2 r,
        GrammarIssue.severity g = lit "error" ->
        ReadabilityMetrics.flesch_reading_ease r = 65.0%float ->
        _calculate_score [g] [s1; s2] r = 97.4%float
        /\ (100.0 - 2.0 - 0.6 - 0.0)%float = 97.4%float).
Proof.
  split; [ | split].
  - intros gs ss r. unfold spec_score, spec_clamp, spec_readability_step, spec_style_step.
    rewrite spec_grammar_step_fold. reflexivity.
  - intros gs Hgs. rewrite spec_grammar_step_fold, <- grid_zero.
    rewrite grammar_loop_grid by lia. reflexivity.
  - intros g s1 s2 r Hsev Hfre. split; [ | reflexivity].
    rewrite score_as_tail. simpl. unfold deduct_issue.
    rewrite Hsev, str_eqb_refl, Hfre. reflexivity.
Qed.

Lemma calculate_score_formula_witness :
  _calculate_score [error_issue] [a_style_finding; a_style_finding]
    (metrics_with_fre 65.0%float) = 97.4%float
  /\ (100.0 - 2.0 - 0.6 - 0.0)%float = 97.4%float.
Proof.
  apply (proj2 (proj2 calculate_score_formula) error_issue a_style_finding
               a_style_finding (metrics_with_fre 65.0%float)); reflexivity.
Defined.

Lemma len_nonneg {A : Type} (l : list A) : 0 <= len l.
Proof. unfold len. lia. Qed.

(** C4, as amended.  With the style findings and the readability metrics
    held fixed, one more error-severity grammar finding (inserted
    anywhere in the list) strictly lowers the score as long as the exact
    deductions, the new finding included, do not exceed 100 points (the
    score is not clamped at 0).  The two binary64 scores differ by 2.0 up
    to rounding: their difference is within 1e-14 of 2.0, and it is
    exactly 2.0 when there are no style findings. *)
Theorem error_finding_lowers_score gs1 gs2 g ss r :
  GrammarIssue.severity g = lit "error" ->
  exact_deductions (gs1 ++ g :: gs2) ss r <= 1000 ->
  let before := _calculate_score (gs1 ++ gs2) ss r in
  let after := _calculate_score (gs1 ++ g :: gs2) ss r in
  (after <? before)%float = true
  /\ (abs (before - after - 2.0) <=? 1e-14)%float = true
  /\ (ss = [] -> after = (before - 2.0)%float).
Proof.
  intros Hsev Hded before after. subst before after.
  unfold exact_deductions in Hded. rewrite half_points_tenths in Hded.
  rewrite half_points_app in Hded. cbn [half_points fold_right] in Hded.
  fold (half_points gs2) in Hded.
  assert (Hg : issue_tenths g / 5 = 4).
  { unfold issue_tenths. rewrite Hsev, str_eqb_refl. reflexivity. }
  rewrite Hg in Hded.
  pose proof (half_points_nonneg gs1) as H1.
  pose proof (half_points_nonneg gs2) as H2.
  pose proof (len_nonneg ss) as Hn.
  set (low := (ReadabilityMetrics.flesch_reading_ease r <? 30)%float) in *.
  set (high := (90 <? ReadabilityMetrics.flesch_reading_ease r)%float) in *.
  assert (Hr : 0 <= readability_tenths r
               /\ readability_tenths r = if low then 50 else if high then 20 else 0).
  { unfold readability_tenths. fold low high. destruct low, high; lia. }
  destruct Hr as [Hr0 Hr].
  set (k := half_points gs1 + half_points gs2).
  assert (Hbefore : fold_left deduct_issue (gs1 ++ gs2) 100.0%float = grid k).
  { rewrite <- grid_zero, grammar_loop_grid; rewrite ?half_points_app; try lia.
    f_equal. }
  assert (Hafter : fold_left deduct_issue (gs1 ++ g :: gs2) 100.0%float = grid (k + 4)).
  { rewrite <- grid_zero, grammar_loop_grid; rewrite ?half_points_app;
      cbn [half_points fold_right]; fold (half_points gs2); rewrite ?Hg; try lia.
    f_equal. unfold k. lia. }
  rewrite !score_as_tail. fold low high. rewrite Hbefore, Hafter.
  pose proof step_table_ok as T.
  rewrite forallb_forall in T.
  assert (Hk : In k (zs_upto 197)).
  { apply in_zs_upto. change (Z.of_nat 197) with 197. unfold k. lia. }
  specialize (T k Hk). rewrite forallb_forall in T.
  assert (Hlen : In (len ss) (zs_upto 334)).
  { apply in_zs_upto. change (Z.of_nat 334) with 334. lia. }
  specialize (T (len ss) Hlen). rewrite forallb_forall in T.
  assert (Hlow : In low [true; false]) by (destruct low; simpl; auto).
  specialize (T low Hlow). rewrite forallb_forall in T.
  assert (Hhigh : In high [true; false]) by (destruct high; simpl; auto).
  specialize (T high Hhigh).
  assert (Hrange : step_in_range k (len ss) low high = true).
  { unfold step_in_range. apply Z.leb_le. rewrite <- Hr. unfold k. lia. }
  rewrite Hrange in T. cbn [implb] in T. unfold step_holds in T.
  apply andb_true_iff in T as [T Texact].
  apply andb_true_iff in T as [Tlt Tnear].
  split; [exact Tlt | split; [exact Tnear | ]].
  intros ->. change (len (@nil StyleSuggestion.t)) with 0 in *.
  cbn [Z.eqb negb orb] in Texact. apply float_eq_dec_true. exact Texact.
Qed.

Lemma error_finding_lowers_score_witness :
  let before := _calculate_score [error_issue] [a_style_finding] (metrics_with_fre 65.0%float) in
  let after := _calculate_score [error_issue; error_issue] [a_style_finding]
                 (metrics_with_fre 65.0%float) in
  (after <? before)%float = true
  /\ (abs (before - after - 2.0) <=? 1e-14)%float = true
  /\ ([a_style_finding] = [] -> after = (before - 2.0)%float).
Proof.
  apply (error_finding_lowers_score [error_issue] [] error_issue [a_style_finding]
           (metrics_with_fre 65.0%float)).
  - reflexivity.
  - vm_compute. discriminate.
Defined.

(** C4, as stated, fails in binary64.  With 33 error findings, one style
    finding and a Flesch Reading Ease of 65 the score is 33.7; a 34th
    error finding makes it 31.7, which is above 0 (not clamped), and the
    two binary64 numbers do not differ by exactly 2.0: the new score is
    not the old one minus 2.0, and the old one minus the new one is not
    2.0. *)
Lemma error_step_not_exactly_two :
  GrammarIssue.severity error_issue = lit "error"
  /\ _calculate_score thirty_three_errors [a_style_finding] (metrics_with_fre 65.0%float)
     = 33.7%float
  /\ _calculate_score (error_issue :: thirty_three_errors) [a_style_finding]
       (metrics_with_fre 65.0%float) = 31.7%float
  /\ (0.0 <? _calculate_score (error_issue :: thirty_three_errors) [a_style_finding]
               (metrics_with_fre 65.0%float))%float = true
  /\ _calculate_score (error_issue :: thirty_three_errors) [a_style_finding]
       (metrics_with_fre 65.0%float)
     <> (_calculate_score thirty_three_errors [a_style_finding]
           (metrics_with_fre 65.0%float) - 2.0)%float
  /\ (_calculate_score thirty_three_errors [a_style_finding] (metrics_with_fre 65.0%float)
      - _calculate_score (error_issue :: thirty_three_errors) [a_style_finding]
          (metrics_with_fre 65.0%float))%float
     <> 2.0%float.
Proof.
  split; [reflexivity | ].
  split; [vm_compute; reflexivity | ].
  split; [vm_compute; reflexivity | ].
  split; [vm_compute; reflexivity | ].
  split; apply float_neq; vm_compute; reflexivity.
Qed.

(* ================================================================== *)
(** * Slices and searches *)
(* ================================================================== *)

Lemma len_app {A : Type} (l1 l2 : list A) : len (l1 ++ l2) = len l1 + len l2.
Proof. unfold len. rewrite length_app. lia. Qed.

Lemma adjust_index_in_range (n i : Z) : 0 <= i <= n -> adjust_index n i = i.
Proof.
  intros H. unfold adjust_index.
  destruct (i <? 0) eqn:E; [apply Z.ltb_lt in E | ]; lia.
Qed.

(** Between indices of the list a slice is [firstn] of [skipn]. *)
Lemma py_slice_in_range {A : Type} (s : list A) (lo hi : Z) :
  0 <= lo <= len s -> 0 <= hi <= len s ->
  py_slice s lo hi = firstn (Z.to_nat (hi - lo)) (skipn (Z.to_nat lo) s).
Proof.
  intros Hlo Hhi. unfold py_slice.
  rewrite !adjust_index_in_range by assumption. reflexivity.
Qed.

Lemma py_slice_nat {A : Type} (s : list A) (a b : nat) :
  (a <= b <= List.length s)%nat ->
  py_slice s (Z.of_nat a) (Z.of_nat b) = firstn (b - a) (skipn a s).
Proof.
  intros H. rewrite py_slice_in_range by (unfold len; lia).
  f_equal; [lia | f_equal; lia].
Qed.

Lemma starts_with_firstn (sub s : str) :
  starts_with sub s = true -> firstn (List.length sub) s = sub.
Proof.
  revert s. induction sub as [ | x sub IH]; intros [ | y s]; simpl; try discriminate.
  - reflexivity.
  - reflexivity.
  - intros H. apply andb_true_iff in H as [Hx Hs].
    apply N.eqb_eq in Hx. rewrite (IH s Hs). congruence.
Qed.

Lemma starts_with_length (sub s : str) :
  starts_with sub s = true -> (List.length sub <= List.length s)%nat.
Proof.
  revert s. induction sub as [ | x sub IH]; intros [ | y s]; simpl; try discriminate.
  - lia.
  - lia.
  - intros H. apply andb_true_iff in H as [_ Hs]. apply IH in Hs. lia.
Qed.

Lemma firstn_starts_with (sub s : str) :
  (List.length sub <= List.length s)%nat ->
  firstn (List.length sub) s = sub -> starts_with sub s = true.
Proof.
  revert s. induction sub as [ | x sub IH]; intros s Hl H.
  - destruct s; reflexivity.
  - destruct s as [ | y s]; simpl in *; [lia | ].
    injection H as Hy Hs. subst y. rewrite N.eqb_refl. simpl.
    apply IH; [lia | exact Hs].
Qed.

(** What [find_from] returns is an occurrence at or after the start. *)
Lemma find_from_sound (sub : str) : forall s i j,
  find_from sub s i = Some j ->
  (i <= j)%nat /\ (j - i + List.length sub <= List.length s)%nat
  /\ firstn (List.length sub) (skipn (j - i) s) = sub.
Proof.
  induction s as [ | c s IH]; intros i j; simpl.
  - destruct (starts_with sub []) eqn:E; [ | discriminate].
    intros H. injection H as <-. replace (i - i)%nat with 0%nat by lia. simpl.
    split; [lia | ]. split.
    + apply starts_with_length in E. simpl in E. lia.
    + apply starts_with_firstn in E. exact E.
  - destruct (starts_with sub (c :: s)) eqn:E.
    + intros H. injection H as <-. replace (i - i)%nat with 0%nat by lia.
      split; [lia | ]. split.
      * apply starts_with_length in E. simpl in *. lia.
      * apply starts_with_firstn in E. exact E.
    + intros H. apply IH in H as (Hij & Hlen & Hsub).
      replace (j - i)%nat with (S (j - S i)) by lia. simpl.
      split; [lia | ]. split; [lia | exact Hsub].
Qed.

(** [find_from] finds an occurrence when there is one. *)
Lemma find_from_complete (sub : str) : forall s i d,
  (d + List.length sub <= List.length s)%nat ->
  firstn (List.length sub) (skipn d s) = sub ->
  exists j, find_from sub s i = Some j.
Proof.
  induction s as [ | c s IH]; intros i d Hlen Hocc.
  - simpl in Hlen. assert (List.length sub = 0)%nat as Hz by lia.
    destruct sub; [ | discriminate]. simpl. eauto.
  - simpl. destruct (starts_with sub (c :: s)) eqn:E; [eauto | ].
    destruct d as [ | d].
    + simpl in Hocc. rewrite firstn_starts_with in E; [discriminate | | exact Hocc].
      simpl in *. lia.
    + simpl in Hocc, Hlen. apply (IH (S i) d); [lia | exact Hocc].
Qed.

(** A successful [find] returns the start of a range of the string. *)
Lemma py_find_sound (s sub : str) (start : Z) :
  0 <= start -> py_find s sub start <> -1 ->
  start <= py_find s sub start
  /\ py_find s sub start + len sub <= len s.
Proof.
  intros Hstart. unfold py_find.
  destruct (start <? 0) eqn:E; [apply Z.ltb_lt in E; lia | ].
  destruct (len s <? start) eqn:El; [congruence | ].
  apply Z.ltb_ge in El.
  destruct (find_from sub (skipn (Z.to_nat start) s) (Z.to_nat start)) as [j | ] eqn:F;
    [ | congruence].
  intros _. apply find_from_sound in F as (Hij & Hlen & _).
  rewrite length_skipn in Hlen. unfold len in *. lia.
Qed.

(** [find] succeeds when the string occurs at an index [a] at or after
    the start. *)
Lemma py_find_complete (s sub : str) (start a : Z) :
  0 <= start <= a -> a + len sub <= len s ->
  py_slice s a (a + len sub) = sub ->
  py_find s sub start <> -1.
Proof.
  intros Hstart Hlen Hocc. unfold py_find.
  pose proof (len_nonneg sub) as Hsub.
  destruct (start <? 0) eqn:E; [apply Z.ltb_lt in E; lia | ].
  destruct (len s <? start) eqn:El; [apply Z.ltb_lt in El; lia | ].
  rewrite py_slice_in_range in Hocc by lia.
  replace (Z.to_nat (a + len sub - a)) with (List.length sub) in Hocc
    by (unfold len; lia).
  destruct (find_from_complete sub (skipn (Z.to_nat start) s) (Z.to_nat start)
              (Z.to_nat a - Z.to_nat start)) as [j Hj].
  - rewrite length_skipn. unfold len in *. lia.
  - rewrite skipn_skipn.
    replace (Z.to_nat a - Z.to_nat start + Z.to_nat start)%nat with (Z.to_nat a) by lia.
    exact Hocc.
  - rewrite Hj. lia.
Qed.

(* ================================================================== *)
(** * The matcher stays inside the text *)
(* ================================================================== *)

Section MatcherFacts.

Variable U : UnicodeData.
Variable text : str.

Lemma skipn_cons_tail (i : nat) (c : char) (s : str) :
  c :: s = skipn i text -> s = skipn (S i) text /\ (S i <= List.length text)%nat.
Proof.
  intros H. split.
  - replace (S i) with (1 + i)%nat by lia. rewrite <- skipn_skipn, <- H. reflexivity.
  - assert (List.length (skipn i text) = S (List.length s)) as Hl by (rewrite <- H; reflexivity).
    rewrite length_skipn in Hl. lia.
Qed.

Lemma st_ok_intro (p : option char) (s : str) (i : nat) (g : option (nat * nat)) :
  (i <= List.length text)%nat -> s = skipn i text ->
  (forall a b, g = Some (a, b) -> (a <= b <= List.length text)%nat) ->
  st_ok text {| Re.prev := p; Re.rest := s; Re.pos := i; Re.grp := g |}.
Proof. intros Hi Hs Hg. unfold st_ok; simpl. auto. Qed.

(** A successful greedy loop hands its continuation a later cursor and
    the same group. *)
Lemma plus_loop_inv (k : Re.cclass) (cont : Re.mstate -> option Re.mresult)
  (res : Re.mresult) : forall s p i g,
  st_ok text {| Re.prev := p; Re.rest := s; Re.pos := i; Re.grp := g |} ->
  Re.plus_loop U k p s i g cont = Some res ->
  exists st', st_ok text st' /\ (i < Re.pos st')%nat /\ Re.grp st' = g
              /\ cont st' = Some res.
Proof.
  induction s as [ | c s IH]; intros p i g Hok; simpl; [discriminate | ].
  destruct (Re.in_class U k c); [ | discriminate].
  destruct Hok as (Hpos & Hrest & Hgrp). simpl in *.
  apply skipn_cons_tail in Hrest as [Hrest Hlen].
  assert (Hok' : st_ok text {| Re.prev := Some c; Re.rest := s; Re.pos := S i; Re.grp := g |})
    by (apply st_ok_intro; assumption).
  destruct (Re.plus_loop U k (Some c) s (S i) g cont) as [res' | ] eqn:E.
  - intros H. injection H as ->.
    destruct (IH (Some c) (S i) g Hok' E) as (st' & Hst & Hlt & Hg & Hc).
    exists st'. split; [exact Hst | ]. split; [lia | ]. split; assumption.
  - intros H. eexists. split; [exact Hok' | ]. simpl.
    split; [lia | ]. split; [reflexivity | exact H].
Qed.

Lemma match_ref_inv (captured : str) : forall p s i p' s' i',
  s = skipn i text -> (i <= List.length text)%nat ->
  Re.match_ref U captured p s i = Some (p', s', i') ->
  s' = skipn i' text /\ (i <= i' <= List.length text)%nat.
Proof.
  induction captured as [ | x captured IH]; intros p s i p' s' i' Hs Hi; simpl.
  - intros H. injection H as <- <- <-. split; [exact Hs | lia].
  - destruct s as [ | c s]; [discriminate | ].
    destruct (ieq_groupref U x c); [ | discriminate].
    apply skipn_cons_tail in Hs as [Hs Hl].
    intros H. apply IH in H as [H1 H2]; [ | exact Hs | exact Hl].
    split; [exact H1 | lia].
Qed.

(** The invariant of the matcher: a successful match of [r] reaches its
    continuation at a state inside the text, no earlier than where it
    started, and with group 1 closed whenever it was closed before or [r]
    closes it. *)
Lemma rmatch_inv (r : Re.regex) : forall st cont res,
  st_ok text st ->
  Re.rmatch U text r st cont = Some res ->
  exists st', st_ok text st' /\ (Re.pos st <= Re.pos st')%nat
              /\ cont st' = Some res
              /\ (Re.grp st <> None \/ has_group r = true -> Re.grp st' <> None).
Proof.
  induction r as [ | p | | k | r1 IH1 | | r1 IH1 r2 IH2 | r1 IH1 r2 IH2];
    intros st cont res Hok; simpl.
  - (* Eps *)
    intros H. exists st. split; [exact Hok | ]. split; [lia | ]. split; [exact H | ].
    intros [Hg | Hg]; [exact Hg | discriminate].
  - (* Lit *)
    destruct Hok as (Hpos & Hrest & Hgrp).
    destruct (Re.rest st) as [ | c s] eqn:Es; [discriminate | ].
    destruct (ieq_literal U p c); [ | discriminate].
    apply skipn_cons_tail in Hrest as [Hrest Hlen].
    intros H. eexists. split; [ | split; [ | split; [exact H | ]]]; simpl.
    + apply st_ok_intro; assumption.
    + lia.
    + intros [Hg | Hg]; [exact Hg | discriminate].
  - (* Boundary *)
    destruct (Re.at_boundary U st); [ | discriminate].
    intros H. exists st. split; [exact Hok | ]. split; [lia | ]. split; [exact H | ].
    intros [Hg | Hg]; [exact Hg | discriminate].
  - (* Plus *)
    intros H. apply plus_loop_inv in H as (st' & Hst & Hlt & Hg & Hc).
    + exists st'. split; [exact Hst | ]. split; [lia | ]. split; [exact Hc | ].
      rewrite Hg. intros [Hn | Hn]; [exact Hn | discriminate].
    + destruct st; exact Hok.
  - (* Group *)
    intros H. apply IH1 in H as (st1 & Hst1 & Hle & Hc & _); [ | exact Hok].
    eexists. split; [ | split; [ | split; [exact Hc | ]]]; simpl.
    + destruct Hst1 as (Hp1 & Hr1 & _). apply st_ok_intro; [exact Hp1 | exact Hr1 | ].
      intros a b E. injection E as <- <-. lia.
    + exact Hle.
    + intros _. discriminate.
  - (* Backref *)
    destruct (Re.grp st) as [[a b] | ] eqn:Eg; [ | discriminate].
    destruct (Re.match_ref U (py_slice text (Z.of_nat a) (Z.of_nat b)) (Re.prev st)
                (Re.rest st) (Re.pos st)) as [[[p s] i] | ] eqn:Em; [ | discriminate].
    destruct Hok as (Hpos & Hrest & Hgrp).
    apply match_ref_inv in Em as [Hs Hi]; [ | exact Hrest | exact Hpos].
    intros H. eexists. split; [ | split; [ | split; [exact H | ]]]; simpl.
    + apply st_ok_intro; [lia | exact Hs | ].
      intros a0 b0 E. apply Hgrp. rewrite Eg. exact E.
    + lia.
    + intros _. discriminate.
  - (* Alt *)
    destruct (Re.rmatch U text r1 st cont) as [res1 | ] eqn:E1.
    + intros H. injection H as ->.
      apply IH1 in E1 as (st' & Hst & Hle & Hc & Hg); [ | exact Hok].
      exists st'. split; [exact Hst | ]. split; [exact Hle | ]. split; [exact Hc | ].
      intros [Hn | Hn]; apply Hg; [left; exact Hn | right].
      apply andb_true_iff in Hn. apply Hn.
    + intros H. apply IH2 in H as (st' & Hst & Hle & Hc & Hg); [ | exact Hok].
      exists st'. split; [exact Hst | ]. split; [exact Hle | ]. split; [exact Hc | ].
      intros [Hn | Hn]; apply Hg; [left; exact Hn | right].
      apply andb_true_iff in Hn. apply Hn.
  - (* Cat *)
    intros H. apply IH1 in H as (st1 & Hst1 & Hle1 & Hc1 & Hg1); [ | exact Hok].
    apply IH2 in Hc1 as (st2 & Hst2 & Hle2 & Hc2 & Hg2); [ | exact Hst1].
    exists st2. split; [exact Hst2 | ]. split; [lia | ]. split; [exact Hc2 | ].
    intros [Hn | Hn]; apply Hg2.
    + left. apply Hg1. left. exact Hn.
    + apply orb_true_iff in Hn as [Hn | Hn];
        [left; apply Hg1; right; exact Hn | right; exact Hn].
Qed.

(** What [accept] returns after a successful match from index [i]. *)
Lemma rmatch_accept_ok (r : Re.regex) (p : option char) (s : str) (i : nat)
  (res : Re.mresult) :
  s = skipn i text -> (i <= List.length text)%nat ->
  Re.rmatch U text r {| Re.prev := p; Re.rest := s; Re.pos := i; Re.grp := None |}
    Re.accept = Some res ->
  match_ok text (Re.mk_match text i res)
  /\ (has_group r = true -> Re.m_group1 (Re.mk_match text i res) <> None).
Proof.
  intros Hs Hi E.
  apply rmatch_inv in E as (st' & Hst & Hle & Hc & Hg).
  - unfold Re.accept in Hc. injection Hc as <-. simpl in *.
    destruct Hst as (Hp & _ & Hgrp). split.
    + unfold match_ok, Re.mk_match, len; simpl.
      split; [reflexivity | ]. split; [lia | ]. split; [lia | ].
      intros a b. destruct (Re.grp st') as [[a0 b0] | ]; [ | discriminate].
      intros E. injection E as <- <-. specialize (Hgrp _ _ eq_refl). lia.
    + intros Hr.
      assert (Hsome : Re.grp st' <> None) by (apply Hg; right; exact Hr).
      destruct (Re.grp st') as [[a0 b0] | ]; [discriminate | congruence].
  - apply st_ok_intro; [exact Hi | exact Hs | discriminate].
Qed.

(** Every match the scan yields is a match object of [text], with group 1
    set when the pattern closes it on every path. *)
Lemma scan_ok (r : Re.regex) : forall s p i skip m,
  s = skipn i text -> (i <= List.length text)%nat ->
  In m (Re.scan U text r p s i skip) ->
  match_ok text m /\ (has_group r = true -> Re.m_group1 m <> None).
Proof.
  induction s as [ | c s IH]; intros p i skip m Hs Hi.
  - destruct skip as [ | skip]; simpl; [ | tauto].
    destruct (Re.rmatch U text r _ Re.accept) as [res | ] eqn:E; simpl; [ | tauto].
    intros [<- | []]. apply (rmatch_accept_ok r p [] i res); assumption.
  - destruct (skipn_cons_tail _ _ _ Hs) as [Hs' Hl].
    destruct skip as [ | skip]; simpl; [ | apply IH; assumption].
    destruct (Re.rmatch U text r _ Re.accept) as [res | ] eqn:E; simpl;
      [ | apply IH; assumption].
    intros [<- | Hin]; [ | revert Hin; apply IH; assumption].
    apply (rmatch_accept_ok r p (c :: s) i res); assumption.
Qed.

Lemma firstn_plus {A : Type} (a b : nat) : forall l : list A,
  firstn (a + b) l = firstn a l ++ firstn b (skipn a l).
Proof.
  induction a as [ | a IH]; intros l; simpl.
  - reflexivity.
  - destruct l as [ | x l]; simpl.
    + rewrite firstn_nil. reflexivity.
    + rewrite IH. reflexivity.
Qed.

(** The characters a successful greedy loop took: at least one, all of
    the class. *)
Lemma plus_loop_chars (k : Re.cclass) (cont : Re.mstate -> option Re.mresult)
  (res : Re.mresult) : forall s p i g,
  Re.plus_loop U k p s i g cont = Some res ->
  exists n p',
    (0 < n <= List.length s)%nat
    /\ Forall (fun c => Re.in_class U k c = true) (firstn n s)
    /\ cont {| Re.prev := p'; Re.rest := skipn n s; Re.pos := i + n; Re.grp := g |}
       = Some res.
Proof.
  induction s as [ | c s IH]; intros p i g; simpl; [discriminate | ].
  destruct (Re.in_class U k c) eqn:Ec; [ | discriminate].
  destruct (Re.plus_loop U k (Some c) s (S i) g cont) as [res' | ] eqn:E.
  - intros H. injection H as ->.
    destruct (IH (Some c) (S i) g E) as (n & p' & Hn & Hall & Hc).
    exists (S n), p'. split; [lia | ]. split.
    + simpl. constructor; assumption.
    + simpl. replace (i + S n)%nat with (S i + n)%nat by lia. exact Hc.
  - intros H. exists 1%nat, (Some c). split; [lia | ]. split.
    + simpl. constructor; [exact Ec | constructor].
    + simpl. replace (i + 1)%nat with (S i) by lia. exact H.
Qed.

(** The characters a successful back-reference took: as many as the
    group, each equal to the captured one up to case. *)
Lemma match_ref_chars (captured : str) : forall p s i p' s' i',
  Re.match_ref U captured p s i = Some (p', s', i') ->
  i' = (i + List.length captured)%nat
  /\ s' = skipn (List.length captured) s
  /\ (List.length captured <= List.length s)%nat
  /\ Forall2 (fun x c => ieq_groupref U x c = true) captured
       (firstn (List.length captured) s).
Proof.
  induction captured as [ | x captured IH]; intros p s i p' s' i'; simpl.
  - intros H. injection H as <- <- <-.
    split; [lia | ]. split; [reflexivity | ]. split; [lia | constructor].
  - destruct s as [ | c s]; [discriminate | ].
    destruct (ieq_groupref U x c) eqn:Ec; [ | discriminate].
    intros H. apply IH in H as (Hi & Hs & Hl & Hall).
    split; [lia | ]. split; [exact Hs | ]. split; [simpl; lia | ].
    simpl. constructor; assumption.
Qed.

(** Every match of a scan is what the matcher accepted at some index. *)
Lemma scan_matches (r : Re.regex) : forall s p i skip m,
  s = skipn i text -> (i <= List.length text)%nat ->
  In m (Re.scan U text r p s i skip) ->
  exists j q res,
    (j <= List.length text)%nat
    /\ m = Re.mk_match text j res
    /\ Re.rmatch U text r
         {| Re.prev := q; Re.rest := skipn j text; Re.pos := j; Re.grp := None |}
         Re.accept = Some res.
Proof.
  induction s as [ | c s IH]; intros p i skip m Hs Hi.
  - destruct skip as [ | skip]; simpl; [ | tauto].
    destruct (Re.rmatch U text r _ Re.accept) as [res | ] eqn:E; simpl; [ | tauto].
    intros [<- | []]. exists i, p, res. rewrite <- Hs. auto.
  - destruct (skipn_cons_tail _ _ _ Hs) as [Hs' Hl].
    destruct skip as [ | skip]; simpl; [ | apply IH; assumption].
    destruct (Re.rmatch U text r _ Re.accept) as [res | ] eqn:E; simpl;
      [ | apply IH; assumption].
    intros [<- | Hin]; [ | revert Hin; apply IH; assumption].
    exists i, p, res. rewrite <- Hs. auto.
Qed.

(** A pattern that consumes a character never matches the empty
    string. *)
Lemma rmatch_consumes (r : Re.regex) : forall st cont res,
  Re.rmatch U text r st cont = Some res ->
  exists st', cont st' = Some res
              /\ (Re.pos st <= Re.pos st')%nat
              /\ (consumes r = true -> (Re.pos st < Re.pos st')%nat).
Proof.
  induction r as [ | p | | k | r1 IH1 | | r1 IH1 r2 IH2 | r1 IH1 r2 IH2];
    intros st cont res; simpl.
  - intros H. exists st. split; [exact H | ]. split; [lia | discriminate].
  - destruct (Re.rest st) as [ | c s]; [discriminate | ].
    destruct (ieq_literal U p c); [ | discriminate].
    intros H. eexists. split; [exact H | ]. simpl. split; lia.
  - destruct (Re.at_boundary U st); [ | discriminate].
    intros H. exists st. split; [exact H | ]. split; [lia | discriminate].
  - intros H. apply plus_loop_chars in H as (n & p' & Hn & _ & Hc).
    eexists. split; [exact Hc | ]. simpl. split; lia.
  - intros H. apply IH1 in H as (st1 & Hc & Hle & Hlt).
    eexists. split; [exact Hc | ]. simpl. split; [exact Hle | exact Hlt].
  - destruct (Re.grp st) as [[a b] | ]; [ | discriminate].
    destruct (Re.match_ref U _ (Re.prev st) (Re.rest st) (Re.pos st))
      as [[[p s] i] | ] eqn:Em; [ | discriminate].
    apply match_ref_chars in Em as (Hi & _).
    intros H. eexists. split; [exact H | ]. simpl. split; [lia | discriminate].
  - destruct (Re.rmatch U text r1 st cont) as [res1 | ] eqn:E1.
    + intros H. injection H as ->.
      apply IH1 in E1 as (st' & Hc & Hle & Hlt).
      exists st'. split; [exact Hc | ]. split; [exact Hle | ].
      intros Hn. apply andb_true_iff in Hn. apply Hlt. apply Hn.
    + intros H. apply IH2 in H as (st' & Hc & Hle & Hlt).
      exists st'. split; [exact Hc | ]. split; [exact Hle | ].
      intros Hn. apply andb_true_iff in Hn. apply Hlt. apply Hn.
  - intros H. apply IH1 in H as (st1 & Hc1 & Hle1 & Hlt1).
    apply IH2 in Hc1 as (st2 & Hc2 & Hle2 & Hlt2).
    exists st2. split; [exact Hc2 | ]. split; [lia | ].
    intros Hn. apply orb_true_iff in Hn as [Hn | Hn];
      [specialize (Hlt1 Hn) | specialize (Hlt2 Hn)]; lia.
Qed.

Lemma scan_nonempty (r : Re.regex) (m : Re.match_obj) :
  consumes r = true ->
  In m (Re.scan U text r None text 0 0) ->
  Re.m_start m < Re.m_end m.
Proof.
  intros Hc Hin.
  apply scan_matches in Hin as (j & q & res & Hj & -> & Hm); [ | reflexivity | lia].
  apply rmatch_consumes in Hm as (st' & Hacc & _ & Hlt).
  unfold Re.accept in Hacc. injection Hacc as <-. simpl in *.
  specialize (Hlt Hc). lia.
Qed.

End MatcherFacts.

(* ================================================================== *)
(** * The detectors as lists of matches *)
(* ================================================================== *)

(** Splits [bind c k = Ok r] into the two successful steps. *)
Lemma bind_ok {A B : Type} (c : result A) (k : A -> result B) (r : B) :
  bind c k = Ok r -> exists a, c = Ok a /\ k a = Ok r.
Proof. destruct c as [a | e]; simpl; [eauto | discriminate]. Qed.

Ltac bind_inv H x Hx :=
  apply bind_ok in H; destruct H as (x & Hx & H).

Lemma fold_left_append {A B : Type} (f : A -> B) (l : list A) : forall acc,
  fold_left (fun acc m => acc ++ [f m]) l acc = acc ++ map f l.
Proof.
  induction l as [ | x l IH]; intros acc; simpl.
  - rewrite app_nil_r. reflexivity.
  - rewrite IH, <- app_assoc. reflexivity.
Qed.

Lemma for_each_ext {A S : Type} (l : list A) (f g : S -> A -> result S) :
  (forall s x, f s x = g s x) -> forall s, for_each l f s = for_each l g s.
Proof.
  intros Hfg. induction l as [ | x l IH]; intros s; simpl.
  - reflexivity.
  - rewrite Hfg. destruct (g s x); simpl; [apply IH | reflexivity].
Qed.

Lemma finditer_compiled (U : UnicodeData) (pattern : string) (text : str) :
  Re.re_compile pattern <> None ->
  Re.finditer U pattern text = Ok (matches_of U pattern text).
Proof.
  unfold Re.finditer, matches_of, compiled.
  destruct (Re.re_compile pattern); [reflexivity | congruence].
Qed.

(** Every pattern of the source compiles. *)
Lemma passive_patterns_compile :
  forall p, In p passive_voice_patterns -> Re.re_compile p <> None.
Proof.
  assert (H : forallb (fun p => match Re.re_compile p with Some _ => true | None => false end)
                passive_voice_patterns = true) by (vm_compute; reflexivity).
  rewrite forallb_forall in H. intros p Hp. specialize (H p Hp).
  destruct (Re.re_compile p); [discriminate | discriminate].
Qed.

Lemma wordy_patterns_compile :
  forall p, In p (map fst wordy_phrases) -> Re.re_compile p <> None.
Proof.
  assert (H : forallb (fun p => match Re.re_compile p with Some _ => true | None => false end)
                (map fst wordy_phrases) = true) by (vm_compute; reflexivity).
  rewrite forallb_forall in H. intros p Hp. specialize (H p Hp).
  destruct (Re.re_compile p); [discriminate | discriminate].
Qed.

Lemma repeated_pattern_compiles : Re.re_compile repeated_word_pattern <> None.
Proof. vm_compute. discriminate. Qed.

Lemma repeated_pattern_has_group : has_group (compiled repeated_word_pattern) = true.
Proof. vm_compute. reflexivity. Qed.

Lemma matches_of_ok (U : UnicodeData) (pattern : string) (text : str) (m : Re.match_obj) :
  In m (matches_of U pattern text) ->
  match_ok text m /\ (has_group (compiled pattern) = true -> Re.m_group1 m <> None).
Proof.
  unfold matches_of. apply scan_ok; [reflexivity | lia].
Qed.

Section DetectorFacts.

Variable env : Env.

(** A loop over patterns that appends one suggestion per match. *)
Lemma pattern_loop {P : Type} (pat : P -> string)
  (mk : P -> Re.match_obj -> StyleSuggestion.t) (text : str) (ps : list P) :
  (forall p, In p ps -> Re.re_compile (pat p) <> None) ->
  forall acc,
  for_each ps
    (fun suggestions p =>
       matches <- Re.finditer (unicode env) (pat p) text ;;
       Ok (fold_left (fun acc m => acc ++ [mk p m]) matches suggestions))
    acc
  = Ok (acc ++ flat_map (fun p => map (mk p) (matches_of (unicode env) (pat p) text)) ps).
Proof.
  induction ps as [ | p ps IH]; intros Hc acc; simpl.
  - rewrite app_nil_r. reflexivity.
  - rewrite finditer_compiled by (apply Hc; left; reflexivity). simpl.
    rewrite fold_left_append, IH by (intros q Hq; apply Hc; right; exact Hq).
    rewrite app_assoc. reflexivity.
Qed.

(** The passive-voice detector never raises: its findings are the
    matches of the first pattern followed by those of the second. *)
Lemma check_passive_voice_eq (text : str) :
  _check_passive_voice env text
  = Ok (flat_map (fun p => map passive_suggestion (matches_of (unicode env) p text))
          passive_voice_patterns).
Proof.
  unfold _check_passive_voice.
  rewrite <- (app_nil_l (flat_map _ _)).
  rewrite <- (pattern_loop (fun p => p) (fun _ => passive_suggestion) text
                passive_voice_patterns passive_patterns_compile).
  reflexivity.
Qed.

(** The wordy-phrase detector never raises: its findings are the matches
    of each phrase, in the order of the dict. *)
Lemma check_wordy_phrases_eq (text : str) :
  _check_wordy_phrases env text
  = Ok (flat_map (fun p => map (wordy_suggestion (snd p))
                               (matches_of (unicode env) (fst p) text))
          wordy_phrases).
Proof.
  unfold _check_wordy_phrases.
  rewrite <- (app_nil_l (flat_map _ _)).
  rewrite <- (pattern_loop fst (fun p => wordy_suggestion (snd p)) text wordy_phrases).
  - apply for_each_ext. intros acc [pattern replacement]. reflexivity.
  - intros p Hp. apply wordy_patterns_compile. apply in_map. exact Hp.
Qed.

Lemma repetition_loop (ms : list Re.match_obj) :
  (forall m, In m ms -> Re.m_group1 m <> None) ->
  forall acc,
  for_each ms
    (fun suggestions m =>
       match Re.group1 m with
       | None => Raise AttributeError
       | Some g =>
           if negb (str_in (lower (unicode env) g) intentional_repetitions)
           then Ok (suggestions ++ [repetition_suggestion m g])
           else Ok suggestions
       end)
    acc
  = Ok (acc ++ flat_map (repetition_of (unicode env)) ms).
Proof.
  induction ms as [ | m ms IH]; intros Hg acc; cbn [for_each flat_map].
  - rewrite app_nil_r. reflexivity.
  - assert (Hm : Re.m_group1 m <> None) by (apply Hg; left; reflexivity).
    assert (Hstep :
      match Re.group1 m with
      | None => Raise AttributeError
      | Some g =>
          if negb (str_in (lower (unicode env) g) intentional_repetitions)
          then Ok (acc ++ [repetition_suggestion m g])
          else Ok acc
      end = Ok (acc ++ repetition_of (unicode env) m)).
    { unfold repetition_of. destruct (Re.group1 m) as [g | ] eqn:Eg.
      - destruct (str_in (lower (unicode env) g) intentional_repetitions);
          cbn [negb]; [rewrite app_nil_r | ]; reflexivity.
      - unfold Re.group1 in Eg. destruct (Re.m_group1 m) as [[a b] | ]; congruence. }
    rewrite Hstep. cbn [bind].
    rewrite IH by (intros m' Hm'; apply Hg; right; exact Hm').
    rewrite <- app_assoc. reflexivity.
Qed.

(** The repeated-word detector never raises ([match.group(1)] is never
    None): it keeps, of every match of its pattern, what [repetition_of]
    keeps. *)
Lemma check_repeated_words_eq (text : str) :
  _check_repeated_words env text
  = Ok (flat_map (repetition_of (unicode env))
          (matches_of (unicode env) repeated_word_pattern text)).
Proof.
  unfold _check_repeated_words.
  rewrite finditer_compiled by exact repeated_pattern_compiles. cbn [bind].
  rewrite <- (app_nil_l (flat_map _ _)).
  apply (repetition_loop (matches_of (unicode env) repeated_word_pattern text)).
  intros m Hm. apply matches_of_ok in Hm as [_ Hg].
  apply Hg. exact repeated_pattern_has_group.
Qed.

(** The findings of a regex detector are read off match objects of the
    text. *)
Lemma passive_suggestion_of_match (text : str) (s : StyleSuggestion.t) :
  In s (flat_map (fun p => map passive_suggestion (matches_of (unicode env) p text))
          passive_voice_patterns) ->
  exists m, match_ok text m /\ s = passive_suggestion m.
Proof.
  intros H. apply in_flat_map in H as (p & _ & H).
  apply in_map_iff in H as (m & <- & Hm).
  exists m. split; [apply (matches_of_ok _ _ _ _ Hm) | reflexivity].
Qed.

Lemma wordy_suggestion_of_match (text : str) (s : StyleSuggestion.t) :
  In s (flat_map (fun p => map (wordy_suggestion (snd p))
                               (matches_of (unicode env) (fst p) text))
          wordy_phrases) ->
  exists m repl, match_ok text m /\ s = wordy_suggestion repl m.
Proof.
  intros H. apply in_flat_map in H as (p & _ & H).
  apply in_map_iff in H as (m & <- & Hm).
  exists m, (snd p). split; [apply (matches_of_ok _ _ _ _ Hm) | reflexivity].
Qed.

Lemma repetition_suggestion_of_match (text : str) (s : StyleSuggestion.t) :
  In s (flat_map (repetition_of (unicode env))
          (matches_of (unicode env) repeated_word_pattern text)) ->
  exists m g, match_ok text m /\ Re.group1 m = Some g
              /\ str_in (lower (unicode env) g) intentional_repetitions = false
              /\ s = repetition_suggestion m g.
Proof.
  intros H. apply in_flat_map in H as (m & Hm & H).
  unfold repetition_of in H.
  destruct (Re.group1 m) as [g | ] eqn:Eg; [ | contradiction].
  destruct (str_in (lower (unicode env) g) intentional_repetitions) eqn:Ein;
    [contradiction | ].
  destruct H as [<- | []].
  exists m, g. split; [apply (matches_of_ok _ _ _ _ Hm) | auto].
Qed.

(** The span and the text of a finding built from a match. *)
Lemma match_span_ok (text : str) (m : Re.match_obj) :
  match_ok text m ->
  span_ok text (Re.start m) (Re.end_ m - Re.start m)
  /\ Re.group m = py_slice text (Re.start m) (Re.start m + (Re.end_ m - Re.start m)).
Proof.
  intros (Hs & Hse & He & _). unfold span_ok, Re.start, Re.end_, Re.group.
  rewrite Hs. replace (Re.m_start m + (Re.m_end m - Re.m_start m)) with (Re.m_end m) by lia.
  split; [lia | reflexivity].
Qed.

(** The long-sentence loop: while the tokenizer's sentences are slices of
    the text in order, the running offset never passes the start of the
    next sentence, every search succeeds, and every span is a range of
    the text. *)
Lemma sentence_loop_spans (text : str) : forall sentences from acc cursor,
  ordered_slices text from sentences ->
  0 <= cursor <= from ->
  (forall s, In s acc -> span_ok text (StyleSuggestion.offset s) (StyleSuggestion.length s)) ->
  forall s, In s (fst (fold_left (sentence_step env text) sentences (acc, cursor))) ->
  span_ok text (StyleSuggestion.offset s) (StyleSuggestion.length s).
Proof.
  induction sentences as [ | sentence rest IH]; intros from acc cursor Hsl Hcur Hacc.
  - simpl. exact Hacc.
  - inversion Hsl as [ | from' a sentence' rest' Hfrom Hend Hslice Hrest]; subst.
    pose proof (len_nonneg sentence) as Hlen.
    cbn [fold_left]. unfold sentence_step at 2.
    apply (IH (a + len sentence)); [exact Hrest | lia | ].
    intros s Hs. destruct (30 <? len (py_split env sentence)); [ | apply Hacc; exact Hs].
    apply in_app_or in Hs as [Hs | [<- | []]]; [apply Hacc; exact Hs | ].
    unfold length_suggestion, span_ok; simpl.
    assert (Hfound : py_find text sentence cursor <> -1)
      by (apply (py_find_complete text sentence cursor a); [lia | exact Hend | exact Hslice]).
    pose proof (py_find_sound text sentence cursor (proj1 Hcur) Hfound) as [Hlo Hhi].
    lia.
Qed.

End DetectorFacts.

(** What a successful [analyze] did. *)
Lemma analyze_ok (env : Env) (text : str) (res : AnalysisResult.t) :
  analyze env text = Ok res ->
  exists grammar style readability sentences,
    _check_grammar env text = Ok grammar
    /\ _analyze_style env text = Ok style
    /\ _calculate_readability env text = Ok readability
    /\ sent_tokenize env text = Ok sentences
    /\ res = {| AnalysisResult.original_text := text;
                AnalysisResult.grammar_issues := grammar;
                AnalysisResult.style_suggestions := style;
                AnalysisResult.readability := readability;
                AnalysisResult.word_count := len (py_split env text);
                AnalysisResult.sentence_count := len sentences;
                AnalysisResult.character_count := len text;
                AnalysisResult.score := _calculate_score grammar style readability |}.
Proof.
  unfold analyze. intros H.
  bind_inv H grammar Hg. bind_inv H style Hs. bind_inv H readability Hr.
  bind_inv H sentences Ht. injection H as <-.
  exists grammar, style, readability, sentences. auto.
Qed.

(** What a successful [_analyze_style] did. *)
Lemma analyze_style_ok (env : Env) (text : str) (style : list StyleSuggestion.t) :
  _analyze_style env text = Ok style ->
  exists passive wordy long repeated,
    _check_passive_voice env text = Ok passive
    /\ _check_wordy_phrases env text = Ok wordy
    /\ _check_sentence_length env text = Ok long
    /\ _check_repeated_words env text = Ok repeated
    /\ style = passive ++ wordy ++ long ++ repeated.
Proof.
  unfold _analyze_style. intros H.
  bind_inv H passive Hp. bind_inv H wordy Hw. bind_inv H long Hl.
  bind_inv H repeated Hr. injection H as <-.
  exists passive, wordy, long, repeated. simpl. rewrite <- !app_assoc. auto.
Qed.

(** The tree [re_compile] builds for the repeated-word pattern. *)
Lemma repeated_pattern_tree :
  compiled repeated_word_pattern
  = Re.Cat Re.Boundary
      (Re.Cat (Re.Group (Re.Cat (Re.Plus Re.cc_word) Re.Eps))
         (Re.Cat (Re.Plus Re.cc_space)
            (Re.Cat Re.Backref (Re.Cat Re.Boundary Re.Eps)))).
Proof. vm_compute. reflexivity. Qed.

(** Every match of the repeated-word pattern is a word, spaces, and the
    word again up to case. *)
Lemma repeated_match_shape (U : UnicodeData) (text : str) (m : Re.match_obj) :
  In m (matches_of U repeated_word_pattern text) -> doubled_word U m.
Proof.
  unfold matches_of. rewrite repeated_pattern_tree. intros Hin.
  apply scan_matches in Hin as (j & q & res & Hj & -> & Hm); [ | reflexivity | lia].
  cbn [Re.rmatch] in Hm.
  destruct (Re.at_boundary U _); [ | discriminate].
  cbn [Re.prev Re.rest Re.pos Re.grp] in Hm.
  apply plus_loop_chars in Hm as (n1 & p1 & Hn1 & Hword & Hm).
  cbn [Re.prev Re.rest Re.pos Re.grp] in Hm.
  apply plus_loop_chars in Hm as (n2 & p2 & Hn2 & Hspace & Hm).
  cbn [Re.prev Re.rest Re.pos Re.grp] in Hm.
  rewrite length_skipn in Hn1. rewrite !length_skipn in Hn2.
  rewrite py_slice_nat in Hm by lia.
  replace (j + n1 - j)%nat with n1 in Hm by lia.
  set (T := skipn j text) in *.
  set (w := firstn n1 T) in *.
  assert (Hw : List.length w = n1).
  { unfold w. rewrite length_firstn. unfold T. rewrite length_skipn. lia. }
  destruct (Re.match_ref U w p2 (skipn n2 (skipn n1 T)) (j + n1 + n2))
    as [[[p3 s3] i3] | ] eqn:Em; [ | discriminate].
  apply match_ref_chars in Em as (Hi3 & _ & Hl3 & Hsame).
  rewrite Hw in *. rewrite !length_skipn in Hl3. unfold T in Hl3.
  rewrite length_skipn in Hl3.
  destruct (Re.at_boundary U _); [ | discriminate].
  unfold Re.accept in Hm. injection Hm as <-.
  exists w, (firstn n2 (skipn n1 T)), (firstn n1 (skipn n2 (skipn n1 T))).
  split; [ | split; [ | split; [ | split; [ | split; [ | split]]]]].
  - unfold Re.group, Re.mk_match; simpl.
    rewrite py_slice_nat by lia. fold T.
    replace (i3 - j)%nat with (n1 + (n2 + n1))%nat by lia.
    rewrite firstn_plus. fold w. rewrite firstn_plus. reflexivity.
  - unfold Re.group1, Re.mk_match; simpl.
    rewrite py_slice_nat by lia. fold T.
    replace (j + n1 - j)%nat with n1 by lia. reflexivity.
  - intros Hnil. rewrite Hnil in Hw. simpl in Hw. lia.
  - exact Hword.
  - intros Hnil.
    assert (Hlen : List.length (firstn n2 (skipn n1 T)) = n2).
    { rewrite length_firstn, length_skipn. unfold T. rewrite length_skipn. lia. }
    rewrite Hnil in Hlen. simpl in Hlen. lia.
  - exact Hspace.
  - exact Hsame.
Qed.

(** No pattern of the source matches the empty string. *)
Lemma source_patterns_consume :
  forallb (fun p => consumes (compiled p))
    (passive_voice_patterns ++ map fst wordy_phrases ++ [repeated_word_pattern]) = true.
Proof. vm_compute. reflexivity. Qed.

Lemma sentence_loop_categories (env : Env) (text : str) : forall sentences acc cursor,
  (forall s, In s acc -> StyleSuggestion.category s = lit "sentence_length") ->
  forall s, In s (fst (fold_left (sentence_step env text) sentences (acc, cursor))) ->
  StyleSuggestion.category s = lit "sentence_length".
Proof.
  induction sentences as [ | sentence rest IH]; intros acc cursor Hacc.
  - simpl. exact Hacc.
  - cbn [fold_left]. unfold sentence_step at 2. apply IH.
    intros s Hs. destruct (30 <? len (py_split env sentence)); [ | apply Hacc; exact Hs].
    apply in_app_or in Hs as [Hs | [<- | []]]; [apply Hacc; exact Hs | reflexivity].
Qed.

(** Each detector labels its findings with its own category. *)
Lemma detector_categories (env : Env) (text : str) (l : list StyleSuggestion.t)
  (s : StyleSuggestion.t) :
  In s l ->
  (_check_passive_voice env text = Ok l -> StyleSuggestion.category s = lit "passive_voice")
  /\ (_check_wordy_phrases env text = Ok l -> StyleSuggestion.category s = lit "wordiness")
  /\ (_check_sentence_length env text = Ok l ->
      StyleSuggestion.category s = lit "sentence_length")
  /\ (_check_repeated_words env text = Ok l -> StyleSuggestion.category s = lit "repetition").
Proof.
  intros Hin. split; [ | split; [ | split]]; intros H.
  - rewrite check_passive_voice_eq in H. injection H as <-.
    apply passive_suggestion_of_match in Hin as (m & _ & ->). reflexivity.
  - rewrite check_wordy_phrases_eq in H. injection H as <-.
    apply wordy_suggestion_of_match in Hin as (m & repl & _ & ->). reflexivity.
  - unfold _check_sentence_length in H. bind_inv H sentences Hs. injection H as <-.
    apply (sentence_loop_categories env text sentences [] 0); [intros s' [] | exact Hin].
  - rewrite check_repeated_words_eq in H. injection H as <-.
    apply repetition_suggestion_of_match in Hin as (m & g & _ & _ & _ & ->). reflexivity.
Qed.

(** The matches of a pattern of the source are never empty, so the scan
    of [finditer] always resumes at the end of the match it found. *)
Lemma source_matches_nonempty (U : UnicodeData) (p : string) (text : str)
  (m : Re.match_obj) :
  In p (passive_voice_patterns ++ map fst wordy_phrases ++ [repeated_word_pattern]) ->
  In m (matches_of U p text) ->
  Re.start m < Re.end_ m.
Proof.
  intros Hp Hm. pose proof source_patterns_consume as H.
  rewrite forallb_forall in H. specialize (H p Hp).
  apply (scan_nonempty U text (compiled p) m H Hm).
Qed.

(* ================================================================== *)
(** * Properties of the analysis *)
(* ================================================================== *)

(** C2. The score of every [AnalysisResult] that [analyze] returns lies
    within [0, 100], whatever the text and whatever the grammar tool, the
    tokenizer and textstat answer; so does every value of the scorer. *)
Theorem score_within_bounds :
  (forall gs ss r,
     (0.0 <=? _calculate_score gs ss r)%float = true
     /\ (_calculate_score gs ss r <=? 100.0)%float = true)
  /\ (forall env text res,
        analyze env text = Ok res ->
        (0.0 <=? AnalysisResult.score res)%float = true
        /\ (AnalysisResult.score res <=? 100.0)%float = true).
Proof.
  split.
  - apply calculate_score_bounds.
  - intros env text res H.
    apply analyze_ok in H as (gs & ss & r & sents & _ & _ & _ & _ & ->).
    simpl. apply calculate_score_bounds.
Qed.

Lemma score_within_bounds_witness :
  exists res,
    analyze (example_env ascii_only [example_match]) text_unordered = Ok res
    /\ (0.0 <=? AnalysisResult.score res)%float = true
    /\ (AnalysisResult.score res <=? 100.0)%float = true.
Proof.
  destruct (analyze (example_env ascii_only [example_match]) text_unordered)
    as [res | e] eqn:E; [ | vm_compute in E; discriminate].
  exists res. split; [reflexivity | ].
  exact (proj2 score_within_bounds _ _ res E).
Defined.

(** C3 fails on the code.  Neither passive-voice pattern matches in the
    sentence of the test suite: the only be-verb is [was], and [thrown]
    ends in neither [ed] nor [en].  The detector returns no finding, and
    no style finding of [analyze] has the category passive_voice
    (whatever the Unicode tables say outside ASCII, and whatever the
    collaborators answer). *)
Theorem passive_voice_misses_thrown :
  forall base tool tokenizer ts,
    _check_passive_voice (env_with (with_ascii base) tool tokenizer ts) text_ball = Ok []
    /\ match analyze (env_with (with_ascii base) tool tokenizer ts) text_ball with
       | Ok res =>
           forall s, In s (AnalysisResult.style_suggestions res) ->
                     StyleSuggestion.category s <> lit "passive_voice"
       | Raise _ => True
       end.
Proof.
  intros base tool tokenizer ts.
  assert (Hnone : _check_passive_voice (env_with (with_ascii base) tool tokenizer ts)
                    text_ball = Ok []).
  { rewrite check_passive_voice_eq. vm_compute. reflexivity. }
  split; [exact Hnone | ].
  destruct (analyze (env_with (with_ascii base) tool tokenizer ts) text_ball)
    as [res | e] eqn:E; [ | exact I].
  apply analyze_ok in E as (gs & ss & r & sents & _ & Hs & _ & _ & ->).
  apply analyze_style_ok in Hs as (p & w & l & rp & Hp & Hw & Hl & Hr & ->).
  rewrite Hnone in Hp. injection Hp as <-.
  cbn [AnalysisResult.style_suggestions app]. intros s Hin Hcat.
  apply in_app_or in Hin as [Hin | Hin].
  - rewrite (proj1 (proj2 (detector_categories _ _ w s Hin)) Hw) in Hcat. discriminate.
  - apply in_app_or in Hin as [Hin | Hin].
    + rewrite (proj1 (proj2 (proj2 (detector_categories _ _ l s Hin))) Hl) in Hcat.
      discriminate.
    + rewrite (proj2 (proj2 (proj2 (detector_categories _ _ rp s Hin))) Hr) in Hcat.
      discriminate.
Qed.

Lemma py_slice_prefix {A : Type} (l : list A) (n : Z) :
  0 <= n -> py_slice l 0 n = firstn (Z.to_nat n) l.
Proof.
  intros Hn. unfold py_slice, adjust_index.
  pose proof (len_nonneg l) as Hl.
  destruct (0 <? 0) eqn:E0; [discriminate | ].
  destruct (n <? 0) eqn:En; [apply Z.ltb_lt in En; lia | ].
  rewrite (Z.min_l 0 (len l)) by lia. change (Z.to_nat 0) with 0%nat. cbn [skipn].
  rewrite Z.sub_0_r.
  destruct (Z.le_ge_cases n (len l)) as [H | H].
  - rewrite Z.min_l by lia. reflexivity.
  - rewrite Z.min_r by lia. unfold len. rewrite Nat2Z.id.
    rewrite firstn_all. symmetry. apply firstn_all2. unfold len in H. lia.
Qed.

Lemma issue_context_clipped (text : str) (m : LanguageTool.Match) :
  0 <= LanguageTool.offset m -> 0 <= LanguageTool.errorLength m ->
  GrammarIssue.context (issue_of_match text m)
  = clipped_substring text (LanguageTool.offset m - 20)
      (LanguageTool.offset m + LanguageTool.errorLength m + 20).
Proof.
  intros Ho Hl. unfold issue_of_match, clipped_substring, py_slice, adjust_index.
  cbn [GrammarIssue.context].
  pose proof (len_nonneg text) as Ht.
  set (lo := Z.max 0 (LanguageTool.offset m - 20)).
  set (hi := Z.min (len text) (LanguageTool.offset m + LanguageTool.errorLength m + 20)).
  assert (Hlo : 0 <= lo) by (unfold lo; lia).
  assert (Hhi : 0 <= hi <= len text) by (unfold hi; lia).
  destruct (lo <? 0) eqn:E1; [apply Z.ltb_lt in E1; lia | ].
  destruct (hi <? 0) eqn:E2; [apply Z.ltb_lt in E2; lia | ].
  rewrite (Z.min_l hi) by lia.
  destruct (Z.le_ge_cases lo (len text)) as [H | H].
  - rewrite Z.min_l by lia. reflexivity.
  - rewrite Z.min_r by lia.
    rewrite !skipn_all2 by (unfold len in *; lia).
    rewrite !firstn_nil. reflexivity.
Qed.

Lemma check_grammar_eq (env : Env) (text : str) (ms : list LanguageTool.Match) :
  tool_check env text = Ok ms ->
  _check_grammar env text = Ok (map (issue_of_match text) ms).
Proof.
  intros H. unfold _check_grammar. rewrite H. simpl.
  rewrite fold_left_append. reflexivity.
Qed.

(** C5. The grammar findings [analyze] returns are built one per raw
    match, in order, and the finding built from a match has: severity
    error when the category is GRAMMAR or TYPOS and warning otherwise;
    the first three replacements as suggestions (all of them when there
    are fewer); and, the flagged span being non-negative as the
    capability's contract has it, the context equal to the text from
    index [offset - 20] up to index [offset + length + 20], clipped to
    the bounds of the text. *)
Theorem grammar_finding_fields (env : Env) (text : str)
  (ms : list LanguageTool.Match) (res : AnalysisResult.t) :
  tool_check env text = Ok ms ->
  analyze env text = Ok res ->
  AnalysisResult.grammar_issues res = map (issue_of_match text) ms
  /\ forall m, In m ms ->
       (GrammarIssue.severity (issue_of_match text m)
        = if str_eqb (LanguageTool.category m) (lit "GRAMMAR")
             || str_eqb (LanguageTool.category m) (lit "TYPOS")
          then lit "error" else lit "warning")
       /\ GrammarIssue.suggestions (issue_of_match text m)
          = firstn 3 (LanguageTool.replacements m)
       /\ (0 <= LanguageTool.offset m -> 0 <= LanguageTool.errorLength m ->
           GrammarIssue.context (issue_of_match text m)
           = clipped_substring text (LanguageTool.offset m - 20)
               (LanguageTool.offset m + LanguageTool.errorLength m + 20)).
Proof.
  intros Hms H. apply analyze_ok in H as (gs & ss & r & sents & Hg & _ & _ & _ & ->).
  rewrite (check_grammar_eq env text ms Hms) in Hg. injection Hg as <-.
  split; [reflexivity | ].
  intros m _. split; [ | split].
  - unfold issue_of_match, str_in; simpl. rewrite orb_false_r. reflexivity.
  - unfold issue_of_match; simpl. apply (py_slice_prefix _ 3). lia.
  - apply issue_context_clipped.
Qed.

Lemma grammar_finding_fields_witness :
  exists res,
    analyze (example_env ascii_only [example_match]) text_unordered = Ok res
    /\ AnalysisResult.grammar_issues res
       = map (issue_of_match text_unordered) [example_match]
    /\ GrammarIssue.severity (issue_of_match text_unordered example_match) = lit "warning"
    /\ GrammarIssue.suggestions (issue_of_match text_unordered example_match)
       = [lit "the"; lit "then"; lit "they"]
    /\ GrammarIssue.context (issue_of_match text_unordered example_match)
       = lit " order to be taken, the the.".
Proof.
  destruct (analyze (example_env ascii_only [example_match]) text_unordered)
    as [res | e] eqn:E; [ | vm_compute in E; discriminate].
  exists res. split; [reflexivity | ].
  destruct (grammar_finding_fields (example_env ascii_only [example_match])
              text_unordered [example_match] res eq_refl E) as [Hmap Hall].
  split; [exact Hmap | ].
  destruct (Hall example_match (or_introl eq_refl)) as (Hsev & Hsug & Hctx).
  split; [rewrite Hsev; reflexivity | ].
  split; [rewrite Hsug; reflexivity | ].
  rewrite Hctx by (vm_compute; discriminate). reflexivity.
Defined.

(** The findings of the three regex detectors lie within the text and
    carry the text of their span. *)
Lemma regex_finding_ok (env : Env) (text : str) (l : list StyleSuggestion.t)
  (s : StyleSuggestion.t) :
  _check_passive_voice env text = Ok l
  \/ _check_wordy_phrases env text = Ok l
  \/ _check_repeated_words env text = Ok l ->
  In s l ->
  span_ok text (StyleSuggestion.offset s) (StyleSuggestion.length s)
  /\ StyleSuggestion.original s
     = py_slice text (StyleSuggestion.offset s)
         (StyleSuggestion.offset s + StyleSuggestion.length s).
Proof.
  intros [H | [H | H]] Hin.
  - rewrite check_passive_voice_eq in H. injection H as <-.
    apply passive_suggestion_of_match in Hin as (m & Hm & ->).
    apply match_span_ok. exact Hm.
  - rewrite check_wordy_phrases_eq in H. injection H as <-.
    apply wordy_suggestion_of_match in Hin as (m & repl & Hm & ->).
    apply match_span_ok. exact Hm.
  - rewrite check_repeated_words_eq in H. injection H as <-.
    apply repetition_suggestion_of_match in Hin as (m & g & Hm & _ & _ & ->).
    apply match_span_ok. exact Hm.
Qed.

(** C6. Every finding of an [AnalysisResult] has a non-negative offset
    and [offset + length <= len(text)], given what the core relies on
    from its collaborators.  The spans of the grammar findings are those
    the grammar tool flagged, so they are ranges of the text when the
    tool flags ranges of the text.  The spans of the style findings are
    ranges of the text when the tokenizer returns slices of the text in
    order: the regex findings always are, and for a long sentence the
    search from the running cursor then succeeds and returns the start of
    a range of the text. *)
Theorem findings_within_text (env : Env) (text : str) (res : AnalysisResult.t) :
  analyze env text = Ok res ->
  ((forall ms, tool_check env text = Ok ms -> Forall (match_in_text text) ms) ->
   forall g, In g (AnalysisResult.grammar_issues res) ->
             span_ok text (GrammarIssue.offset g) (GrammarIssue.length g))
  /\ ((forall sentences, sent_tokenize env text = Ok sentences ->
                         ordered_slices text 0 sentences) ->
      forall s, In s (AnalysisResult.style_suggestions res) ->
                span_ok text (StyleSuggestion.offset s) (StyleSuggestion.length s))
  /\ (forall s, In s (AnalysisResult.style_suggestions res) ->
                StyleSuggestion.category s <> lit "sentence_length" ->
                span_ok text (StyleSuggestion.offset s) (StyleSuggestion.length s)).
Proof.
  intros H.
  apply analyze_ok in H as (gs & ss & r & sents & Hg & Hs & _ & _ & ->). simpl.
  apply analyze_style_ok in Hs as (p & w & l & rp & Hp & Hw & Hl & Hr & ->).
  split; [ | split].
  - intros Htool.
    unfold _check_grammar in Hg. bind_inv Hg ms Hms. injection Hg as <-.
    rewrite fold_left_append. simpl. intros g Hin.
    apply in_map_iff in Hin as (m & <- & Hm).
    specialize (Htool ms Hms). rewrite Forall_forall in Htool.
    destruct (Htool m Hm) as (Ho & Hl' & Hend).
    unfold span_ok, issue_of_match; simpl. lia.
  - intros Htok s Hin.
    apply in_app_or in Hin as [Hin | Hin];
      [apply (regex_finding_ok env text p s); auto | ].
    apply in_app_or in Hin as [Hin | Hin];
      [apply (regex_finding_ok env text w s); auto | ].
    apply in_app_or in Hin as [Hin | Hin];
      [ | apply (regex_finding_ok env text rp s); auto].
    unfold _check_sentence_length in Hl. bind_inv Hl sentences Hsents.
    injection Hl as <-.
    apply (sentence_loop_spans env text sentences 0 [] 0);
      [apply Htok; exact Hsents | lia | intros s' [] | exact Hin].
  - intros s Hin Hcat.
    apply in_app_or in Hin as [Hin | Hin];
      [apply (regex_finding_ok env text p s); auto | ].
    apply in_app_or in Hin as [Hin | Hin];
      [apply (regex_finding_ok env text w s); auto | ].
    apply in_app_or in Hin as [Hin | Hin];
      [ | apply (regex_finding_ok env text rp s); auto].
    exfalso. apply Hcat.
    apply (proj1 (proj2 (proj2 (detector_categories env text l s Hin))) Hl).
Qed.

Lemma findings_within_text_witness :
  exists res,
    analyze (example_env ascii_only [example_match])
            (text_unordered ++ lit " " ++ text_long_sentence) = Ok res
    /\ List.length (AnalysisResult.grammar_issues res) = 1%nat
    /\ categories (AnalysisResult.style_suggestions res)
       = [lit "passive_voice"; lit "passive_voice"; lit "wordiness";
          lit "sentence_length"; lit "repetition"]
    /\ (forall g, In g (AnalysisResult.grammar_issues res) ->
          span_ok (text_unordered ++ lit " " ++ text_long_sentence)
                  (GrammarIssue.offset g) (GrammarIssue.length g))
    /\ (forall s, In s (AnalysisResult.style_suggestions res) ->
          span_ok (text_unordered ++ lit " " ++ text_long_sentence)
                  (StyleSuggestion.offset s) (StyleSuggestion.length s)).
Proof.
  destruct (analyze (example_env ascii_only [example_match])
              (text_unordered ++ lit " " ++ text_long_sentence))
    as [res | e] eqn:E; [ | vm_compute in E; discriminate].
  exists res. split; [reflexivity | ].
  split; [vm_compute in E; injection E as <-; reflexivity | ].
  split; [vm_compute in E; injection E as <-; reflexivity | ].
  destruct (findings_within_text _ _ res E) as (Hgrammar & Hstyle & _).
  split.
  - apply Hgrammar. intros ms Hms. injection Hms as <-. constructor; [ | constructor].
    vm_compute. repeat split; discriminate.
  - apply Hstyle. intros sentences Hs. vm_compute in Hs. injection Hs as <-.
    apply (slices_cons _ 0 0); [lia | vm_compute; discriminate | reflexivity | ].
    apply slices_nil.
Defined.

(** C7. The style findings of an [AnalysisResult] are the findings of the
    passive-voice detector, then those of the wordy-phrase detector, then
    the long-sentence findings, then the repeated-word findings; nothing
    sorts them by position: in [text_unordered] the passive-voice finding
    at offset 12 comes before the wordiness finding at offset 0. *)
Theorem style_findings_in_detector_order :
  (forall env text res,
     analyze env text = Ok res ->
     exists passive wordy long repeated,
       _check_passive_voice env text = Ok passive
       /\ _check_wordy_phrases env text = Ok wordy
       /\ _check_sentence_length env text = Ok long
       /\ _check_repeated_words env text = Ok repeated
       /\ AnalysisResult.style_suggestions res = passive ++ wordy ++ long ++ repeated)
  /\ (forall base ms,
        exists res,
          analyze (example_env (with_ascii base) ms) text_unordered = Ok res
          /\ categories (AnalysisResult.style_suggestions res)
             = [lit "passive_voice"; lit "wordiness"; lit "repetition"]
          /\ offsets (AnalysisResult.style_suggestions res) = [12; 0; 22]).
Proof.
  split.
  - intros env text res H.
    apply analyze_ok in H as (gs & ss & r & sents & _ & Hs & _ & _ & ->).
    apply analyze_style_ok in Hs as (p & w & l & rp & Hp & Hw & Hl & Hr & ->).
    exists p, w, l, rp. simpl. auto.
  - intros base ms.
    destruct (analyze (example_env (with_ascii base) ms) text_unordered)
      as [res | e] eqn:E.
    + exists res. split; [reflexivity | ].
      apply analyze_ok in E as (gs & ss & r & sents & _ & Hs & _ & _ & ->).
      cbn [AnalysisResult.style_suggestions].
      vm_compute in Hs. injection Hs as <-. split; reflexivity.
    + exfalso. unfold analyze in E.
      replace (_check_grammar (example_env (with_ascii base) ms) text_unordered)
        with (Ok (map (issue_of_match text_unordered) ms)) in E
        by (symmetry; apply check_grammar_eq; reflexivity).
      cbn [bind] in E.
      destruct (_analyze_style (example_env (with_ascii base) ms) text_unordered)
        as [ss | e'] eqn:Es; [ | vm_compute in Es; discriminate].
      cbn [bind] in E. vm_compute in E. discriminate.
Qed.

Lemma style_findings_in_detector_order_witness :
  exists res passive wordy long repeated,
    analyze (example_env ascii_only []) text_unordered = Ok res
    /\ _check_passive_voice (example_env ascii_only []) text_unordered = Ok passive
    /\ _check_wordy_phrases (example_env ascii_only []) text_unordered = Ok wordy
    /\ _check_sentence_length (example_env ascii_only []) text_unordered = Ok long
    /\ _check_repeated_words (example_env ascii_only []) text_unordered = Ok repeated
    /\ AnalysisResult.style_suggestions res = passive ++ wordy ++ long ++ repeated.
Proof.
  destruct (analyze (example_env ascii_only []) text_unordered)
    as [res | e] eqn:E; [ | vm_compute in E; discriminate].
  destruct (proj1 style_findings_in_detector_order _ _ res E)
    as (p & w & l & rp & H).
  exists res, p, w, l, rp. split; [reflexivity | exact H].
Defined.

(** On the empty text no pattern of the source matches. *)
Lemma regex_detectors_on_empty_text (env : Env) :
  _check_passive_voice env [] = Ok []
  /\ _check_wordy_phrases env [] = Ok []
  /\ _check_repeated_words env [] = Ok [].
Proof.
  rewrite check_passive_voice_eq, check_wordy_phrases_eq, check_repeated_words_eq.
  split; [ | split]; vm_compute; reflexivity.
Qed.

(** C9. The three regex detectors return a list for every text: every
    pattern of the source compiles, and [match.group(1)] of the
    repeated-word pattern is never None.  The long-sentence detector
    returns a list whenever the tokenizer returns its sentences.  On the
    empty text all of them return the empty list, and when the grammar
    tool and the tokenizer answer the empty list on it (and textstat
    answers), [analyze] returns a result with no word, no sentence and no
    finding. *)
Theorem detectors_never_raise :
  (forall env text,
     (exists l, _check_passive_voice env text = Ok l)
     /\ (exists l, _check_wordy_phrases env text = Ok l)
     /\ (exists l, _check_repeated_words env text = Ok l)
     /\ (forall sentences, sent_tokenize env text = Ok sentences ->
           exists l, _check_sentence_length env text = Ok l))
  /\ (forall env,
        _check_passive_voice env [] = Ok []
        /\ _check_wordy_phrases env [] = Ok []
        /\ _check_repeated_words env [] = Ok []
        /\ (sent_tokenize env [] = Ok [] -> _check_sentence_length env [] = Ok []))
  /\ (forall env readability,
        tool_check env [] = Ok [] ->
        sent_tokenize env [] = Ok [] ->
        _calculate_readability env [] = Ok readability ->
        exists res,
          analyze env [] = Ok res
          /\ AnalysisResult.word_count res = 0
          /\ AnalysisResult.sentence_count res = 0
          /\ AnalysisResult.grammar_issues res = []
          /\ AnalysisResult.style_suggestions res = []).
Proof.
  split; [ | split].
  - intros env text.
    rewrite check_passive_voice_eq, check_wordy_phrases_eq, check_repeated_words_eq.
    split; [eauto | ]. split; [eauto | ]. split; [eauto | ].
    intros sentences Hs. unfold _check_sentence_length. rewrite Hs. simpl. eauto.
  - intros env. destruct (regex_detectors_on_empty_text env) as (Hp & Hw & Hr).
    split; [exact Hp | ]. split; [exact Hw | ]. split; [exact Hr | ].
    intros Hs. unfold _check_sentence_length. rewrite Hs. reflexivity.
  - intros env readability Htool Htok Hread.
    destruct (regex_detectors_on_empty_text env) as (Hp & Hw & Hr).
    unfold analyze, _check_grammar, _analyze_style, _check_sentence_length.
    rewrite Htool, Hp, Hw, Hr, Htok, Hread. cbn [bind fold_left app fst].
    eexists. split; [reflexivity | ]. simpl. auto.
Qed.

Lemma detectors_never_raise_witness :
  exists res,
    analyze (example_env ascii_only []) [] = Ok res
    /\ AnalysisResult.word_count res = 0
    /\ AnalysisResult.sentence_count res = 0
    /\ AnalysisResult.grammar_issues res = []
    /\ AnalysisResult.style_suggestions res = [].
Proof.
  apply (proj2 (proj2 detectors_never_raise) (example_env ascii_only [])
           (metrics_with_fre 65.0%float)); reflexivity.
Defined.

(** C8. The repeated-word detector returns, for every match of
    [\b(\w+)\s+\1\b] under IGNORECASE, one finding of category
    repetition, except for the matches whose word, lower-cased, is one of
    very, far, long, many.  Every match is a word, spaces, and the same
    word again up to case.  In the sentence of the test suite the doubled
    The is reported; [very very tired] matches the pattern and is let
    pass. *)
Theorem repeated_words_findings :
  (forall env text,
     _check_repeated_words env text
     = Ok (flat_map (repetition_of (unicode env))
             (matches_of (unicode env) repeated_word_pattern text))
     /\ (forall m, In m (matches_of (unicode env) repeated_word_pattern text) ->
           doubled_word (unicode env) m
           /\ exists g, Re.group1 m = Some g
             /\ repetition_of (unicode env) m
                = if str_in (lower (unicode env) g)
                       [lit "very"; lit "far"; lit "long"; lit "many"]
                  then [] else [repetition_suggestion m g])
     /\ (forall m g, StyleSuggestion.category (repetition_suggestion m g)
                     = lit "repetition"))
  /\ (forall base tool tokenizer ts,
        exists s,
          _check_repeated_words (env_with (with_ascii base) tool tokenizer ts) text_the_the
          = Ok [s]
          /\ StyleSuggestion.category s = lit "repetition"
          /\ StyleSuggestion.offset s = 0 /\ StyleSuggestion.length s = 7
          /\ StyleSuggestion.original s = lit "The the"
          /\ StyleSuggestion.suggestion s = lit "The")
  /\ (forall base tool tokenizer ts,
        _check_repeated_words (env_with (with_ascii base) tool tokenizer ts) text_very_very
        = Ok []
        /\ map Re.group (matches_of (with_ascii base) repeated_word_pattern text_very_very)
           = [lit "very very"]).
Proof.
  split; [ | split].
  - intros env text. split; [apply check_repeated_words_eq | ]. split.
    + intros m Hm. split; [apply (repeated_match_shape _ text); exact Hm | ].
      apply matches_of_ok in Hm as [_ Hg].
      specialize (Hg repeated_pattern_has_group).
      unfold repetition_of, Re.group1.
      destruct (Re.m_group1 m) as [[a b] | ]; [ | congruence].
      eexists. split; reflexivity.
    + intros m g. reflexivity.
  - intros base tool tokenizer ts. rewrite check_repeated_words_eq.
    eexists. split; [vm_compute; reflexivity | ]. repeat split.
  - intros base tool tokenizer ts. rewrite check_repeated_words_eq.
    split; vm_compute; reflexivity.
Qed.

Lemma repeated_words_findings_witness :
  exists m g,
    matches_of ascii_only repeated_word_pattern text_the_the = [m]
    /\ Re.group1 m = Some g
    /\ g = lit "The"
    /\ repetition_of ascii_only m = [repetition_suggestion m g].
Proof.
  destruct (matches_of ascii_only repeated_word_pattern text_the_the)
    as [ | m [ | m' l]] eqn:E; try (vm_compute in E; discriminate).
  destruct (proj1 (proj2 (proj1 repeated_words_findings
                            (example_env ascii_only []) text_the_the)) m)
    as (_ & g & Hg & Hrep).
  - cbn [unicode example_env]. rewrite E. left. reflexivity.
  - exists m, g. split; [reflexivity | ]. split; [exact Hg | ].
    assert (Hlit : g = lit "The").
    { vm_compute in E. injection E as <-. vm_compute in Hg. injection Hg as <-.
      reflexivity. }
    split; [exact Hlit | ].
    cbn [unicode example_env] in Hrep. rewrite Hrep. subst g. reflexivity.
Defined.

(** C10. A finding of the passive-voice, wordy-phrase or repeated-word
    detector carries in [original] exactly the text of its span,
    [text[offset : offset + length]].  A long-sentence finding need not:
    for the long sentence of the test suite [original] is its first 50
    characters and an ellipsis, while the span covers all 234. *)
Theorem regex_findings_carry_their_text :
  (forall env text l s,
     _check_passive_voice env text = Ok l
     \/ _check_wordy_phrases env text = Ok l
     \/ _check_repeated_words env text = Ok l ->
     In s l ->
     StyleSuggestion.original s
     = py_slice text (StyleSuggestion.offset s)
         (StyleSuggestion.offset s + StyleSuggestion.length s))
  /\ (forall base ms,
        exists s,
          _check_sentence_length (example_env (with_ascii base) ms) text_long_sentence
          = Ok [s]
          /\ StyleSuggestion.offset s = 0 /\ StyleSuggestion.length s = 234
          /\ StyleSuggestion.original s
             = lit "This is a very long sentence that goes on and on a..."
          /\ StyleSuggestion.original s
             <> py_slice text_long_sentence (StyleSuggestion.offset s)
                  (StyleSuggestion.offset s + StyleSuggestion.length s)).
Proof.
  split.
  - intros env text l s H Hin. apply (regex_finding_ok env text l s H Hin).
  - intros base ms. eexists. split; [vm_compute; reflexivity | ].
    cbn [StyleSuggestion.offset StyleSuggestion.length StyleSuggestion.original].
    split; [reflexivity | ]. split; [reflexivity | ]. split; [reflexivity | ].
    vm_compute. discriminate.
Qed.

Lemma regex_findings_carry_their_text_witness :
  exists s,
    _check_wordy_phrases (example_env ascii_only []) text_unordered = Ok [s]
    /\ StyleSuggestion.original s = lit "In order to"
    /\ StyleSuggestion.original s
       = py_slice text_unordered (StyleSuggestion.offset s)
           (StyleSuggestion.offset s + StyleSuggestion.length s).
Proof.
  destruct (_check_wordy_phrases (example_env ascii_only []) text_unordered)
    as [[ | s [ | s' l]] | e] eqn:E; try (vm_compute in E; discriminate).
  exists s. split; [reflexivity | ].
  split; [vm_compute in E; injection E as <-; reflexivity | ].
  apply (proj1 regex_findings_carry_their_text (example_env ascii_only [])
           text_unordered [s] s); [right; left; exact E | left; reflexivity].
Defined.

(* ================================================================== *)
(** * Further properties: splitting, searching and the long-sentence loop *)
(* ================================================================== *)

Section SplitFacts.

Variable env : Env.

Lemma split_from_bound : forall s word,
  (2 * List.length (split_from env s word)
   <= List.length s + 1 + match word with [] => 0 | _ :: _ => 1 end)%nat.
Proof.
  induction s as [ | c s IH]; intros word.
  - destruct word; simpl; lia.
  - simpl. destruct (isspace (unicode env) c).
    + destruct word as [ | x word]; simpl.
      * specialize (IH []). simpl in IH. lia.
      * specialize (IH []). simpl in IH. lia.
    + specialize (IH (c :: word)). simpl in IH. destruct word; lia.
Qed.

(** A string of [n] words has at least [2 n - 1] characters. *)
Lemma py_split_bound (s : str) : 2 * len (py_split env s) <= len s + 1.
Proof.
  unfold py_split, len. pose proof (split_from_bound s []) as H. simpl in H. lia.
Qed.

Lemma split_from_nil : forall s word,
  split_from env s word = [] <-> (word = [] /\ forallb (isspace (unicode env)) s = true).
Proof.
  induction s as [ | c s IH]; intros word.
  - destruct word; simpl; split; intros H; try discriminate; auto.
    destruct H as [H _]. discriminate.
  - simpl. destruct (isspace (unicode env) c); simpl.
    + destruct word as [ | x word].
      * rewrite IH. tauto.
      * split; [discriminate | intros [H _]; discriminate].
    + rewrite IH. split; [intros [H _]; discriminate | intros [_ H]; discriminate].
Qed.

(** [s.split()] is empty exactly when [s] is blank. *)
Lemma py_split_nil (s : str) :
  py_split env s = [] <-> is_blank (unicode env) s = true.
Proof. unfold py_split, is_blank. rewrite split_from_nil. tauto. Qed.

Lemma sentence_loop_eq (text : str) : forall sentences acc cursor,
  fst (fold_left (sentence_step env text) sentences (acc, cursor))
  = acc ++ long_findings env text sentences cursor.
Proof.
  induction sentences as [ | sentence rest IH]; intros acc cursor.
  - simpl. rewrite app_nil_r. reflexivity.
  - cbn [fold_left long_findings]. unfold sentence_step at 2.
    rewrite IH. destruct (30 <? len (py_split env sentence)).
    + rewrite <- app_assoc. reflexivity.
    + reflexivity.
Qed.

Lemma check_sentence_length_eq (text : str) (sentences : list str) :
  sent_tokenize env text = Ok sentences ->
  _check_sentence_length env text = Ok (long_findings env text sentences 0).
Proof.
  intros H. unfold _check_sentence_length. rewrite H. cbn [bind].
  rewrite sentence_loop_eq. reflexivity.
Qed.

Lemma long_findings_lengths (text : str) : forall sentences cursor,
  map StyleSuggestion.length (long_findings env text sentences cursor)
  = map len (filter (is_long env) sentences).
Proof.
  induction sentences as [ | sentence rest IH]; intros cursor; cbn [long_findings filter].
  - reflexivity.
  - rewrite map_app, IH. unfold is_long.
    destruct (30 <? len (py_split env sentence)); reflexivity.
Qed.

Lemma long_findings_in (text : str) (s : StyleSuggestion.t) : forall sentences cursor,
  In s (long_findings env text sentences cursor) ->
  exists sentence cur,
    In sentence sentences /\ is_long env sentence = true /\ cursor <= cur
    /\ s = length_suggestion text sentence cur (len (py_split env sentence)).
Proof.
  induction sentences as [ | sentence rest IH]; intros cursor; cbn [long_findings].
  - intros [].
  - pose proof (len_nonneg sentence) as Hl.
    intros H. apply in_app_or in H as [H | H].
    + unfold is_long. destruct (30 <? len (py_split env sentence)) eqn:E; [ | destruct H].
      destruct H as [<- | []]. exists sentence, cursor.
      split; [left; reflexivity | ]. unfold is_long. rewrite E. split; [reflexivity | ].
      split; [lia | reflexivity].
    + apply IH in H as (sentence' & cur & Hin & Hlong & Hcur & ->).
      exists sentence', cur. split; [right; exact Hin | ]. split; [exact Hlong | ].
      split; [lia | reflexivity].
Qed.

End SplitFacts.

Lemma find_from_least (sub : str) : forall s i j d,
  find_from sub s i = Some j ->
  (d + List.length sub <= List.length s)%nat ->
  firstn (List.length sub) (skipn d s) = sub ->
  (j <= i + d)%nat.
Proof.
  induction s as [ | c s IH]; intros i j d; simpl.
  - destruct (starts_with sub []); [ | discriminate].
    intros H. injection H as <-. lia.
  - destruct (starts_with sub (c :: s)) eqn:E.
    + intros H. injection H as <-. lia.
    + intros H Hlen Hocc. destruct d as [ | d].
      * simpl in Hocc. rewrite firstn_starts_with in E; [discriminate | | exact Hocc].
        simpl in *. lia.
      * simpl in Hocc, Hlen.
        assert (Hd : (d + List.length sub <= List.length s)%nat) by lia.
        specialize (IH (S i) j d H Hd Hocc). lia.
Qed.

(** What [find] returns, when it is not -1, is an index where the string
    occurs. *)
Lemma py_find_occurrence (s sub : str) (start : Z) :
  0 <= start -> py_find s sub start <> -1 ->
  py_slice s (py_find s sub start) (py_find s sub start + len sub) = sub.
Proof.
  intros Hstart. unfold py_find.
  destruct (start <? 0) eqn:E; [apply Z.ltb_lt in E; lia | ].
  destruct (len s <? start) eqn:El; [congruence | ].
  apply Z.ltb_ge in El.
  destruct (find_from sub (skipn (Z.to_nat start) s) (Z.to_nat start)) as [j | ] eqn:F;
    [ | congruence].
  intros _. apply find_from_sound in F as (Hij & Hlen & Hocc).
  rewrite length_skipn in Hlen.
  rewrite py_slice_in_range by (unfold len in *; lia).
  rewrite skipn_skipn in Hocc.
  replace (Z.to_nat (Z.of_nat j + len sub - Z.of_nat j)) with (List.length sub)
    by (unfold len; lia).
  replace (Z.to_nat (Z.of_nat j)) with (j - Z.to_nat start + Z.to_nat start)%nat by lia.
  exact Hocc.
Qed.

(** [find] returns the first occurrence at or after the start. *)
Lemma py_find_least (s sub : str) (start a : Z) :
  0 <= start <= a -> a + len sub <= len s ->
  py_slice s a (a + len sub) = sub ->
  0 <= py_find s sub start <= a.
Proof.
  intros Hstart Hlen Hocc.
  pose proof (py_find_complete s sub start a Hstart Hlen Hocc) as Hfound.
  pose proof (py_find_sound s sub start (proj1 Hstart) Hfound) as [Hlo _].
  split; [lia | ].
  revert Hfound. unfold py_find.
  pose proof (len_nonneg sub) as Hsub.
  destruct (start <? 0) eqn:E; [apply Z.ltb_lt in E; lia | ].
  destruct (len s <? start) eqn:El; [congruence | ].
  destruct (find_from sub (skipn (Z.to_nat start) s) (Z.to_nat start)) as [j | ] eqn:F;
    [ | congruence].
  intros _.
  rewrite py_slice_in_range in Hocc by lia.
  replace (Z.to_nat (a + len sub - a)) with (List.length sub) in Hocc by (unfold len; lia).
  pose proof (find_from_least sub _ _ _ (Z.to_nat a - Z.to_nat start) F) as Hleast.
  rewrite length_skipn, skipn_skipn in Hleast.
  replace (Z.to_nat a - Z.to_nat start + Z.to_nat start)%nat with (Z.to_nat a)
    in Hleast by lia.
  unfold len in *. specialize (Hleast ltac:(lia) Hocc). lia.
Qed.

(* ================================================================== *)
(** * Further properties of the detectors and of [analyze] *)
(* ================================================================== *)

(** X1. The span of a long-sentence finding reads the sentence it
    reports: [offset] is -1 (the search failed) or the text from
    [offset] to [offset + length] is the sentence, and [length] is the
    length of the sentence.  When the tokenizer returns slices of the
    text in order the search never fails. *)
Theorem long_sentence_span_reads_sentence (env : Env) (text : str)
  (sentences : list str) (l : list StyleSuggestion.t) (s : StyleSuggestion.t) :
  sent_tokenize env text = Ok sentences ->
  _check_sentence_length env text = Ok l ->
  In s l ->
  exists sentence,
    In sentence sentences
    /\ StyleSuggestion.length s = len sentence
    /\ (StyleSuggestion.offset s = -1
        \/ (0 <= StyleSuggestion.offset s
            /\ py_slice text (StyleSuggestion.offset s)
                 (StyleSuggestion.offset s + StyleSuggestion.length s) = sentence))
    /\ (ordered_slices text 0 sentences -> StyleSuggestion.offset s <> -1).
Proof.
  intros Htok Hl Hin.
  rewrite (check_sentence_length_eq env text sentences Htok) in Hl. injection Hl as <-.
  pose proof Hin as Hin'.
  apply long_findings_in in Hin as (sentence & cur & Hs & _ & Hcur & ->).
  exists sentence. split; [exact Hs | ]. split; [reflexivity | ].
  cbn [length_suggestion StyleSuggestion.offset StyleSuggestion.length]. split.
  - destruct (Z.eq_dec (py_find text sentence cur) (-1)) as [E | E]; [left; exact E | ].
    right. pose proof (py_find_sound text sentence cur Hcur E) as [Hlo _].
    split; [lia | apply py_find_occurrence; assumption].
  - intros Hcontract Hneg.
    assert (Hspan : span_ok text
                      (StyleSuggestion.offset
                         (length_suggestion text sentence cur (len (py_split env sentence))))
                      (StyleSuggestion.length
                         (length_suggestion text sentence cur (len (py_split env sentence))))).
    { apply (sentence_loop_spans env text sentences 0 [] 0);
        [exact Hcontract | lia | intros s' [] | ].
      rewrite sentence_loop_eq. exact Hin'. }
    destruct Hspan as [H0 _].
    cbn [length_suggestion StyleSuggestion.offset] in H0. lia.
Qed.

Lemma long_sentence_span_reads_sentence_witness :
  exists s,
    _check_sentence_length (example_env ascii_only []) text_long_sentence = Ok [s]
    /\ StyleSuggestion.length s = 234
    /\ py_slice text_long_sentence (StyleSuggestion.offset s)
         (StyleSuggestion.offset s + StyleSuggestion.length s) = text_long_sentence.
Proof.
  destruct (_check_sentence_length (example_env ascii_only []) text_long_sentence)
    as [[ | s [ | s' l]] | e] eqn:E; try (vm_compute in E; discriminate).
  exists s. split; [reflexivity | ].
  destruct (long_sentence_span_reads_sentence (example_env ascii_only [])
              text_long_sentence [text_long_sentence] [s] s eq_refl E
              (or_introl eq_refl))
    as (sentence & Hin & Hlen & Hspan & Hfound).
  destruct Hin as [<- | []].
  split; [rewrite Hlen; reflexivity | ].
  destruct Hspan as [Hneg | [_ Hread]]; [ | exact Hread].
  exfalso. apply Hfound; [ | exact Hneg].
  apply (slices_cons _ 0 0); [lia | vm_compute; discriminate | reflexivity | ].
  apply slices_nil.
Defined.

(** X2. A long-sentence finding always carries a truncated [original]:
    a sentence of more than 30 words has at least 61 characters, so
    [original] is the first 50 characters of the sentence followed by
    three dots, 53 characters in all; the branch that keeps the whole
    sentence is never taken. *)
Theorem long_sentence_original_truncated (env : Env) (text : str)
  (l : list StyleSuggestion.t) (s : StyleSuggestion.t) :
  _check_sentence_length env text = Ok l ->
  In s l ->
  61 <= StyleSuggestion.length s
  /\ len (StyleSuggestion.original s) = 53
  /\ exists sentence,
       StyleSuggestion.length s = len sentence
       /\ StyleSuggestion.original s = firstn 50 sentence ++ lit "...".
Proof.
  intros Hl Hin. unfold _check_sentence_length in Hl.
  bind_inv Hl sentences Htok. injection Hl as <-.
  rewrite sentence_loop_eq in Hin.
  apply long_findings_in in Hin as (sentence & cur & _ & Hlong & _ & ->).
  unfold is_long in Hlong. apply Z.ltb_lt in Hlong.
  pose proof (py_split_bound env sentence) as Hb.
  assert (H61 : 61 <= len sentence) by lia.
  cbn [length_suggestion StyleSuggestion.length StyleSuggestion.original].
  split; [exact H61 | ].
  assert (H50 : (50 <? len sentence) = true) by (apply Z.ltb_lt; lia).
  rewrite H50. rewrite (py_slice_prefix sentence 50) by lia.
  change (Z.to_nat 50) with 50%nat. split.
  - rewrite len_app. unfold len at 1. rewrite length_firstn.
    unfold len in H61. rewrite Nat.min_l by lia. reflexivity.
  - exists sentence. split; reflexivity.
Qed.

Lemma long_sentence_original_truncated_witness :
  exists s,
    _check_sentence_length (example_env ascii_only []) text_long_sentence = Ok [s]
    /\ 61 <= StyleSuggestion.length s
    /\ len (StyleSuggestion.original s) = 53.
Proof.
  destruct (_check_sentence_length (example_env ascii_only []) text_long_sentence)
    as [[ | s [ | s' l]] | e] eqn:E; try (vm_compute in E; discriminate).
  exists s. split; [reflexivity | ].
  destruct (long_sentence_original_truncated (example_env ascii_only [])
              text_long_sentence [s] s E (or_introl eq_refl)) as (H61 & H53 & _).
  split; assumption.
Defined.

(** X3. The long-sentence detector reports exactly the sentences of more
    than 30 words, once each and in the tokenizer's order: the lengths of
    its findings are the lengths of those sentences. *)
Theorem long_sentence_one_finding_each (env : Env) (text : str)
  (sentences : list str) (l : list StyleSuggestion.t) :
  sent_tokenize env text = Ok sentences ->
  _check_sentence_length env text = Ok l ->
  map StyleSuggestion.length l = map len (filter (is_long env) sentences)
  /\ List.length l = List.length (filter (is_long env) sentences)
  /\ (forall s, In s l -> StyleSuggestion.category s = lit "sentence_length").
Proof.
  intros Htok Hl.
  rewrite (check_sentence_length_eq env text sentences Htok) in Hl. injection Hl as <-.
  pose proof (long_findings_lengths env text sentences 0) as Hmap.
  split; [exact Hmap | ]. split.
  - pose proof (f_equal (@List.length Z) Hmap) as E.
    rewrite !length_map in E. exact E.
  - intros s Hin. apply long_findings_in in Hin as (sentence & cur & _ & _ & _ & ->).
    reflexivity.
Qed.

Lemma long_sentence_one_finding_each_witness :
  exists l,
    _check_sentence_length (example_env ascii_only [])
      (text_unordered ++ (lit " " ++ text_long_sentence)) = Ok l
    /\ List.length l = 1%nat.
Proof.
  destruct (_check_sentence_length (example_env ascii_only [])
              (text_unordered ++ lit " " ++ text_long_sentence)) as [l | e] eqn:E;
    [ | vm_compute in E; discriminate].
  exists l. split; [reflexivity | ].
  destruct (long_sentence_one_finding_each (example_env ascii_only [])
              (text_unordered ++ lit " " ++ text_long_sentence)
              [text_unordered ++ lit " " ++ text_long_sentence] l eq_refl E)
    as (_ & Hlen & _).
  rewrite Hlen. vm_compute. reflexivity.
Defined.

(* ================================================================== *)
(** * The order of the matches of one pattern *)
(* ================================================================== *)

Section ScanOrder.

Variable U : UnicodeData.
Variable text : str.

(** [finditer] yields its matches from left to right, each one starting
    after the one before and at or after its end. *)
Lemma scan_sorted (r : Re.regex) : forall s p i skip,
  Forall (fun m => Z.of_nat (i + skip) <= Re.m_start m) (Re.scan U text r p s i skip)
  /\ StronglySorted match_before (Re.scan U text r p s i skip).
Proof.
  induction s as [ | c s IH]; intros p i skip.
  - destruct skip as [ | skip]; simpl; [ | split; constructor].
    destruct (Re.rmatch U text r _ Re.accept) as [res | ]; [ | split; constructor].
    split.
    + constructor; [simpl; lia | constructor].
    + constructor; constructor.
  - destruct skip as [ | skip]; simpl.
    + destruct (Re.rmatch U text r _ Re.accept) as [res | ].
      * destruct (IH (Some c) (S i) (fst res - i - 1)%nat) as [Hlo Hs]. split.
        -- constructor; [simpl; lia | ].
           eapply Forall_impl; [ | exact Hlo]. intros m Hm. simpl in Hm. lia.
        -- constructor; [exact Hs | ].
           eapply Forall_impl; [ | exact Hlo]. intros m Hm.
           unfold match_before. simpl in *. lia.
      * destruct (IH (Some c) (S i) 0%nat) as [Hlo Hs]. split; [ | exact Hs].
        eapply Forall_impl; [ | exact Hlo]. intros m Hm. simpl in Hm. lia.
    + destruct (IH (Some c) (S i) skip) as [Hlo Hs]. split; [ | exact Hs].
      eapply Forall_impl; [ | exact Hlo]. intros m Hm. simpl in Hm. lia.
Qed.

End ScanOrder.

Lemma matches_of_sorted (U : UnicodeData) (pattern : string) (text : str) :
  StronglySorted match_before (matches_of U pattern text).
Proof.
  unfold matches_of. apply scan_sorted.
Qed.


Lemma repetitions_sorted (U : UnicodeData) (ms : list Re.match_obj) :
  StronglySorted match_before ms ->
  StronglySorted finding_before (flat_map (repetition_of U) ms).
Proof.
  induction 1 as [ | m ms Hs IH Hall]; simpl; [constructor | ].
  unfold repetition_of at 1.
  destruct (Re.group1 m) as [g | ]; [ | exact IH].
  destruct (str_in (lower U g) intentional_repetitions); [exact IH | ].
  simpl. constructor; [exact IH | ].
  apply Forall_forall. intros s Hin. apply in_flat_map in Hin as (m' & Hm' & Hin).
  rewrite Forall_forall in Hall. specialize (Hall m' Hm').
  unfold repetition_of in Hin.
  destruct (Re.group1 m') as [g' | ]; [ | destruct Hin].
  destruct (str_in (lower U g') intentional_repetitions); [destruct Hin | ].
  destruct Hin as [<- | []].
  unfold finding_before, match_before, repetition_suggestion in *.
  cbn [StyleSuggestion.offset StyleSuggestion.length].
  unfold Re.start, Re.end_. lia.
Qed.

(** X4. The findings of the repeated-word detector come in the order of
    the text and never overlap: each one starts after the one before it
    and at or after its end. *)
Theorem repeated_words_in_text_order (env : Env) (text : str)
  (l : list StyleSuggestion.t) :
  _check_repeated_words env text = Ok l ->
  StronglySorted finding_before l.
Proof.
  intros H. rewrite check_repeated_words_eq in H. injection H as <-.
  apply repetitions_sorted, matches_of_sorted.
Qed.

Lemma repeated_words_in_text_order_witness :
  exists s1 s2,
    _check_repeated_words (example_env ascii_only [])
      (lit "is is it it very very") = Ok [s1; s2]
    /\ finding_before s1 s2.
Proof.
  destruct (_check_repeated_words (example_env ascii_only []) (lit "is is it it very very"))
    as [[ | s1 [ | s2 [ | s3 l]]] | e] eqn:E; try (vm_compute in E; discriminate).
  exists s1, s2. split; [reflexivity | ].
  pose proof (repeated_words_in_text_order _ _ _ E) as Hs.
  inversion Hs as [ | ? ? _ Hall]; subst.
  inversion Hall; subst. assumption.
Defined.



(* ================================================================== *)
(** * Further properties of [_check_grammar] and [analyze] *)
(* ================================================================== *)

(** A slice of a slice is a slice of the text. *)
Lemma py_slice_within {A : Type} (s : list A) (lo hi a b : Z) :
  0 <= lo -> lo <= a -> a <= b -> b <= hi -> hi <= len s ->
  py_slice (py_slice s lo hi) (a - lo) (b - lo) = py_slice s a b.
Proof.
  intros H0 H1 H2 H3 H4.
  assert (Hlen : len (py_slice s lo hi) = hi - lo).
  { rewrite (py_slice_in_range s lo hi) by lia.
    unfold len in *. rewrite length_firstn, length_skipn. lia. }
  rewrite (py_slice_in_range (py_slice s lo hi)) by lia.
  rewrite (py_slice_in_range s lo hi) by lia.
  rewrite (py_slice_in_range s a b) by lia.
  rewrite skipn_firstn_comm, firstn_firstn, skipn_skipn.
  unfold len in H4.
  rewrite Nat.min_l by lia.
  f_equal; [lia | f_equal; lia].
Qed.

Lemma issue_context_window (text : str) (m : LanguageTool.Match) :
  match_in_text text m ->
  let g := issue_of_match text m in
  let at_ := Z.min (GrammarIssue.offset g) 20 in
  py_slice (GrammarIssue.context g) at_ (at_ + GrammarIssue.length g)
  = py_slice text (GrammarIssue.offset g) (GrammarIssue.offset g + GrammarIssue.length g)
  /\ GrammarIssue.length g <= len (GrammarIssue.context g) <= GrammarIssue.length g + 40.
Proof.
  intros (Ho & Hl & Hr). cbn zeta.
  unfold issue_of_match.
  cbn [GrammarIssue.context GrammarIssue.offset GrammarIssue.length].
  set (o := LanguageTool.offset m) in *. set (n := LanguageTool.errorLength m) in *.
  set (lo := Z.max 0 (o - 20)). set (hi := Z.min (len text) (o + n + 20)).
  split.
  - replace (Z.min o 20) with (o - lo) by (unfold lo; lia).
    replace (o - lo + n) with (o + n - lo) by lia.
    apply py_slice_within; unfold lo, hi; lia.
  - rewrite (py_slice_in_range text lo hi) by (unfold lo, hi; lia).
    unfold len in *. rewrite length_firstn, length_skipn. unfold lo, hi. lia.
Qed.

(** X6. When the grammar tool flags spans of the text, the context of
    every grammar finding contains the flagged text, at index
    [min(offset, 20)] of the context, and is at most 40 characters longer
    than the flagged span; there is one finding per match of the tool. *)
Theorem grammar_context_shows_flagged_text (env : Env) (text : str)
  (ms : list LanguageTool.Match) (res : AnalysisResult.t) :
  tool_check env text = Ok ms ->
  Forall (match_in_text text) ms ->
  analyze env text = Ok res ->
  List.length (AnalysisResult.grammar_issues res) = List.length ms
  /\ forall g, In g (AnalysisResult.grammar_issues res) ->
       let at_ := Z.min (GrammarIssue.offset g) 20 in
       py_slice (GrammarIssue.context g) at_ (at_ + GrammarIssue.length g)
       = py_slice text (GrammarIssue.offset g)
           (GrammarIssue.offset g + GrammarIssue.length g)
       /\ GrammarIssue.length g <= len (GrammarIssue.context g)
          <= GrammarIssue.length g + 40.
Proof.
  intros Htool Hms Hres.
  apply analyze_ok in Hres as (grammar & style & readability & sentences
                               & Hg & _ & _ & _ & ->).
  rewrite (check_grammar_eq env text ms Htool) in Hg. injection Hg as <-.
  cbn [AnalysisResult.grammar_issues]. split; [apply length_map | ].
  intros g Hin. apply in_map_iff in Hin as (m & <- & Hm).
  rewrite Forall_forall in Hms. apply issue_context_window. apply Hms. exact Hm.
Qed.

Lemma grammar_context_shows_flagged_text_witness :
  exists res,
    analyze (example_env ascii_only [example_match]) text_unordered = Ok res
    /\ List.length (AnalysisResult.grammar_issues res) = 1%nat
    /\ forall g, In g (AnalysisResult.grammar_issues res) ->
         py_slice (GrammarIssue.context g) (Z.min (GrammarIssue.offset g) 20)
           (Z.min (GrammarIssue.offset g) 20 + GrammarIssue.length g)
         = py_slice text_unordered (GrammarIssue.offset g)
             (GrammarIssue.offset g + GrammarIssue.length g).
Proof.
  destruct (analyze (example_env ascii_only [example_match]) text_unordered)
    as [res | e] eqn:E; [ | vm_compute in E; discriminate].
  exists res. split; [reflexivity | ].
  assert (Hms : Forall (match_in_text text_unordered) [example_match]).
  { constructor; [ | constructor]. unfold match_in_text. vm_compute.
    repeat split; discriminate. }
  destruct (grammar_context_shows_flagged_text (example_env ascii_only [example_match])
              text_unordered [example_match] res eq_refl Hms E) as [Hlen Hctx].
  split; [exact Hlen | ].
  intros g Hg. apply (Hctx g Hg).
Defined.

(** X7. The statistics of a result: [character_count] is the length of
    the text and [original_text] the text itself; [word_count] is 0
    exactly when the text is made of white space only (the empty text
    included), and two words take at least three characters, so that
    [2 * word_count <= character_count + 1]. *)
Theorem analyze_statistics (env : Env) (text : str) (res : AnalysisResult.t) :
  analyze env text = Ok res ->
  AnalysisResult.original_text res = text
  /\ AnalysisResult.character_count res = len text
  /\ (AnalysisResult.word_count res = 0 <-> is_blank (unicode env) text = true)
  /\ 0 <= AnalysisResult.word_count res
  /\ 2 * AnalysisResult.word_count res <= AnalysisResult.character_count res + 1.
Proof.
  intros Hres.
  apply analyze_ok in Hres as (grammar & style & readability & sentences
                               & _ & _ & _ & _ & ->).
  cbn [AnalysisResult.original_text AnalysisResult.character_count
       AnalysisResult.word_count].
  split; [reflexivity | ]. split; [reflexivity | ]. split; [ | split].
  - rewrite <- py_split_nil. unfold len.
    destruct (py_split env text); simpl; split; intros H; try reflexivity; try lia;
      discriminate.
  - apply len_nonneg.
  - apply py_split_bound.
Qed.

Lemma analyze_statistics_witness :
  exists res,
    analyze (example_env ascii_only []) (lit "  ") = Ok res
    /\ AnalysisResult.word_count res = 0
    /\ AnalysisResult.character_count res = 2.
Proof.
  destruct (analyze (example_env ascii_only []) (lit "  ")) as [res | e] eqn:E;
    [ | vm_compute in E; discriminate].
  exists res. split; [reflexivity | ].
  destruct (analyze_statistics (example_env ascii_only []) (lit "  ") res E)
    as (_ & Hc & Hw & _).
  split; [apply Hw; reflexivity | exact Hc].
Defined.

Lemma analyze_style_tokenizer (env : Env) (text : str) :
  _analyze_style env text
  = match sent_tokenize env text with
    | Ok sentences =>
        Ok (flat_map (fun p => map passive_suggestion (matches_of (unicode env) p text))
              passive_voice_patterns
            ++ flat_map (fun p => map (wordy_suggestion (snd p))
                                   (matches_of (unicode env) (fst p) text)) wordy_phrases
            ++ long_findings env text sentences 0
            ++ flat_map (repetition_of (unicode env))
                 (matches_of (unicode env) repeated_word_pattern text))
    | Raise e => Raise e
    end.
Proof.
  unfold _analyze_style.
  rewrite check_passive_voice_eq, check_wordy_phrases_eq, check_repeated_words_eq.
  cbn [bind]. 
  destruct (sent_tokenize env text) as [sentences | e] eqn:Htok.
  - rewrite (check_sentence_length_eq env text sentences Htok). cbn [bind app].
    rewrite <- !app_assoc. reflexivity.
  - unfold _check_sentence_length. rewrite Htok. reflexivity.
Qed.

(** X8. [analyze] raises only what a collaborator raises, and the first
    to fail decides: the grammar tool, then the sentence tokenizer, then
    the readability library.  The checker's own code (the regular
    expressions, the slicing, the scorer) never raises. *)
Theorem analyze_raises_first_failure (env : Env) (text : str) (e : exn) :
  analyze env text = Raise e
  <-> tool_check env text = Raise e
      \/ (exists ms, tool_check env text = Ok ms /\ sent_tokenize env text = Raise e)
      \/ (exists ms sentences,
            tool_check env text = Ok ms /\ sent_tokenize env text = Ok sentences
            /\ _calculate_readability env text = Raise e).
Proof.
  unfold analyze. rewrite analyze_style_tokenizer. unfold _check_grammar.
  destruct (tool_check env text) as [ms | e1]; cbn [bind].
  - destruct (sent_tokenize env text) as [sentences | e2]; cbn [bind].
    + destruct (_calculate_readability env text) as [r | e3]; cbn [bind].
      * split; [discriminate | ].
        intros [H | [(ms' & _ & H) | (ms' & ss & _ & _ & H)]]; discriminate.
      * split.
        -- intros H. injection H as <-. right. right. exists ms, sentences.
           split; [reflexivity | ]. split; reflexivity.
        -- intros [H | [(ms' & _ & H) | (ms' & ss & _ & _ & H)]];
             try discriminate. injection H as <-. reflexivity.
    + split.
      * intros H. injection H as <-. right. left. exists ms. split; reflexivity.
      * intros [H | [(ms' & _ & H) | (ms' & ss & _ & H & _)]];
          try discriminate. injection H as <-. reflexivity.
  - split.
    + intros H. injection H as <-. left. reflexivity.
    + intros [H | [(ms' & H & _) | (ms' & ss & H & _)]]; try discriminate.
      injection H as <-. reflexivity.
Qed.

(** The findings of category [sentence_length] among style findings. *)
Lemma filter_category_none (c : str) (l : list StyleSuggestion.t) :
  (forall s, In s l -> str_eqb (StyleSuggestion.category s) c = false) ->
  filter (fun s => str_eqb (StyleSuggestion.category s) c) l = [].
Proof.
  induction l as [ | x l IH]; intros H; [reflexivity | ]. simpl.
  rewrite (H x (or_introl eq_refl)). apply IH. intros s Hs. apply H. right. exact Hs.
Qed.

Lemma filter_category_all (c : str) (l : list StyleSuggestion.t) :
  (forall s, In s l -> str_eqb (StyleSuggestion.category s) c = true) ->
  filter (fun s => str_eqb (StyleSuggestion.category s) c) l = l.
Proof.
  induction l as [ | x l IH]; intros H; [reflexivity | ]. simpl.
  rewrite (H x (or_introl eq_refl)). f_equal. apply IH. intros s Hs. apply H. right.
  exact Hs.
Qed.

(** X9. In a result, the style findings of category [sentence_length]
    are exactly the output of the long-sentence detector, and there are
    at most [sentence_count] of them: the two calls of the tokenizer see
    the same sentences. *)
Theorem long_findings_at_most_sentence_count (env : Env) (text : str)
  (res : AnalysisResult.t) :
  analyze env text = Ok res ->
  _check_sentence_length env text
  = Ok (filter (fun s => str_eqb (StyleSuggestion.category s) (lit "sentence_length"))
          (AnalysisResult.style_suggestions res))
  /\ len (filter (fun s => str_eqb (StyleSuggestion.category s) (lit "sentence_length"))
            (AnalysisResult.style_suggestions res))
     <= AnalysisResult.sentence_count res.
Proof.
  intros Hres.
  apply analyze_ok in Hres as (grammar & style & readability & sentences
                               & _ & Hstyle & _ & Htok & ->).
  cbn [AnalysisResult.style_suggestions AnalysisResult.sentence_count].
  apply analyze_style_ok in Hstyle as (passive & wordy & long & repeated
                                       & Hp & Hw & Hl & Hr & ->).
  rewrite !filter_app.
  rewrite (filter_category_none _ passive), (filter_category_none _ wordy),
    (filter_category_none _ repeated), (filter_category_all _ long).
  - cbn [app]. rewrite app_nil_r. split; [exact Hl | ].
    rewrite (check_sentence_length_eq env text sentences Htok) in Hl. injection Hl as <-.
    pose proof (long_findings_lengths env text sentences 0) as Hmap.
    apply (f_equal (@List.length Z)) in Hmap. rewrite !length_map in Hmap.
    unfold len. rewrite Hmap.
    pose proof (filter_length_le (is_long env) sentences) as Hle.
    apply Nat2Z.inj_le. exact Hle.
  - intros s Hs. destruct (detector_categories env text long s Hs) as (_ & _ & H & _).
    rewrite (H Hl). reflexivity.
  - intros s Hs. destruct (detector_categories env text repeated s Hs) as (_ & _ & _ & H).
    rewrite (H Hr). reflexivity.
  - intros s Hs. destruct (detector_categories env text wordy s Hs) as (_ & H & _).
    rewrite (H Hw). reflexivity.
  - intros s Hs. destruct (detector_categories env text passive s Hs) as (H & _).
    rewrite (H Hp). reflexivity.
Qed.

Lemma long_findings_at_most_sentence_count_witness :
  exists res,
    analyze (example_env ascii_only []) text_long_sentence = Ok res
    /\ len (filter (fun s => str_eqb (StyleSuggestion.category s) (lit "sentence_length"))
              (AnalysisResult.style_suggestions res)) <= 1.
Proof.
  destruct (analyze (example_env ascii_only []) text_long_sentence) as [res | e] eqn:E;
    [ | vm_compute in E; discriminate].
  exists res. split; [reflexivity | ].
  destruct (long_findings_at_most_sentence_count (example_env ascii_only [])
              text_long_sentence res E) as [_ H].
  vm_compute in E. injection E as <-. exact H.
Defined.

Lemma analyze_raises_first_failure_witness :
  analyze (env_with ascii_only (fun _ => Ok [])
             (fun _ => Raise (CapabilityError (lit "LookupError"))) example_textstat)
    text_ball
  = Raise (CapabilityError (lit "LookupError")).
Proof.
  apply analyze_raises_first_failure. right. left. exists []. split; reflexivity.
Defined.

(* ================================================================== *)
(** * The HTTP handler *)
(* ================================================================== *)

Lemma lstrip_nil (U : UnicodeData) (s : str) :
  lstrip U s = [] <-> is_blank U s = true.
Proof.
  unfold is_blank. induction s as [ | c s IH]; simpl.
  - tauto.
  - destruct (isspace U c); simpl; [exact IH | ]. split; discriminate.
Qed.

Lemma py_strip_nil (U : UnicodeData) (s : str) :
  py_strip U s = [] <-> is_blank U s = true.
Proof.
  unfold py_strip. rewrite <- lstrip_nil. split.
  - intros H. apply (f_equal (@rev char)) in H. rewrite rev_involutive in H. simpl in H.
    destruct (lstrip U s) as [ | c l] eqn:E; [reflexivity | ].
    exfalso.
    assert (Hc : isspace U c = false).
    { clear H. induction s as [ | x s IH]; simpl in E; [discriminate | ].
      destruct (isspace U x) eqn:Ex; [apply IH; exact E | ]. congruence. }
    simpl in H. apply lstrip_nil in H. unfold is_blank in H.
    rewrite forallb_app in H. simpl in H. rewrite Hc in H.
    rewrite andb_false_r in H. discriminate.
  - intros ->. reflexivity.
Qed.

(** The test that opens the handler: the text is empty or blank. *)
Lemma rejected_iff_blank (U : UnicodeData) (s : str) :
  negb (truthy s) || negb (truthy (py_strip U s)) = is_blank U s.
Proof.
  destruct (is_blank U s) eqn:E.
  - apply py_strip_nil in E. rewrite E. apply orb_true_r.
  - destruct s as [ | c s]; [discriminate | ]. simpl truthy. simpl negb at 1.
    destruct (py_strip U (c :: s)) eqn:Es; [ | reflexivity].
    apply py_strip_nil in Es. congruence.
Qed.

(** X10. [POST /api/check] answers 400 "Text cannot be empty" exactly
    when the text is empty or made of white space only, which is exactly
    when [analyze] would count no word; it then neither builds nor calls
    the checker, and the global [checker] is left as it was. *)
Theorem blank_text_is_rejected (U : UnicodeData) (exn_str : exn -> str)
  (init : result Checker) (checker : option Checker) (request : server.CheckRequest) :
  (is_blank U (server.text request) = true ->
   server.check_grammar U exn_str init checker request
   = (checker, server.HTTPException 400 (lit "Text cannot be empty")))
  /\ (forall detail,
        snd (server.check_grammar U exn_str init checker request)
        = server.HTTPException 400 detail ->
        is_blank U (server.text request) = true)
  /\ (forall c res,
        unicode (checker_env c) = U ->
        analyze (checker_env c) (server.text request) = Ok res ->
        (is_blank U (server.text request) = true <-> AnalysisResult.word_count res = 0)).
Proof.
  split; [ | split].
  - intros Hb. unfold server.check_grammar. rewrite rejected_iff_blank, Hb. reflexivity.
  - intros detail. unfold server.check_grammar. rewrite rejected_iff_blank.
    destruct (is_blank U (server.text request)); [reflexivity | ].
    destruct checker as [c | ]; simpl.
    + destruct (server.respond c request); discriminate.
    + discriminate.
  - intros c res HU Hres.
    apply analyze_ok in Hres as (grammar & style & readability & sentences
                                 & _ & _ & _ & _ & ->).
    cbn [AnalysisResult.word_count]. rewrite <- HU, <- py_split_nil.
    unfold len. destruct (py_split (checker_env c) (server.text request)); simpl;
      split; intros H; try reflexivity; try lia; discriminate.
Qed.

Lemma blank_text_is_rejected_witness :
  server.check_grammar ascii_only (fun _ => []) (Raise AttributeError)
    (Some (example_checker ascii_only []))
    {| server.text := lit "  "; server.auto_correct := true |}
  = (Some (example_checker ascii_only []),
     server.HTTPException 400 (lit "Text cannot be empty")).
Proof.
  apply (proj1 (blank_text_is_rejected ascii_only (fun _ => []) (Raise AttributeError)
                  (Some (example_checker ascii_only []))
                  {| server.text := lit "  "; server.auto_correct := true |})).
  reflexivity.
Defined.

(** X11. The handler cannot build its checker: it calls the constructor
    with the keyword [use_language_tool], which [__init__(self)] does not
    take.  With no checker installed every request with a non-blank text
    is answered 500 and the global stays [None], whatever LanguageTool
    would do; the startup hook fails on the same call. *)
Theorem no_checker_means_server_error (U : UnicodeData) (exn_str : exn -> str)
  (init : result Checker) (request : server.CheckRequest) :
  is_blank U (server.text request) = false ->
  (exists msg,
     server.check_grammar U exn_str init None request
     = (None, server.HTTPException 500 (lit "Error processing text: " ++ msg)))
  /\ exists msg, server.lifespan_startup init = Failed (TypeError msg).
Proof.
  intros Hb. split.
  - unfold server.check_grammar. rewrite rejected_iff_blank, Hb.
    cbn [GrammarChecker_call server.internal_error server.exception_str].
    eexists. reflexivity.
  - unfold server.lifespan_startup. cbn [GrammarChecker_call]. eexists. reflexivity.
Qed.

Lemma no_checker_means_server_error_witness :
  exists msg,
    server.check_grammar ascii_only (fun _ => [])
      (Ok (example_checker ascii_only [])) None
      {| server.text := text_ball; server.auto_correct := false |}
    = (None, server.HTTPException 500 (lit "Error processing text: " ++ msg)).
Proof.
  apply (proj1 (no_checker_means_server_error ascii_only (fun _ => [])
                  (Ok (example_checker ascii_only []))
                  {| server.text := text_ball; server.auto_correct := false |}
                  eq_refl)).
Defined.

(** X12. With a checker installed and a non-blank text, the handler
    answers with a response exactly when [analyze] succeeds and, if
    [auto_correct] is set, [correct_text] succeeds too; otherwise it
    answers 500 with the message of the first of the two to fail.  The
    response carries the text, the counts and the score of the analysis
    and one entry per finding; [corrected_text] is absent exactly when
    [auto_correct] is off; the word count is at least 1 and the score is
    within [0, 100]. *)
Theorem installed_checker_outcome (U : UnicodeData) (exn_str : exn -> str)
  (init : result Checker) (c : Checker) (request : server.CheckRequest) :
  is_blank U (server.text request) = false ->
  unicode (checker_env c) = U ->
  fst (server.check_grammar U exn_str init (Some c) request) = Some c
  /\ match analyze (checker_env c) (server.text request) with
     | Raise e =>
         snd (server.check_grammar U exn_str init (Some c) request)
         = server.HTTPException 500 (lit "Error processing text: " ++ exn_str e)
     | Ok res =>
         match (if server.auto_correct request
                then correct_text c (server.text request) else Ok []) with
         | Raise e =>
             snd (server.check_grammar U exn_str init (Some c) request)
             = server.HTTPException 500 (lit "Error processing text: " ++ exn_str e)
         | Ok corrected =>
             exists response,
               snd (server.check_grammar U exn_str init (Some c) request)
               = server.Return response
               /\ server.original_text response = server.text request
               /\ server.corrected_text response
                  = (if server.auto_correct request then Some corrected else None)
               /\ List.length (server.grammar_issues response)
                  = List.length (AnalysisResult.grammar_issues res)
               /\ List.length (server.style_suggestions response)
                  = List.length (AnalysisResult.style_suggestions res)
               /\ server.character_count response = len (server.text request)
               /\ server.sentence_count response = AnalysisResult.sentence_count res
               /\ 1 <= server.word_count response
               /\ server.score response = AnalysisResult.score res
               /\ (0.0 <=? server.score response)%float = true
               /\ (server.score response <=? 100.0)%float = true
         end
     end.
Proof.
  intros Hb HU. unfold server.check_grammar. rewrite rejected_iff_blank, Hb.
  cbn [fst snd]. split; [reflexivity | ].
  unfold server.respond.
  destruct (analyze (checker_env c) (server.text request)) as [res | e] eqn:Hres;
    cbn [bind]; [ | reflexivity].
  pose proof (analyze_statistics _ _ _ Hres) as (Ht & Hc & Hw & Hw0 & _).
  apply analyze_ok in Hres as (grammar & style & readability & sentences
                               & _ & _ & _ & _ & Eres).
  destruct (server.auto_correct request).
  - destruct (correct_text c (server.text request)) as [corrected | e]; cbn [bind];
      [ | reflexivity].
    eexists. split; [reflexivity | ].
    cbn [server.original_text server.corrected_text server.grammar_issues
         server.style_suggestions server.character_count server.sentence_count
         server.word_count server.score].
    rewrite !length_map.
    repeat (split; [first [reflexivity | assumption] | ]).
    split; [ | split; [reflexivity | ]].
    + assert (AnalysisResult.word_count res <> 0); [ | lia].
      intros H0. apply Hw in H0. rewrite HU in H0. congruence.
    + rewrite Eres. cbn [AnalysisResult.score]. apply calculate_score_bounds.
  - cbn [bind]. eexists. split; [reflexivity | ].
    cbn [server.original_text server.corrected_text server.grammar_issues
         server.style_suggestions server.character_count server.sentence_count
         server.word_count server.score].
    rewrite !length_map.
    repeat (split; [first [reflexivity | assumption] | ]).
    split; [ | split; [reflexivity | ]].
    + assert (AnalysisResult.word_count res <> 0); [ | lia].
      intros H0. apply Hw in H0. rewrite HU in H0. congruence.
    + rewrite Eres. cbn [AnalysisResult.score]. apply calculate_score_bounds.
Qed.

Lemma installed_checker_outcome_witness :
  exists response,
    snd (server.check_grammar ascii_only (fun _ => []) (Raise AttributeError)
           (Some (example_checker ascii_only []))
           {| server.text := text_ball; server.auto_correct := true |})
    = server.Return response
    /\ server.corrected_text response = Some text_ball
    /\ 1 <= server.word_count response.
Proof.
  pose proof (installed_checker_outcome ascii_only (fun _ => []) (Raise AttributeError)
                (example_checker ascii_only [])
                {| server.text := text_ball; server.auto_correct := true |}
                eq_refl eq_refl) as [_ H].
  vm_compute in H.
  destruct H as (response & Hr & _ & Hc & _ & _ & _ & _ & Hw & _).
  exists response. split; [exact Hr | ]. split; [exact Hc | exact Hw].
Defined.

(* ================================================================== *)
(** * Signs and magnitudes of binary64 results *)
(* ================================================================== *)

Lemma iter_pos_invariant {A : Type} (P : A -> Prop) (f : A -> A) :
  (forall x, P x -> P (f x)) -> forall n x, P x -> P (iter_pos f n x).
Proof.
  intros Hf. induction n as [n IH | n IH | ]; intros x Hx; simpl; auto.
Qed.

Lemma shr_1_nonneg (mrs : shr_record) : 0 <= shr_m mrs -> 0 <= shr_m (shr_1 mrs).
Proof.
  destruct mrs as [m r s]. simpl. destruct m as [ | [p | p | ] | p]; simpl; lia.
Qed.

Lemma shr_record_of_loc_m (m : Z) (l : location) : shr_m (shr_record_of_loc m l) = m.
Proof. destruct l as [ | [ | | ]]; reflexivity. Qed.

Lemma shr_fexp_nonneg (m e : Z) (l : location) :
  0 <= m -> 0 <= shr_m (fst (shr_fexp prec emax m e l)).
Proof.
  intros Hm. unfold shr_fexp, shr.
  destruct (fexp prec emax (Zdigits2 m + e) - e); simpl;
    try (rewrite shr_record_of_loc_m; exact Hm).
  apply iter_pos_invariant; [apply shr_1_nonneg | ].
  rewrite shr_record_of_loc_m. exact Hm.
Qed.

Lemma round_nearest_even_bounds (m : Z) (l : location) :
  m <= round_nearest_even m l <= m + 1.
Proof.
  destruct l as [ | [ | | ]]; simpl; try lia. destruct (Z.even m); lia.
Qed.

(** A rounded result carries the sign it was given. *)
Lemma binary_round_aux_sign (s : bool) (m e : Z) (l : location) :
  0 <= m ->
  match binary_round_aux prec emax s m e l with
  | S754_zero s' | S754_infinity s' | S754_finite s' _ _ => s' = s
  | S754_nan => False
  end.
Proof.
  intros Hm. unfold binary_round_aux.
  pose proof (shr_fexp_nonneg m e l Hm) as H1.
  destruct (shr_fexp prec emax m e l) as [mrs' e']. simpl in H1.
  pose proof (round_nearest_even_bounds (shr_m mrs') (loc_of_shr_record mrs')) as Hr.
  pose proof (shr_fexp_nonneg (round_nearest_even (shr_m mrs') (loc_of_shr_record mrs'))
                e' loc_Exact ltac:(lia)) as H2.
  destruct (shr_fexp prec emax _ e' loc_Exact) as [mrs'' e'']. simpl in H2.
  destruct (shr_m mrs'') as [ | p | p]; [reflexivity | | lia].
  destruct (e'' <=? emax - prec); reflexivity.
Qed.

Lemma binary_round_sign (s : bool) (m : positive) (e : Z) :
  match binary_round prec emax s m e with
  | S754_zero s' | S754_infinity s' | S754_finite s' _ _ => s' = s
  | S754_nan => False
  end.
Proof.
  unfold binary_round. destruct (shl_align m e _) as [mz ez].
  apply binary_round_aux_sign. lia.
Qed.

Lemma binary_round_nonpositive (m : positive) (e : Z) :
  nonpositive (binary_round prec emax true m e) = true.
Proof.
  pose proof (binary_round_sign true m e) as H.
  destruct (binary_round prec emax true m e) as [s | s | | s m' e'];
    try subst s; try reflexivity. destruct H.
Qed.

Lemma binary_round_aux_nonnegative (m e : Z) (l : location) :
  0 <= m -> nonnegative (binary_round_aux prec emax false m e l) = true.
Proof.
  intros Hm. pose proof (binary_round_aux_sign false m e l Hm) as H.
  destruct (binary_round_aux prec emax false m e l) as [s | s | | s m' e'];
    try subst s; try reflexivity. destruct H.
Qed.

(** Zero or less, minus zero or more, is zero or less. *)
Lemma SFsub_nonpositive (x y : spec_float) :
  nonpositive x = true -> nonnegative y = true ->
  nonpositive (SFsub prec emax x y) = true.
Proof.
  destruct x as [sx | sx | | sx mx ex], y as [sy | sy | | sy my ey]; simpl;
    try discriminate; destruct sx, sy; try discriminate; try reflexivity.
  intros _ _. apply binary_round_nonpositive.
Qed.

Lemma sub_nonpositive (x y : float) :
  nonpositive (Prim2SF x) = true -> nonnegative (Prim2SF y) = true ->
  nonpositive (Prim2SF (x - y)) = true.
Proof.
  intros Hx Hy. rewrite FloatAxioms.sub_spec. apply SFsub_nonpositive; assumption.
Qed.

Lemma of_uint63_nonnegative (i : int) : nonnegative (Prim2SF (of_uint63 i)) = true.
Proof.
  rewrite FloatAxioms.of_uint63_spec. pose proof (Uint63.to_Z_bounded i) as Hb.
  destruct (Uint63.to_Z i) as [ | p | p]; simpl; [reflexivity | | lia].
  unfold binary_round. destruct (shl_align p 0 _) as [mz ez].
  apply binary_round_aux_nonnegative. lia.
Qed.

Lemma mul_nonnegative (x y : float) (my : positive) (ey : Z) :
  nonnegative (Prim2SF x) = true -> Prim2SF y = S754_finite false my ey ->
  nonnegative (Prim2SF (x * y)) = true.
Proof.
  intros Hx Hy. rewrite FloatAxioms.mul_spec, Hy. unfold FloatAxioms.SF64mul.
  destruct (Prim2SF x) as [sx | sx | | sx mx ex]; simpl in *;
    try discriminate; try reflexivity; destruct sx; try discriminate; try reflexivity.
  apply binary_round_aux_nonnegative. lia.
Qed.

(** ** Magnitudes *)

Lemma digits2_pos_bounds (m : positive) :
  2 ^ (Zpos (digits2_pos m) - 1) <= Zpos m < 2 ^ Zpos (digits2_pos m).
Proof.
  induction m as [m IH | m IH | ]; cbn [digits2_pos].
  - rewrite Pos2Z.inj_succ. replace (Z.succ (Zpos (digits2_pos m)) - 1)
      with (Z.succ (Zpos (digits2_pos m) - 1)) by lia.
    rewrite !Z.pow_succ_r by lia. lia.
  - rewrite Pos2Z.inj_succ. replace (Z.succ (Zpos (digits2_pos m)) - 1)
      with (Z.succ (Zpos (digits2_pos m) - 1)) by lia.
    rewrite !Z.pow_succ_r by lia. lia.
  - simpl. lia.
Qed.

Lemma digits2_pos_lower (m : positive) (j : Z) :
  0 <= j -> 2 ^ j <= Zpos m -> j < Zpos (digits2_pos m).
Proof.
  intros Hj H. pose proof (digits2_pos_bounds m) as [_ Hu].
  apply (Z.pow_lt_mono_r_iff 2); lia.
Qed.

Lemma shr_1_half (mrs : shr_record) :
  0 <= shr_m mrs -> shr_m (shr_1 mrs) = shr_m mrs / 2.
Proof.
  destruct mrs as [m r s]. simpl. intros Hm.
  destruct m as [ | [p | p | ] | p]; simpl shr_m; try lia;
    try reflexivity.
  - rewrite Pos2Z.inj_xI. apply (Z.div_unique _ _ _ 1); lia.
  - rewrite Pos2Z.inj_xO. apply (Z.div_unique _ _ _ 0); lia.
Qed.

Lemma iter_shr_1_div (p : positive) : forall mrs,
  0 <= shr_m mrs ->
  shr_m (iter_pos shr_1 p mrs) = shr_m mrs / 2 ^ Zpos p.
Proof.
  induction p as [p IH | p IH | ]; intros mrs Hm; cbn [iter_pos].
  - assert (H1 : 0 <= shr_m (shr_1 mrs)) by (apply shr_1_nonneg; exact Hm).
    assert (H2 : 0 <= shr_m (iter_pos shr_1 p (shr_1 mrs)))
      by (apply iter_pos_invariant; [apply shr_1_nonneg | exact H1]).
    rewrite IH by exact H2. rewrite IH by exact H1. rewrite shr_1_half by exact Hm.
    assert (Hp : 0 < 2 ^ Zpos p) by (apply Z.pow_pos_nonneg; lia).
    rewrite !Z.div_div by lia.
    f_equal. replace (Zpos p~1) with (1 + Zpos p + Zpos p) by lia.
    rewrite !Z.pow_add_r by lia. lia.
  - assert (H2 : 0 <= shr_m (iter_pos shr_1 p mrs))
      by (apply iter_pos_invariant; [apply shr_1_nonneg | exact Hm]).
    rewrite IH by exact H2. rewrite IH by exact Hm.
    assert (Hp : 0 < 2 ^ Zpos p) by (apply Z.pow_pos_nonneg; lia).
    rewrite !Z.div_div by lia.
    f_equal. replace (Zpos p~0) with (Zpos p + Zpos p) by lia.
    rewrite !Z.pow_add_r by lia. lia.
  - rewrite shr_1_half by exact Hm. reflexivity.
Qed.

(** Rounding a mantissa of 53 bits or more in the normal range: the
    first shift leaves 53 bits and moves the exponent accordingly. *)
Lemma shr_fexp_big (M : positive) (E : Z) (l : location) :
  53 <= Zpos (digits2_pos M) ->
  -1074 <= Zpos (digits2_pos M) + E - 53 ->
  snd (shr_fexp prec emax (Zpos M) E l) = Zpos (digits2_pos M) + E - 53
  /\ 2 ^ 52 <= shr_m (fst (shr_fexp prec emax (Zpos M) E l)).
Proof.
  intros Hd Hn. pose proof (digits2_pos_bounds M) as [Hlo _].
  unfold shr_fexp, shr, fexp, emin. cbn [Zdigits2].
  change prec with 53. change emax with 1024.
  set (d := Zpos (digits2_pos M)) in *.
  replace (Z.max (d + E - 53) (3 - 1024 - 53) - E) with (d - 53) by lia.
  destruct (d - 53) as [ | p | p] eqn:Ep; cbn [fst snd]; try lia.
  - split; [lia | ]. rewrite shr_record_of_loc_m.
    replace (d - 1) with 52 in Hlo by lia. exact Hlo.
  - split; [lia | ].
    rewrite iter_shr_1_div by (rewrite shr_record_of_loc_m; lia).
    rewrite shr_record_of_loc_m.
    apply Z.div_le_lower_bound; [apply Z.pow_pos_nonneg; lia | ].
    rewrite <- Z.pow_add_r by lia.
    replace (Zpos p + 52) with (d - 1) by lia. exact Hlo.
Qed.

Lemma binary_round_aux_big (s : bool) (M : positive) (E : Z) :
  53 <= Zpos (digits2_pos M) ->
  -1074 <= Zpos (digits2_pos M) + E - 53 ->
  match binary_round_aux prec emax s (Zpos M) E loc_Exact with
  | S754_finite s' m e =>
      s' = s /\ 2 ^ 52 <= Zpos m /\ Zpos (digits2_pos M) + E - 53 <= e
  | S754_infinity s' => s' = s
  | _ => False
  end.
Proof.
  intros Hd Hn. unfold binary_round_aux.
  pose proof (shr_fexp_big M E loc_Exact Hd Hn) as [He1 Hm1].
  destruct (shr_fexp prec emax (Zpos M) E loc_Exact) as [mrs' e']. cbn [fst snd] in *.
  pose proof (round_nearest_even_bounds (shr_m mrs') (loc_of_shr_record mrs')) as Hr.
  set (m2 := round_nearest_even (shr_m mrs') (loc_of_shr_record mrs')) in *.
  assert (Hpos : 0 < 2 ^ 52) by reflexivity.
  destruct m2 as [ | p2 | p2] eqn:E2; try lia.
  assert (Hd2 : 52 < Zpos (digits2_pos p2)) by (apply digits2_pos_lower; lia).
  pose proof (shr_fexp_big p2 e' loc_Exact ltac:(lia) ltac:(lia)) as [He2 Hm2].
  destruct (shr_fexp prec emax (Zpos p2) e' loc_Exact) as [mrs'' e'']. cbn [fst snd] in *.
  destruct (shr_m mrs'') as [ | m | m]; try lia.
  destruct (e'' <=? emax - prec); [ | reflexivity].
  split; [reflexivity | ]. split; [exact Hm2 | lia].
Qed.

Lemma iter_xO_digits (m d : positive) :
  Zpos (digits2_pos (Pos.iter xO m d)) = Zpos (digits2_pos m) + Zpos d.
Proof.
  induction d as [ | d IH] using Pos.peano_ind.
  - simpl. lia.
  - rewrite Pos.iter_succ. cbn [digits2_pos]. lia.
Qed.

Lemma iter_xO_double (m d : positive) : 2 * Zpos m <= Zpos (Pos.iter xO m d).
Proof.
  induction d as [ | d IH] using Pos.peano_ind.
  - simpl. lia.
  - rewrite Pos.iter_succ. lia.
Qed.

(** The binary64 number of an integer of at least 512: 53 bits of
    mantissa and an exponent of at least -43. *)
Lemma float_of_int_large (n : Z) :
  512 <= n < 2 ^ 63 ->
  match Prim2SF (float_of_int n) with
  | S754_finite false m e => 2 ^ 52 <= Zpos m /\ -43 <= e
  | S754_infinity false => True
  | _ => False
  end.
Proof.
  intros Hn. unfold float_of_int. rewrite FloatAxioms.of_uint63_spec.
  rewrite Uint63.of_Z_spec.
  rewrite Z.mod_small by (change wB with (2 ^ 63); lia).
  destruct n as [ | p | p]; try lia. cbn [binary_normalize]. unfold binary_round.
  assert (Hd : 9 < Zpos (digits2_pos p)) by (apply digits2_pos_lower; lia).
  assert (Hgoal : forall mz ez,
             53 <= Zpos (digits2_pos mz) ->
             Zpos (digits2_pos mz) + ez = Zpos (digits2_pos p) ->
             match binary_round_aux prec emax false (Zpos mz) ez loc_Exact with
             | S754_finite false m e => 2 ^ 52 <= Zpos m /\ -43 <= e
             | S754_infinity false => True
             | _ => False
             end).
  { intros mz ez H53 Hsum.
    pose proof (binary_round_aux_big false mz ez H53 ltac:(lia)) as H.
    destruct (binary_round_aux prec emax false (Zpos mz) ez loc_Exact)
      as [s | s | | s m e]; try (destruct H; fail).
    - subst s. exact I.
    - destruct H as (-> & Hm & He). split; [exact Hm | lia]. }
  unfold shl_align, fexp, emin. change prec with 53. change emax with 1024.
  set (d := Zpos (digits2_pos p)) in *.
  replace (Z.max (d + 0 - 53) (3 - 1024 - 53) - 0) with (d - 53) by lia.
  destruct (d - 53) as [ | q | q] eqn:Eq.
  - apply Hgoal; fold d; lia.
  - apply Hgoal; fold d; lia.
  - apply Hgoal; rewrite iter_xO_digits; fold d; lia.
Qed.

(** 0.3 times an integer of at least 512 is at least 128. *)
Lemma style_deduction_large (n : Z) :
  512 <= n < 2 ^ 63 ->
  at_least_128 (Prim2SF (float_of_int n * 0.3)) = true.
Proof.
  intros Hn. pose proof (float_of_int_large n Hn) as H.
  rewrite FloatAxioms.mul_spec. unfold FloatAxioms.SF64mul.
  destruct (Prim2SF (float_of_int n)) as [s | s | | s m e]; try (destruct H; fail).
  - destruct s; [destruct H | reflexivity].
  - destruct s; [destruct H | ]. destruct H as [Hm He].
    change (Prim2SF 0.3) with (S754_finite false 5404319552844595 (-54)).
    cbn [SFmul xorb].
    assert (Hprod : 2 ^ 104 <= Zpos (m * 5404319552844595)).
    { rewrite Pos2Z.inj_mul. change (2 ^ 104) with (2 ^ 52 * 2 ^ 52).
      apply Z.mul_le_mono_nonneg; lia. }
    assert (Hd : 104 < Zpos (digits2_pos (m * 5404319552844595)))
      by (apply digits2_pos_lower; [lia | exact Hprod]).
    pose proof (binary_round_aux_big false (m * 5404319552844595) (e + -54)
                  ltac:(lia) ltac:(lia)) as Hb.
    destruct (binary_round_aux prec emax false _ (e + -54) loc_Exact)
      as [s' | s' | | s' m' e']; try (destruct Hb; fail).
    + subst s'. reflexivity.
    + destruct Hb as (-> & Hm' & He'). cbn [at_least_128].
      apply andb_true_iff. split; [apply Z.leb_le; exact Hm' | apply Z.leb_le; lia].
Qed.

(** A number below 128 minus one of at least 128 is negative. *)
Lemma SFsub_below_128 (x y : spec_float) :
  below_128 x = true -> at_least_128 y = true ->
  nonpositive (SFsub prec emax x y) = true.
Proof.
  intros Hx Hy.
  destruct x as [sx | sx | | [ | ] mx ex]; try discriminate Hx;
    destruct y as [sy | [ | ] | | [ | ] my ey]; try discriminate Hy;
    try reflexivity.
  cbn [below_128 at_least_128] in Hx, Hy.
  apply andb_true_iff in Hx as [Hmx Hex], Hy as [Hmy Hey].
  apply Z.ltb_lt in Hmx. apply Z.leb_le in Hex, Hmy, Hey.
  cbn [SFsub]. rewrite Z.min_l by lia. unfold shl_align.
  rewrite Z.sub_diag. cbn [fst].
  destruct (ex - ey) as [ | d | d] eqn:Ed; try lia. cbn [fst cond_Zopp].
  pose proof (iter_xO_double my d) as Hdbl.
  change (2 ^ 53) with (2 * 2 ^ 52) in Hmx.
  destruct (Zpos mx - Zpos (Pos.iter xO my d)) as [ | q | q] eqn:Eq; try lia.
  cbn [binary_normalize]. apply binary_round_nonpositive.
Qed.

Lemma sub_below_128 (x y : float) :
  below_128 (Prim2SF x) = true -> at_least_128 (Prim2SF y) = true ->
  nonpositive (Prim2SF (x - y)) = true.
Proof.
  intros Hx Hy. rewrite FloatAxioms.sub_spec. apply SFsub_below_128; assumption.
Qed.

(** ** The scorer on a running score of zero or less *)

Lemma clamp_nonpositive (s : float) :
  nonpositive (Prim2SF s) = true -> py_max 0.0 (py_min 100.0 s) = 0.0%float.
Proof.
  intros Hs. unfold py_min, py_max.
  assert (Hlt : (s <? 100.0)%float = true).
  { rewrite FloatAxioms.ltb_spec.
    destruct (Prim2SF s) as [sx | [ | ] | | [ | ] mx ex]; try discriminate Hs;
      reflexivity. }
  rewrite Hlt.
  assert (Hgt : (0.0 <? s)%float = false).
  { rewrite FloatAxioms.ltb_spec.
    destruct (Prim2SF s) as [sx | [ | ] | | [ | ] mx ex]; try discriminate Hs;
      reflexivity. }
  rewrite Hgt. reflexivity.
Qed.

Lemma deduct_issue_nonpositive (s : float) (g : GrammarIssue.t) :
  nonpositive (Prim2SF s) = true -> nonpositive (Prim2SF (deduct_issue s g)) = true.
Proof.
  intros Hs. unfold deduct_issue.
  destruct (str_eqb (GrammarIssue.severity g) (lit "error"));
    apply sub_nonpositive; (exact Hs || reflexivity).
Qed.

Lemma grammar_loop_nonpositive (gs : list GrammarIssue.t) : forall s,
  nonpositive (Prim2SF s) = true ->
  nonpositive (Prim2SF (fold_left deduct_issue gs s)) = true.
Proof.
  induction gs as [ | g gs IH]; intros s Hs; simpl; [exact Hs | ].
  apply IH. apply deduct_issue_nonpositive. exact Hs.
Qed.

(** The rest of the scorer once the style deduction has brought the
    running score to zero or less. *)
Lemma band_and_clamp_nonpositive (s : float) (low high : bool) :
  nonpositive (Prim2SF s) = true ->
  py_max 0.0 (py_min 100.0 (if low then (s - 5)%float
                            else if high then (s - 2)%float else s))
  = 0.0%float.
Proof.
  intros Hs. apply clamp_nonpositive.
  destruct low; [apply sub_nonpositive; (exact Hs || reflexivity) | ].
  destruct high; [apply sub_nonpositive; (exact Hs || reflexivity) | exact Hs].
Qed.

Lemma score_tail_nonpositive (g : float) (n : Z) (low high : bool) :
  nonpositive (Prim2SF g) = true -> score_tail g n low high = 0.0%float.
Proof.
  intros Hg. unfold score_tail. cbv zeta. apply band_and_clamp_nonpositive.
  apply sub_nonpositive; [exact Hg | ].
  apply (mul_nonnegative _ _ 5404319552844595 (-54)); [ | reflexivity].
  apply of_uint63_nonnegative.
Qed.

(** The grid points, from 100 down to 0, are below 128. *)
Lemma grid_below_128_table :
  forallb (fun k => below_128 (Prim2SF (grid k))) (zs_upto 201) = true.
Proof. vm_cast_no_check (eq_refl true). Qed.

Lemma score_tail_large (k n : Z) (low high : bool) :
  0 <= k <= 200 -> 512 <= n < 2 ^ 63 ->
  score_tail (grid k) n low high = 0.0%float.
Proof.
  intros Hk Hn. unfold score_tail. cbv zeta. apply band_and_clamp_nonpositive.
  apply sub_below_128; [ | apply style_deduction_large; exact Hn].
  pose proof grid_below_128_table as T. rewrite forallb_forall in T.
  apply T. apply in_zs_upto. change (Z.of_nat 201) with 201. lia.
Qed.

(** Past 100 points of grammar deductions the running score is zero or
    less. *)
Lemma grid_nonpositive_table :
  forallb (fun k => nonpositive (Prim2SF (grid (200 + k)))) (zs_upto 5) = true.
Proof. vm_cast_no_check (eq_refl true). Qed.

Lemma grammar_loop_over (gs : list GrammarIssue.t) : forall k,
  0 <= k <= 204 -> 200 <= k + half_points gs ->
  nonpositive (Prim2SF (fold_left deduct_issue gs (grid k))) = true.
Proof.
  induction gs as [ | g gs IH]; intros k Hk Hsum;
    cbn [half_points fold_right fold_left] in *.
  - pose proof grid_nonpositive_table as T. rewrite forallb_forall in T.
    replace k with (200 + (k - 200)) by lia.
    apply T. apply in_zs_upto. change (Z.of_nat 5) with 5. lia.
  - fold (half_points gs) in *.
    pose proof (half_points_nonneg gs) as Hn.
    destruct (Z_le_gt_dec 200 k) as [Hge | Hlt].
    + apply grammar_loop_nonpositive. apply deduct_issue_nonpositive.
      pose proof grid_nonpositive_table as T. rewrite forallb_forall in T.
      replace k with (200 + (k - 200)) by lia.
      apply T. apply in_zs_upto. change (Z.of_nat 5) with 5. lia.
    + assert (Hg : 1 <= issue_tenths g / 5 <= 4).
      { destruct (issue_tenths_cases g) as [[_ ->] | [_ ->]];
          [change (20 / 5) with 4 | change (5 / 5) with 1]; lia. }
      rewrite deduct_issue_grid by lia.
      apply IH; lia.
Qed.

(* ================================================================== *)
(** * The score against the exact score *)
(* ================================================================== *)

(** Rounding to the nearest integer finds an integer that is less than
    half a unit away. *)
Lemma round_half_even_near (num den t : Z) :
  0 < den -> 2 * Z.abs (num - t * den) < den -> round_half_even num den = t.
Proof.
  intros Hden Hnear. unfold round_half_even.
  destruct (Z_le_gt_dec 0 (num - t * den)) as [Hr | Hr].
  - assert (Hq : num / den = t)
      by (symmetry; apply (Z.div_unique num den t (num - t * den)); lia).
    assert (Hm : num mod den = num - t * den)
      by (symmetry; apply (Z.mod_unique num den t (num - t * den)); lia).
    cbv zeta. rewrite Hq, Hm.
    destruct (Z.compare_spec (2 * (num - t * den)) den); lia.
  - assert (Hq : num / den = t - 1)
      by (symmetry; apply (Z.div_unique num den (t - 1) (num - t * den + den)); lia).
    assert (Hm : num mod den = num - t * den + den)
      by (symmetry; apply (Z.mod_unique num den (t - 1) (num - t * den + den)); lia).
    cbv zeta. rewrite Hq, Hm.
    destruct (Z.compare_spec (2 * (num - t * den + den)) den); lia.
Qed.

(** A positive number within 2e-14 of [t / 10] is shown as [t / 10]. *)
Lemma format_1f_close (x : float) (t : Z) :
  0 <= t ->
  float_close x t 10 (5 * 10 ^ 13) = true ->
  positive_sign x = true ->
  format_1f x = show_tenths t.
Proof.
  intros Ht. unfold float_close, positive_sign, format_1f.
  change (5 * 10 ^ 13) with 50000000000000.
  destruct (Prim2SF x) as [[ | ] | s | | [ | ] m e]; try discriminate.
  - intros H _. apply Z.leb_le in H.
    assert (t = 0) by lia. subst t. reflexivity.
  - intros H _. cbn [app]. f_equal. unfold tenths.
    destruct (0 <=? e) eqn:Ee.
    + apply Z.leb_le in H. apply Z.leb_le in Ee.
      assert (Hp : 0 < 2 ^ e) by (apply Z.pow_pos_nonneg; lia).
      lia.
    + apply Z.leb_le in H. apply Z.leb_gt in Ee.
      assert (Hp : 0 < 2 ^ (- e)) by (apply Z.pow_pos_nonneg; lia).
      apply round_half_even_near; [exact Hp | ].
      replace (Zpos m * 10 - t * 2 ^ (- e)) with (10 * Zpos m - t * 2 ^ (- e)) by lia.
      lia.
Qed.

(** The order of binary64 numbers is transitive. *)
Lemma SFltb_trans (x y z : spec_float) :
  SFltb x y = true -> SFltb y z = true -> SFltb x z = true.
Proof.
  unfold SFltb.
  destruct x as [[ | ] | [ | ] | | [ | ] m1 e1], y as [[ | ] | [ | ] | | [ | ] m2 e2],
    z as [[ | ] | [ | ] | | [ | ] m3 e3];
    cbn [SFcompare]; try discriminate; try reflexivity;
    change (Pos.compare_cont Eq m1 m2) with (m1 ?= m2)%positive;
    change (Pos.compare_cont Eq m2 m3) with (m2 ?= m3)%positive;
    change (Pos.compare_cont Eq m1 m3) with (m1 ?= m3)%positive;
    destruct (Z.compare_spec e1 e2), (Z.compare_spec e2 e3), (Z.compare_spec e1 e3);
    try lia; try discriminate; try reflexivity;
    destruct (Pos.compare_spec m1 m2), (Pos.compare_spec m2 m3),
      (Pos.compare_spec m1 m3);
    try lia; try discriminate; try reflexivity.
Qed.

Lemma ltb_trans (x y z : float) :
  (x <? y)%float = true -> (y <? z)%float = true -> (x <? z)%float = true.
Proof. rewrite !FloatAxioms.ltb_spec. apply SFltb_trans. Qed.

(** Every configuration with up to 100 points of grammar deductions and
    up to 333 style findings, checked by running the scorer. *)
Lemma score_facts_table :
  forallb (fun k =>
    forallb (fun n =>
      forallb (fun low =>
        forallb (fun high =>
          score_facts (5 * k + 3 * n + band_tenths low high)
            (score_tail (grid k) n low high))
          [true; false])
        [true; false])
      (zs_upto 334))
    (zs_upto 201) = true.
Proof. vm_cast_no_check (eq_refl true). Qed.

(** From 334 to 511 style findings the score is 0.0. *)
Lemma score_zero_table :
  forallb (fun k =>
    forallb (fun n =>
      forallb (fun low =>
        forallb (fun high =>
          PrimFloat.Leibniz.eqb (score_tail (grid k) (334 + n) low high) 0.0)
          [true; false])
        [true; false])
      (zs_upto 178))
    (zs_upto 201) = true.
Proof. vm_cast_no_check (eq_refl true). Qed.

Lemma marks_table :
  forallb (fun j => (mark j <? mark (j + 1))%float) (zs_upto 2001) = true.
Proof. vm_cast_no_check (eq_refl true). Qed.

Lemma in_bools (b : bool) : In b [true; false].
Proof. destruct b; simpl; auto. Qed.

(** The score is 0.0, past 100 points of deductions, or one of the
    scores of the table. *)
Lemma score_shape (gs : list GrammarIssue.t) (ss : list StyleSuggestion.t)
  (r : ReadabilityMetrics.t) :
  len ss < 2 ^ 63 ->
  (1000 < exact_deductions gs ss r /\ _calculate_score gs ss r = 0.0%float)
  \/ exists k n low high,
       0 <= k <= 200 /\ 0 <= n <= 333
       /\ exact_deductions gs ss r = 5 * k + 3 * n + band_tenths low high
       /\ _calculate_score gs ss r = score_tail (grid k) n low high.
Proof.
  intros Hlen. rewrite score_as_tail. unfold exact_deductions.
  rewrite half_points_tenths.
  change (readability_tenths r)
    with (band_tenths (ReadabilityMetrics.flesch_reading_ease r <? 30)%float
                      (90 <? ReadabilityMetrics.flesch_reading_ease r)%float).
  set (low := (ReadabilityMetrics.flesch_reading_ease r <? 30)%float).
  set (high := (90 <? ReadabilityMetrics.flesch_reading_ease r)%float).
  pose proof (half_points_nonneg gs) as Hk. pose proof (len_nonneg ss) as Hn.
  assert (Hb : 0 <= band_tenths low high) by (destruct low, high; simpl; lia).
  destruct (Z_le_gt_dec (half_points gs) 200) as [Hle | Hgt].
  - rewrite <- grid_zero. rewrite grammar_loop_grid by lia. cbn [Z.add].
    destruct (Z_le_gt_dec (len ss) 333) as [Hs | Hs].
    + right. exists (half_points gs), (len ss), low, high. auto.
    + left. split; [lia | ].
      destruct (Z_le_gt_dec 512 (len ss)) as [Hbig | Hmid].
      * apply score_tail_large; lia.
      * pose proof score_zero_table as T. rewrite forallb_forall in T.
        specialize (T (half_points gs)
                      ltac:(apply in_zs_upto; change (Z.of_nat 201) with 201; lia)).
        rewrite forallb_forall in T.
        specialize (T (len ss - 334)
                      ltac:(apply in_zs_upto; change (Z.of_nat 178) with 178; lia)).
        rewrite forallb_forall in T. specialize (T low (in_bools low)).
        rewrite forallb_forall in T. specialize (T high (in_bools high)).
        replace (334 + (len ss - 334)) with (len ss) in T by lia.
        apply float_eq_dec_true. exact T.
  - left. split; [lia | ].
    apply score_tail_nonpositive. rewrite <- grid_zero.
    apply grammar_loop_over; lia.
Qed.

Lemma score_table_lookup (k n : Z) (low high : bool) :
  0 <= k <= 200 -> 0 <= n <= 333 ->
  score_facts (5 * k + 3 * n + band_tenths low high) (score_tail (grid k) n low high)
  = true.
Proof.
  intros Hk Hn. pose proof score_facts_table as T. rewrite forallb_forall in T.
  specialize (T k ltac:(apply in_zs_upto; change (Z.of_nat 201) with 201; lia)).
  rewrite forallb_forall in T.
  specialize (T n ltac:(apply in_zs_upto; change (Z.of_nat 334) with 334; lia)).
  rewrite forallb_forall in T. specialize (T low (in_bools low)).
  rewrite forallb_forall in T. exact (T high (in_bools high)).
Qed.

Lemma score_facts_hold (gs : list GrammarIssue.t) (ss : list StyleSuggestion.t)
  (r : ReadabilityMetrics.t) :
  len ss < 2 ^ 63 ->
  score_facts (exact_deductions gs ss r) (_calculate_score gs ss r) = true.
Proof.
  intros Hlen.
  destruct (score_shape gs ss r Hlen) as [[Hd ->] | (k & n & low & high & Hk & Hn & -> & ->)].
  - unfold score_facts. apply Z.ltb_lt in Hd. rewrite Hd. reflexivity.
  - apply score_table_lookup; assumption.
Qed.

(** What the checked facts say. *)
Lemma score_facts_elim (d : Z) (x : float) :
  0 <= d -> score_facts d x = true ->
  float_close x (exact_tenths d) 10 (5 * 10 ^ 13) = true
  /\ cli.format_score_color x = expected_display d
  /\ (1000 < d -> x = 0.0%float)
  /\ (x = 100.0%float <-> d = 0)
  /\ (d <= 1000 -> between_marks d x = true).
Proof.
  intros Hd. unfold score_facts. destruct (1000 <? d) eqn:E.
  - apply Z.ltb_lt in E. intros H. apply float_eq_dec_true in H. subst x.
    unfold expected_display, exact_tenths. rewrite Z.max_l by lia.
    assert (H1 : (d <=? 100) = false) by (apply Z.leb_gt; lia).
    assert (H2 : (d <=? 250) = false) by (apply Z.leb_gt; lia).
    rewrite H1, H2.
    split; [reflexivity | ]. split; [reflexivity | ]. split; [reflexivity | ].
    split; [ | lia]. split; [ | lia].
    intros H. apply FloatAxioms.Leibniz.eqb_spec in H. discriminate.
  - apply Z.ltb_ge in E. intros H.
    apply andb_true_iff in H as [H Hm]. apply andb_true_iff in H as [H H100].
    apply andb_true_iff in H as [H H75]. apply andb_true_iff in H as [H H90].
    apply andb_true_iff in H as [Hc Hs].
    apply Bool.eqb_prop in H100, H75, H90.
    split; [exact Hc | ]. split; [ | split; [lia | split; [ | intros _; exact Hm]]].
    + assert (Hf : format_1f x = show_tenths (exact_tenths d))
        by (apply format_1f_close; [unfold exact_tenths; lia | exact Hc | exact Hs]).
      unfold cli.format_score_color, expected_display. rewrite H90, H75, Hf.
      destruct (d <=? 100); [reflexivity | ]. destruct (d <=? 250); reflexivity.
    + rewrite <- Z.eqb_eq, <- H100. apply iff_sym, FloatAxioms.Leibniz.eqb_spec.
Qed.

Lemma mark_increasing (i : Z) (d : nat) :
  0 <= i -> i + Z.of_nat d + 1 <= 2001 ->
  (mark i <? mark (i + Z.of_nat d + 1))%float = true.
Proof.
  intros Hi. pose proof marks_table as T. rewrite forallb_forall in T.
  induction d as [ | d IH]; intros Hj.
  - replace (i + Z.of_nat 0 + 1) with (i + 1) by lia.
    apply T. apply in_zs_upto. change (Z.of_nat 2001) with 2001. lia.
  - apply (ltb_trans _ (mark (i + Z.of_nat d + 1))); [apply IH; lia | ].
    replace (i + Z.of_nat (S d) + 1) with (i + Z.of_nat d + 1 + 1) by lia.
    apply T. apply in_zs_upto. change (Z.of_nat 2001) with 2001. lia.
Qed.

Lemma mark_lt (i j : Z) :
  0 <= i < j -> j <= 2001 -> (mark i <? mark j)%float = true.
Proof.
  intros Hi Hj. replace j with (i + Z.of_nat (Z.to_nat (j - i - 1)) + 1) by lia.
  apply mark_increasing; lia.
Qed.

Lemma exact_deductions_nonneg (gs : list GrammarIssue.t) (ss : list StyleSuggestion.t)
  (r : ReadabilityMetrics.t) : 0 <= exact_deductions gs ss r.
Proof.
  unfold exact_deductions. rewrite half_points_tenths.
  pose proof (half_points_nonneg gs). pose proof (len_nonneg ss).
  unfold readability_tenths.
  destruct (_ <? 30)%float; [lia | ]. destruct (90 <? _)%float; lia.
Qed.

Lemma half_points_perm (gs gs' : list GrammarIssue.t) :
  Permutation gs gs' -> half_points gs = half_points gs'.
Proof.
  induction 1 as [ | g l l' _ IH | g g' l | l l' l'' _ IH1 _ IH2];
    cbn [half_points fold_right] in *.
  - reflexivity.
  - fold (half_points l). fold (half_points l'). rewrite IH. reflexivity.
  - fold (half_points l). lia.
  - congruence.
Qed.

Lemma grammar_loop_counts (gs gs' : list GrammarIssue.t) (n : Z) (low high : bool) :
  half_points gs = half_points gs' ->
  score_tail (fold_left deduct_issue gs 100.0%float) n low high
  = score_tail (fold_left deduct_issue gs' 100.0%float) n low high.
Proof.
  intros Hhp. pose proof (half_points_nonneg gs) as Hk.
  destruct (Z_le_gt_dec (half_points gs) 200) as [Hle | Hgt].
  - rewrite <- grid_zero. rewrite !grammar_loop_grid by lia. rewrite Hhp. reflexivity.
  - rewrite <- grid_zero.
    rewrite !score_tail_nonpositive by (apply grammar_loop_over; lia). reflexivity.
Qed.

(** X13. The score is the exact score [100 - deductions / 10] (not
    below 0) up to the rounding of binary64: the two differ by at most
    2e-14; past 100 points of deductions the score is exactly 0.0, and
    it is exactly 100.0 only when nothing is deducted. *)
Theorem score_close_to_exact (gs : list GrammarIssue.t) (ss : list StyleSuggestion.t)
  (r : ReadabilityMetrics.t) :
  len ss < 2 ^ 63 ->
  float_close (_calculate_score gs ss r) (exact_tenths (exact_deductions gs ss r)) 10
    (5 * 10 ^ 13) = true
  /\ (1000 < exact_deductions gs ss r -> _calculate_score gs ss r = 0.0%float)
  /\ (_calculate_score gs ss r = 100.0%float <-> exact_deductions gs ss r = 0).
Proof.
  intros Hlen.
  destruct (score_facts_elim _ _ (exact_deductions_nonneg gs ss r)
              (score_facts_hold gs ss r Hlen)) as (Hc & _ & H0 & H100 & _).
  split; [exact Hc | ]. split; [exact H0 | exact H100].
Qed.

Lemma score_close_to_exact_witness :
  float_close
    (_calculate_score [error_issue] [a_style_finding; a_style_finding]
       (metrics_with_fre 65.0%float)) 974 10 (5 * 10 ^ 13) = true.
Proof.
  apply (proj1 (score_close_to_exact [error_issue] [a_style_finding; a_style_finding]
                  (metrics_with_fre 65.0%float) eq_refl)).
Defined.

(** What [format_score_color] makes of a score of the scorer. *)
Lemma format_score_exact (gs : list GrammarIssue.t) (ss : list StyleSuggestion.t)
  (r : ReadabilityMetrics.t) :
  len ss < 2 ^ 63 ->
  cli.format_score_color (_calculate_score gs ss r)
  = expected_display (exact_deductions gs ss r).
Proof.
  intros Hlen.
  apply (score_facts_elim _ _ (exact_deductions_nonneg gs ss r)
           (score_facts_hold gs ss r Hlen)).
Qed.

(** X14. The command line shows the exact score: the text of
    [format_score_color] on a score of the scorer is the exact score
    with its one decimal (no rounding noise shows), in green when at
    most 10 points are deducted, in yellow when at most 25 are, in red
    otherwise. *)
Theorem cli_shows_exact_score (gs : list GrammarIssue.t) (ss : list StyleSuggestion.t)
  (r : ReadabilityMetrics.t) :
  len ss < 2 ^ 63 ->
  cli.format_score_color (_calculate_score gs ss r)
  = expected_display (exact_deductions gs ss r).
Proof.
  intros Hlen.
  pose proof (exact_deductions_nonneg gs ss r) as Hd.
  pose proof (score_facts_hold gs ss r Hlen) as Hfacts.
  destruct (score_facts_elim _ _ Hd Hfacts) as (_ & Hshown & _).
  exact Hshown.
Qed.

Lemma cli_shows_exact_score_witness :
  cli.format_score_color
    (_calculate_score [error_issue] [a_style_finding; a_style_finding]
       (metrics_with_fre 65.0%float))
  = ESC ++ lit "[92m97.4" ++ ESC ++ lit "[0m".
Proof.
  apply (cli_shows_exact_score [error_issue] [a_style_finding; a_style_finding]
           (metrics_with_fre 65.0%float) eq_refl).
Defined.

(** X15. The score depends on its input only through the counts: two
    inputs with the same grammar deductions (an error counts as four
    findings of another severity), as many style findings and the same
    Flesch Reading Ease have the same score, bit for bit; in particular
    the order of the grammar findings does not matter. *)
Theorem score_depends_on_counts (gs gs' : list GrammarIssue.t)
  (ss ss' : list StyleSuggestion.t) (r r' : ReadabilityMetrics.t) :
  Permutation gs gs' \/ half_points gs = half_points gs' ->
  len ss = len ss' ->
  ReadabilityMetrics.flesch_reading_ease r = ReadabilityMetrics.flesch_reading_ease r' ->
  _calculate_score gs ss r = _calculate_score gs' ss' r'.
Proof.
  intros Hgs Hss Hr. rewrite !score_as_tail, Hss, Hr.
  apply grammar_loop_counts.
  destruct Hgs as [Hp | Hh]; [apply half_points_perm; exact Hp | exact Hh].
Qed.

Lemma score_depends_on_counts_witness :
  _calculate_score [error_issue; issue_with_severity (lit "warning")] [a_style_finding]
    (metrics_with_fre 65.0%float)
  = _calculate_score [issue_with_severity (lit "warning"); error_issue] [a_style_finding]
      (metrics_with_fre 65.0%float).
Proof.
  apply score_depends_on_counts; [left; apply perm_swap | reflexivity | reflexivity].
Defined.

(** X16. More deductions, lower score: of two inputs, the one with the
    larger exact deductions has the strictly lower score, as long as the
    other one keeps a positive exact score. *)
Theorem more_deductions_lower_score (gs gs' : list GrammarIssue.t)
  (ss ss' : list StyleSuggestion.t) (r r' : ReadabilityMetrics.t) :
  len ss < 2 ^ 63 -> len ss' < 2 ^ 63 ->
  exact_deductions gs ss r < exact_deductions gs' ss' r' ->
  exact_deductions gs ss r < 1000 ->
  (_calculate_score gs' ss' r' <? _calculate_score gs ss r)%float = true.
Proof.
  intros Hlen Hlen' Hlt Hpos.
  pose proof (exact_deductions_nonneg gs ss r) as Hd0.
  pose proof (exact_deductions_nonneg gs' ss' r') as Hd0'.
  destruct (score_facts_elim _ _ Hd0 (score_facts_hold gs ss r Hlen))
    as (_ & _ & _ & _ & Hm).
  destruct (score_facts_elim _ _ Hd0' (score_facts_hold gs' ss' r' Hlen'))
    as (_ & _ & Hz' & _ & Hm').
  set (d := exact_deductions gs ss r) in *.
  set (d' := exact_deductions gs' ss' r') in *.
  assert (Hlow : (mark (2 * (1000 - d) - 1) <? _calculate_score gs ss r)%float = true).
  { specialize (Hm ltac:(lia)). unfold between_marks in Hm.
    apply andb_true_iff in Hm as [_ Hm].
    apply orb_true_iff in Hm as [Hm | Hm]; [apply Z.leb_le in Hm; lia | exact Hm]. }
  destruct (Z_le_gt_dec d' 1000) as [Hle | Hgt].
  - specialize (Hm' Hle). unfold between_marks in Hm'.
    apply andb_true_iff in Hm' as [Hup _].
    destruct (Z.eq_dec (2 * (1000 - d') + 1) (2 * (1000 - d) - 1)) as [E | E].
    + rewrite E in Hup. apply (ltb_trans _ _ _ Hup Hlow).
    + apply (ltb_trans _ _ _ Hup).
      apply (ltb_trans _ (mark (2 * (1000 - d) - 1))); [ | exact Hlow].
      apply mark_lt; lia.
  - rewrite (Hz' ltac:(lia)).
    apply (ltb_trans _ (mark (2 * (1000 - d) - 1))); [ | exact Hlow].
    change 0.0%float with (mark 0). apply mark_lt; lia.
Qed.

Lemma more_deductions_lower_score_witness :
  (_calculate_score [] [a_style_finding; a_style_finding] (metrics_with_fre 65.0%float)
   <? _calculate_score [issue_with_severity (lit "warning")] [] (metrics_with_fre 65.0%float))%float
  = true.
Proof.
  apply more_deductions_lower_score; reflexivity.
Defined.

(* ================================================================== *)
(** * The command line *)
(* ================================================================== *)

Lemma no_close_app (a b : list cli.event) :
  no_close a -> no_close b -> no_close (a ++ b).
Proof. intros Ha Hb. apply Forall_app. split; assumption. Qed.

Lemma no_close_filter (events : list cli.event) :
  no_close events -> filter is_close events = [].
Proof.
  induction 1 as [ | e l He _ IH]; simpl; [reflexivity | ]. rewrite He. exact IH.
Qed.

Lemma no_close_flat_map {A : Type} (f : A -> list cli.event) (l : list A) :
  (forall x, no_close (f x)) -> no_close (flat_map f l).
Proof.
  intros Hf. induction l as [ | x l IH]; simpl; [constructor | ].
  apply no_close_app; [apply Hf | exact IH].
Qed.

Lemma seq_no_close (a b : cli.run) :
  no_close (fst a) -> no_close (fst b) -> no_close (fst (cli.seq a b)).
Proof.
  intros Ha Hb. unfold cli.seq. destruct (snd a); simpl; try exact Ha.
  apply no_close_app; assumption.
Qed.

Lemma seq_never_exits (a b : cli.run) :
  (forall s, snd a <> cli.Exits s) -> (forall s, snd b <> cli.Exits s) ->
  forall s, snd (cli.seq a b) <> cli.Exits s.
Proof.
  intros Ha Hb s. unfold cli.seq. destruct (snd a) eqn:E; simpl.
  - apply Hb.
  - exfalso. apply (Ha status). reflexivity.
  - rewrite E. discriminate.
Qed.

Ltac prints :=
  unfold no_close;
  repeat match goal with
         | |- Forall _ (_ ++ _) => apply Forall_app; split
         | |- Forall _ (flat_map _ _) => apply no_close_flat_map; intros [? ?]
         | |- Forall _ [] => constructor
         | |- Forall _ (_ :: _) => constructor; [reflexivity | ]
         | |- Forall _ (match ?x with _ => _ end) => destruct x
         | |- Forall _ (cli.print_issue _ _) => unfold cli.print_issue
         | |- Forall _ (cli.print_suggestion _ _) => unfold cli.print_suggestion
         | |- Forall _ cli.print_separator => unfold cli.print_separator
         | |- no_close _ => unfold no_close
         end.

Lemma deliver_no_close (sys : cli.System) (args : cli.Namespace) (corrected : str)
  (otherwise : list cli.event) :
  no_close otherwise -> no_close (fst (cli.deliver sys args corrected otherwise)).
Proof.
  intros H. unfold cli.deliver. destruct (cli.output args) as [path | ]; [ | exact H].
  destruct (cli.write_text sys path corrected); simpl; prints.
Qed.

Lemma deliver_never_exits (sys : cli.System) (args : cli.Namespace) (corrected : str)
  (otherwise : list cli.event) (s : Z) :
  snd (cli.deliver sys args corrected otherwise) <> cli.Exits s.
Proof.
  unfold cli.deliver. destruct (cli.output args) as [path | ]; [ | discriminate].
  destruct (cli.write_text sys path corrected); discriminate.
Qed.

Lemma correct_command_no_close (sys : cli.System) (args : cli.Namespace) (c : Checker)
  (input : str) :
  no_close (fst (cli.correct_command sys args c input))
  /\ forall s, snd (cli.correct_command sys args c input) <> cli.Exits s.
Proof.
  unfold cli.correct_command. split.
  - apply seq_no_close; [simpl; prints | ].
    destruct (correct_text c input); [ | constructor].
    apply deliver_no_close. prints.
  - apply seq_never_exits; [discriminate | ]. intros s.
    destruct (correct_text c input); [apply deliver_never_exits | discriminate].
Qed.

Lemma report_no_close (args : cli.Namespace) (res : AnalysisResult.t) :
  no_close (cli.report args res).
Proof. unfold cli.report. prints. Qed.

Lemma check_command_no_close (sys : cli.System) (args : cli.Namespace) (c : Checker)
  (input : str) :
  no_close (fst (cli.check_command sys args c input))
  /\ forall s, snd (cli.check_command sys args c input) <> cli.Exits s.
Proof.
  unfold cli.check_command. split.
  - apply seq_no_close; [simpl; prints | ].
    destruct (analyze (checker_env c) input) as [res | e]; [ | constructor].
    apply seq_no_close; [apply report_no_close | ].
    apply seq_no_close; [ | unfold cli.verdict; simpl; prints].
    destruct (cli.correct args); [ | constructor].
    apply seq_no_close; [simpl; prints | ].
    destruct (correct_text c input); [ | constructor].
    apply deliver_no_close. prints.
  - apply seq_never_exits; [discriminate | ]. intros s.
    destruct (analyze (checker_env c) input) as [res | e]; [ | discriminate].
    revert s. apply seq_never_exits; [discriminate | ].
    apply seq_never_exits; [ | discriminate].
    destruct (cli.correct args); [ | discriminate].
    apply seq_never_exits; [discriminate | ]. intros s.
    destruct (correct_text c input); [apply deliver_never_exits | discriminate].
Qed.

Lemma command_no_close (sys : cli.System) (args : cli.Namespace) (c : Checker)
  (input : str) :
  let body := if str_eqb (cli.command args) (lit "correct")
              then cli.correct_command sys args c input
              else cli.check_command sys args c input in
  no_close (fst body) /\ forall s, snd body <> cli.Exits s.
Proof.
  cbv zeta. destruct (str_eqb (cli.command args) (lit "correct"));
    [apply correct_command_no_close | apply check_command_no_close].
Qed.

(** X17. [main] closes the checker exactly once whenever it has built
    one, as the last thing it does, whether the command returns or
    raises (the [finally] block); when no text is selected or the
    constructor raises, nothing is closed. *)
Theorem main_closes_checker (sys : cli.System) (args : cli.Namespace) :
  match cli.input_text sys args, cli.new_checker sys with
  | inr _, Ok _ =>
      exists before,
        fst (cli.main sys args) = before ++ [cli.Close]
        /\ filter is_close before = []
  | _, _ => filter is_close (fst (cli.main sys args)) = []
  end.
Proof.
  unfold cli.main.
  destruct (cli.input_text sys args) as [ended | input] eqn:Ein.
  - assert (H : filter is_close (fst ended) = []); [ | destruct (cli.new_checker sys); exact H].
    revert Ein. unfold cli.input_text.
    destruct (cli.file args) as [path | ].
    + destruct (negb (cli.path_exists sys path));
        [intros E; injection E as <-; reflexivity | ].
      destruct (cli.read_text sys path);
        [discriminate | intros E; injection E as <-; reflexivity].
    + destruct (cli.text args) as [[ | ch t] | ]; try discriminate;
        intros E; injection E as <-; reflexivity.
  - destruct (cli.new_checker sys) as [c | e]; [ | reflexivity].
    destruct (command_no_close sys args c input) as [Hnc _]. cbv zeta in Hnc.
    unfold cli.seq, cli.emit, cli.try_finally. cbn [fst snd].
    eexists. split.
    + rewrite app_assoc. reflexivity.
    + apply no_close_filter. apply no_close_app; [prints | exact Hnc].
Qed.

Lemma main_closes_checker_witness :
  exists before,
    fst (cli.main (example_system []) (example_args "check" (Some text_ball)))
    = before ++ [cli.Close]
    /\ filter is_close before = [].
Proof.
  exact (main_closes_checker (example_system [])
           (example_args "check" (Some text_ball))).
Defined.



Lemma len_zero_nil {A : Type} (l : list A) : (len l =? 0) = true <-> l = [].
Proof.
  destruct l as [ | x l]; split; intros H; try reflexivity; discriminate.
Qed.

(** The events of [main] on the check command once the text is selected,
    the checker built and the analysis done. *)
Lemma main_check_events (sys : cli.System) (args : cli.Namespace) (input : str)
  (c : Checker) (res : AnalysisResult.t) :
  cli.input_text sys args = inr input ->
  cli.new_checker sys = Ok c ->
  str_eqb (cli.command args) (lit "correct") = false ->
  analyze (checker_env c) input = Ok res ->
  fst (cli.main sys args)
  = [cli.Print (lit "Initializing WriteWise Grammar Checker...");
     cli.Print (lit "Analyzing text...")]
    ++ cli.report args res
    ++ fst (cli.seq
              (if cli.correct args
               then cli.seq
                      (cli.emit (cli.print_separator
                                 ++ [cli.Print (lit "AUTO-CORRECTED TEXT")]
                                 ++ cli.print_separator))
                      match correct_text c input with
                      | Raise e => ([], cli.Raises e)
                      | Ok corrected =>
                          cli.deliver sys args corrected [cli.Print corrected]
                      end
               else cli.emit [])
              (cli.emit (cli.verdict res)))
    ++ [cli.Close].
Proof.
  intros Hin Hnew Hcmd Hres. unfold cli.main. rewrite Hin, Hnew, Hcmd.
  unfold cli.check_command. rewrite Hres.
  unfold cli.seq at 1. cbn [cli.emit fst snd]. unfold cli.try_finally. cbn [fst].
  unfold cli.seq at 1. cbn [cli.emit fst snd].
  unfold cli.seq at 1. cbn [cli.emit fst snd].
  cbn [app]. rewrite <- !app_assoc. reflexivity.
Qed.

(** X19. The summary of the check command shows the exact score: after
    the banner, the first line of the report is "Quality Score: " and
    the exact score [100 - deductions / 10] of the findings and the
    readability of the analysis, in the colour of that exact score,
    followed by "/100". *)
Theorem check_report_quality_line (sys : cli.System) (args : cli.Namespace)
  (input : str) (c : Checker) (res : AnalysisResult.t) :
  cli.input_text sys args = inr input ->
  cli.new_checker sys = Ok c ->
  str_eqb (cli.command args) (lit "correct") = false ->
  analyze (checker_env c) input = Ok res ->
  len (AnalysisResult.style_suggestions res) < 2 ^ 63 ->
  exists rest,
    fst (cli.main sys args)
    = [cli.Print (lit "Initializing WriteWise Grammar Checker...");
       cli.Print (lit "Analyzing text...");
       cli.Print cli.separator;
       cli.Print (lit "ANALYSIS SUMMARY");
       cli.Print cli.separator;
       cli.Print (lit "Quality Score: "
                  ++ expected_display
                       (exact_deductions (AnalysisResult.grammar_issues res)
                          (AnalysisResult.style_suggestions res)
                          (AnalysisResult.readability res))
                  ++ lit "/100")]
      ++ rest.
Proof.
  intros Hin Hnew Hcmd Hres Hlen.
  rewrite (main_check_events sys args input c res Hin Hnew Hcmd Hres).
  apply analyze_ok in Hres as (grammar & style & readability & sentences
                               & _ & _ & _ & _ & ->).
  cbn [AnalysisResult.grammar_issues AnalysisResult.style_suggestions
       AnalysisResult.readability] in *.
  unfold cli.report. cbn [AnalysisResult.score].
  rewrite (format_score_exact grammar style readability Hlen).
  unfold cli.print_separator. cbn [app]. eexists. reflexivity.
Qed.

Lemma check_report_quality_line_witness :
  exists rest,
    fst (cli.main (example_system []) (example_args "check" (Some text_the_the)))
    = [cli.Print (lit "Initializing WriteWise Grammar Checker...");
       cli.Print (lit "Analyzing text...");
       cli.Print cli.separator;
       cli.Print (lit "ANALYSIS SUMMARY");
       cli.Print cli.separator;
       cli.Print (lit "Quality Score: " ++ ESC ++ lit "[92m99.7" ++ ESC ++ lit "[0m/100")]
      ++ rest.
Proof.
  destruct (analyze (checker_env (example_checker ascii_only [])) text_the_the)
    as [res | e] eqn:E; [ | vm_compute in E; discriminate].
  destruct (check_report_quality_line (example_system [])
              (example_args "check" (Some text_the_the)) text_the_the
              (example_checker ascii_only []) res eq_refl eq_refl eq_refl E)
    as [rest Hrest].
  - vm_compute in E. injection E as <-. reflexivity.
  - exists rest. rewrite Hrest.
    vm_compute in E. injection E as <-. reflexivity.
Defined.

(** X20. The check command (without [--correct]) ends its report with
    a separator and its verdict, then closes the checker; the verdict
    is "Excellent! No issues found." exactly when the analysis has no
    finding at all.  The score shown above it is then green and one of
    100.0, 98.0 and 95.0: a hard or a very easy text loses points
    without any finding. *)
Theorem excellent_means_no_findings (sys : cli.System) (args : cli.Namespace)
  (input : str) (c : Checker) (res : AnalysisResult.t) :
  cli.input_text sys args = inr input ->
  cli.new_checker sys = Ok c ->
  str_eqb (cli.command args) (lit "correct") = false ->
  cli.correct args = false ->
  analyze (checker_env c) input = Ok res ->
  exists before v,
    fst (cli.main sys args)
    = before ++ [cli.Print cli.separator; cli.Print v; cli.Close]
    /\ (v = [9989%N] ++ lit " Excellent! No issues found."
        <-> AnalysisResult.grammar_issues res = []
            /\ AnalysisResult.style_suggestions res = [])
    /\ (AnalysisResult.grammar_issues res = [] ->
        AnalysisResult.style_suggestions res = [] ->
        exists shown,
          In (cli.Print (lit "Quality Score: " ++ ESC ++ lit "[92m" ++ shown
                         ++ ESC ++ lit "[0m" ++ lit "/100")) before
          /\ (shown = lit "100.0" \/ shown = lit "98.0" \/ shown = lit "95.0")).
Proof.
  intros Hin Hnew Hcmd Hcorrect Hres.
  rewrite (main_check_events sys args input c res Hin Hnew Hcmd Hres).
  rewrite Hcorrect. unfold cli.seq at 1. cbn [cli.emit fst snd app].
  unfold cli.verdict, cli.print_separator.
  exists ([cli.Print (lit "Initializing WriteWise Grammar Checker...");
           cli.Print (lit "Analyzing text...")] ++ cli.report args res).
  eexists. split.
  - cbn [app]. reflexivity.
  - split.
    + destruct (len (AnalysisResult.grammar_issues res) =? 0) eqn:Eg.
      * destruct (len (AnalysisResult.style_suggestions res) =? 0) eqn:Es; cbn [andb].
        -- apply len_zero_nil in Eg, Es. tauto.
        -- split; [discriminate | ]. intros [_ Hs].
           apply len_zero_nil in Hs. congruence.
      * cbn [andb]. split; [discriminate | ]. intros [Hg _].
        apply len_zero_nil in Hg. congruence.
    + intros Hg Hs.
      apply analyze_ok in Hres as (grammar & style & readability & sentences
                                   & _ & _ & _ & _ & ->).
      cbn [AnalysisResult.grammar_issues AnalysisResult.style_suggestions] in Hg, Hs.
      subst grammar style.
      unfold cli.report. cbn [AnalysisResult.score AnalysisResult.grammar_issues
                              AnalysisResult.style_suggestions].
      rewrite (format_score_exact [] [] readability eq_refl).
      unfold exact_deductions, readability_tenths. cbn [fold_right len List.length].
      destruct (ReadabilityMetrics.flesch_reading_ease readability <? 30)%float;
        [exists (lit "95.0") | ].
      * split; [ | auto]. right. right. right. right. right. left. reflexivity.
      * destruct (90 <? ReadabilityMetrics.flesch_reading_ease readability)%float;
          [exists (lit "98.0") | exists (lit "100.0")];
          (split; [ | auto]); right; right; right; right; right; left;
          reflexivity.
Qed.

Lemma excellent_means_no_findings_witness :
  exists before,
    fst (cli.main (example_system []) (example_args "check" (Some text_ball)))
    = before ++ [cli.Print cli.separator;
                 cli.Print ([9989%N] ++ lit " Excellent! No issues found.");
                 cli.Close].
Proof.
  destruct (analyze (checker_env (example_checker ascii_only [])) text_ball)
    as [res | e] eqn:E; [ | vm_compute in E; discriminate].
  destruct (excellent_means_no_findings (example_system [])
              (example_args "check" (Some text_ball)) text_ball
              (example_checker ascii_only []) res eq_refl eq_refl eq_refl eq_refl E)
    as (before & v & Hmain & Hv & _).
  exists before. rewrite Hmain.
  assert (Ev : v = [9989%N] ++ lit " Excellent! No issues found.").
  { apply Hv. vm_compute in E. injection E as <-. split; reflexivity. }
  rewrite Ev. reflexivity.
Defined.

(* ================================================================== *)
(** * Where a long-sentence finding points *)
(* ================================================================== *)

Lemma long_findings_offsets (env : Env) (text : str) : forall spans from cursor,
  sliced_at text from spans ->
  0 <= cursor <= from ->
  Forall2 (fun span s =>
             StyleSuggestion.length s = len (snd span)
             /\ 0 <= StyleSuggestion.offset s <= fst span
             /\ py_slice text (StyleSuggestion.offset s)
                  (StyleSuggestion.offset s + StyleSuggestion.length s) = snd span)
    (filter (fun span => is_long env (snd span)) spans)
    (long_findings env text (map snd spans) cursor).
Proof.
  induction spans as [ | [a sentence] rest IH]; intros from cursor Hsl Hcur.
  - constructor.
  - inversion Hsl as [ | from' a' sentence' rest' Hfrom Hend Hslice Hrest]; subst.
    pose proof (len_nonneg sentence) as Hlen.
    cbn [map long_findings filter snd]. unfold is_long at 1.
    specialize (IH (a + len sentence) (cursor + len sentence) Hrest ltac:(lia)).
    destruct (30 <? len (py_split env sentence)); [ | exact IH].
    cbn [app]. constructor; [ | exact IH].
    cbn [length_suggestion StyleSuggestion.length StyleSuggestion.offset fst snd].
    pose proof (py_find_least text sentence cursor a ltac:(lia) Hend Hslice) as Hleast.
    split; [reflexivity | ]. split; [exact Hleast | ].
    apply py_find_occurrence; lia.
Qed.

(** X21. When the tokenizer cuts the text into sentences in order, a
    long-sentence finding points at the first copy of its sentence at or
    after the running offset: its offset is never past the place the
    sentence starts at, and the text there reads the same; it can be
    before that place, at an earlier copy of the same sentence (the
    running offset leaves out the gaps between the sentences). *)
Theorem long_sentence_offset_not_past_start (env : Env) (text : str)
  (spans : list (Z * str)) (l : list StyleSuggestion.t) :
  sliced_at text 0 spans ->
  sent_tokenize env text = Ok (map snd spans) ->
  _check_sentence_length env text = Ok l ->
  Forall2 (fun span s =>
             StyleSuggestion.length s = len (snd span)
             /\ 0 <= StyleSuggestion.offset s <= fst span
             /\ py_slice text (StyleSuggestion.offset s)
                  (StyleSuggestion.offset s + StyleSuggestion.length s) = snd span)
    (filter (fun span => is_long env (snd span)) spans) l.
Proof.
  intros Hsl Htok Hl.
  rewrite (check_sentence_length_eq env text (map snd spans) Htok) in Hl.
  injection Hl as <-. apply (long_findings_offsets env text spans 0 0 Hsl). lia.
Qed.

Lemma long_sentence_offset_not_past_start_witness :
  exists s1 s2,
    _check_sentence_length env_twice text_twice = Ok [s1; s2]
    /\ StyleSuggestion.offset s1 = 240
    /\ StyleSuggestion.offset s2 = 240
    /\ py_slice text_twice (StyleSuggestion.offset s2)
         (StyleSuggestion.offset s2 + StyleSuggestion.length s2)
       = py_slice text_twice 475 (475 + StyleSuggestion.length s2).
Proof.
  destruct (_check_sentence_length env_twice text_twice)
    as [[ | s1 [ | s2 [ | s3 l]]] | e] eqn:E; try (vm_compute in E; discriminate).
  exists s1, s2. split; [reflexivity | ].
  assert (Hsl : sliced_at text_twice 0 [(240, text_long_sentence); (475, text_long_sentence)]).
  { apply sliced_cons; [lia | vm_compute; discriminate | reflexivity | ].
    apply sliced_cons; [vm_compute; discriminate | vm_compute; discriminate
                       | reflexivity | ].
    apply sliced_nil. }
  pose proof (long_sentence_offset_not_past_start env_twice text_twice
                [(240, text_long_sentence); (475, text_long_sentence)] [s1; s2]
                Hsl eq_refl E) as H.
  vm_compute (filter _ _) in H.
  inversion H as [ | span1 x1 rest1 l1 _ H']; subst.
  inversion H' as [ | span2 x2 rest2 l2 (Hlen & _ & Hread) _]; subst.
  cbn [snd] in Hlen, Hread.
  split; [vm_compute in E; injection E as <- <-; reflexivity | ].
  split; [vm_compute in E; injection E as <- <-; reflexivity | ].
  rewrite Hread, Hlen. reflexivity.
Defined.

(* ================================================================== *)
(** * What the passive-voice and wordy-phrase patterns match *)
(* ================================================================== *)

Section Reads.

Variable U : UnicodeData.
Variable text : str.

(** A successful match of [r] took a string [r] reads off the text and
    handed the rest to its continuation. *)
Lemma rmatch_reads (r : Re.regex) : forall st cont res,
  Re.rmatch U text r st cont = Some res ->
  exists w st',
    Re.rest st = w ++ Re.rest st'
    /\ Re.pos st' = (Re.pos st + List.length w)%nat
    /\ reads U r w
    /\ cont st' = Some res.
Proof.
  induction r as [ | p | | k | r1 IH1 | | r1 IH1 r2 IH2 | r1 IH1 r2 IH2];
    intros st cont res; cbn [Re.rmatch reads].
  - intros H. exists [], st. cbn [app List.length]. rewrite Nat.add_0_r. auto.
  - destruct (Re.rest st) as [ | c s] eqn:Es; [discriminate | ].
    destruct (ieq_literal U p c) eqn:Ec; [ | discriminate].
    intros H. exists [c].
    exists {| Re.prev := Some c; Re.rest := s; Re.pos := S (Re.pos st);
              Re.grp := Re.grp st |}.
    split; [reflexivity | ].
    cbn [Re.pos Re.rest List.length]. split; [lia | ].
    split; [exists c; auto | exact H].
  - destruct (Re.at_boundary U st); [ | discriminate].
    intros H. exists [], st. cbn [app List.length]. rewrite Nat.add_0_r. auto.
  - intros H. apply plus_loop_chars in H as (n & p' & Hn & Hall & Hc).
    exists (firstn n (Re.rest st)). eexists.
    split; [ | split; [ | split; [ | exact Hc]]]; cbn [Re.rest Re.pos].
    + symmetry. apply firstn_skipn.
    + rewrite length_firstn. lia.
    + split; [ | exact Hall].
      destruct (Re.rest st) as [ | c s]; [simpl in Hn; lia | ].
      destruct n as [ | n]; [lia | discriminate].
  - intros H. apply IH1 in H as (w & st' & Hrest & Hpos & Hw & Hc).
    exists w. eexists. split; [ | split; [ | split; [exact Hw | exact Hc]]];
      cbn [Re.rest Re.pos]; assumption.
  - destruct (Re.grp st) as [[a b] | ]; [ | discriminate].
    destruct (Re.match_ref U _ (Re.prev st) (Re.rest st) (Re.pos st))
      as [[[p s] i] | ] eqn:Em; [ | discriminate].
    apply match_ref_chars in Em as (Hi & Hs & Hl & _).
    intros H. exists (firstn (List.length (py_slice text (Z.of_nat a) (Z.of_nat b)))
                        (Re.rest st)).
    eexists. split; [ | split; [ | split; [exact I | exact H]]]; cbn [Re.rest Re.pos].
    + rewrite Hs. symmetry. apply firstn_skipn.
    + rewrite length_firstn. lia.
  - destruct (Re.rmatch U text r1 st cont) as [res1 | ] eqn:E1.
    + intros H. injection H as ->.
      apply IH1 in E1 as (w & st' & Hrest & Hpos & Hw & Hc).
      exists w, st'. auto.
    + intros H. apply IH2 in H as (w & st' & Hrest & Hpos & Hw & Hc).
      exists w, st'. auto.
  - intros H. apply IH1 in H as (w1 & st1 & Hrest1 & Hpos1 & Hw1 & Hc1).
    apply IH2 in Hc1 as (w2 & st2 & Hrest2 & Hpos2 & Hw2 & Hc2).
    exists (w1 ++ w2), st2. split; [ | split; [ | split; [ | exact Hc2]]].
    + rewrite Hrest1, Hrest2, app_assoc. reflexivity.
    + rewrite length_app. lia.
    + exists w1, w2. auto.
Qed.

End Reads.

(** The text of a match is a string the pattern reads. *)
Lemma matches_read (U : UnicodeData) (pattern : string) (text : str) (m : Re.match_obj) :
  In m (matches_of U pattern text) -> reads U (compiled pattern) (Re.group m).
Proof.
  unfold matches_of. intros Hin.
  apply scan_matches in Hin as (j & q & res & Hj & -> & Hm); [ | reflexivity | lia].
  apply rmatch_reads in Hm as (w & st' & Hrest & Hpos & Hw & Hacc).
  cbn [Re.rest Re.pos] in Hrest, Hpos.
  unfold Re.accept in Hacc. injection Hacc as <-.
  unfold Re.group, Re.mk_match. cbn [Re.m_string Re.m_start Re.m_end fst].
  assert (Hlen : (j + List.length w <= List.length text)%nat).
  { apply (f_equal (@List.length char)) in Hrest.
    rewrite length_skipn, length_app in Hrest. lia. }
  rewrite Hpos, py_slice_nat by lia.
  replace (j + List.length w - j)%nat with (List.length w) by lia.
  rewrite Hrest, firstn_app, firstn_all, Nat.sub_diag. cbn [firstn].
  rewrite app_nil_r. exact Hw.
Qed.

Lemma reads_phrase (U : UnicodeData) (tail : Re.regex) : forall phrase w,
  reads U (fold_right (fun c r => Re.Cat (Re.Lit c) r) tail phrase) w ->
  exists w1 w2, w = w1 ++ w2 /\ same_up_to_case U phrase w1 /\ reads U tail w2.
Proof.
  induction phrase as [ | p phrase IH]; intros w; cbn [fold_right reads].
  - intros H. exists [], w. split; [reflexivity | ]. split; [constructor | exact H].
  - intros (w1 & w2 & -> & (c & -> & Hc) & H2).
    apply IH in H2 as (w3 & w4 & -> & Hp & Ht).
    exists (c :: w3), w4. split; [reflexivity | ]. split; [constructor; assumption | exact Ht].
Qed.

Lemma reads_phrase_tree (U : UnicodeData) (phrase w : str) :
  reads U (phrase_tree phrase) w -> same_up_to_case U phrase w.
Proof.
  unfold phrase_tree. cbn [reads]. intros (w1 & w2 & -> & -> & H).
  apply reads_phrase in H as (w3 & w4 & -> & Hp & (w5 & w6 & -> & -> & ->)).
  cbn [app]. rewrite app_nil_r. exact Hp.
Qed.

Lemma wordy_pattern_tree (p : string * str) :
  In p wordy_phrases -> compiled (fst p) = phrase_tree (phrase_of (fst p)).
Proof.
  intros H. cbn [wordy_phrases In] in H.
  repeat (destruct H as [<- | H]; [vm_compute; reflexivity | ]). destruct H.
Qed.

Lemma same_up_to_case_length (U : UnicodeData) (phrase w : str) :
  same_up_to_case U phrase w -> len w = len phrase.
Proof.
  intros H. unfold len. f_equal. symmetry. apply (Forall2_length H).
Qed.

(** X22. A wordy-phrase finding quotes one of the nine phrases of the
    table, up to case, and proposes the replacement of that phrase: its
    [original] is the phrase character by character under IGNORECASE,
    its [length] the length of the phrase, its [suggestion] the
    replacement and its message "Consider simplifying to '...'" with
    the replacement. *)
Theorem wordy_finding_quotes_phrase (env : Env) (text : str)
  (l : list StyleSuggestion.t) (s : StyleSuggestion.t) :
  _check_wordy_phrases env text = Ok l ->
  In s l ->
  exists pattern replacement,
    In (pattern, replacement) wordy_phrases
    /\ same_up_to_case (unicode env) (phrase_of pattern) (StyleSuggestion.original s)
    /\ StyleSuggestion.length s = len (phrase_of pattern)
    /\ StyleSuggestion.suggestion s = replacement
    /\ StyleSuggestion.message s
       = lit "Consider simplifying to '" ++ replacement ++ lit "'".
Proof.
  intros Hl Hin.
  assert (El : l = flat_map (fun p => map (wordy_suggestion (snd p))
                                        (matches_of (unicode env) (fst p) text))
                     wordy_phrases)
    by (rewrite check_wordy_phrases_eq in Hl; congruence).
  rewrite El in Hin. clear El Hl.
  apply in_flat_map in Hin as ([pattern replacement] & Hp & Hin).
  apply in_map_iff in Hin as (m & <- & Hm). cbn [fst snd] in *.
  exists pattern, replacement. split; [exact Hp | ].
  pose proof (matches_read _ _ _ _ Hm) as Hr.
  pose proof (wordy_pattern_tree _ Hp) as Ht. cbn [fst] in Ht. rewrite Ht in Hr.
  apply reads_phrase_tree in Hr.
  cbn [wordy_suggestion StyleSuggestion.original StyleSuggestion.length
       StyleSuggestion.suggestion StyleSuggestion.message].
  split; [exact Hr | ]. split; [ | split; reflexivity].
  rewrite <- (same_up_to_case_length _ _ _ Hr).
  apply matches_of_ok in Hm as [Hok _]. apply match_span_ok in Hok as [Hspan Hg].
  rewrite Hg. destruct Hspan as (H0 & H1 & H2).
  rewrite py_slice_in_range by lia.
  unfold len in *. rewrite length_firstn, length_skipn. lia.
Qed.

Lemma wordy_finding_quotes_phrase_witness :
  exists s pattern replacement,
    _check_wordy_phrases (example_env ascii_only []) text_unordered = Ok [s]
    /\ In (pattern, replacement) wordy_phrases
    /\ same_up_to_case ascii_only (phrase_of pattern) (StyleSuggestion.original s)
    /\ StyleSuggestion.length s = len (phrase_of pattern)
    /\ StyleSuggestion.suggestion s = replacement.
Proof.
  destruct (_check_wordy_phrases (example_env ascii_only []) text_unordered)
    as [[ | s [ | s' l]] | e] eqn:E; try (vm_compute in E; discriminate).
  destruct (wordy_finding_quotes_phrase (example_env ascii_only []) text_unordered [s] s
              E (or_introl eq_refl))
    as (pattern & replacement & Hp & Hsame & Hlen & Hsug & _).
  exists s, pattern, replacement. auto.
Defined.

Lemma reads_word_tree (U : UnicodeData) (word w : str) :
  reads U (word_tree Re.Eps word) w -> same_up_to_case U word w.
Proof.
  unfold word_tree. intros H.
  apply reads_phrase in H as (w1 & w2 & -> & Hp & Ht). cbn [reads] in Ht. subst w2.
  rewrite app_nil_r. exact Hp.
Qed.

Lemma reads_alt_tree (U : UnicodeData) (w : str) : forall forms,
  forms <> [] ->
  reads U (alt_tree forms) w ->
  exists form, In form forms /\ same_up_to_case U form w.
Proof.
  induction forms as [ | form rest IH]; intros Hne; [congruence | ].
  destruct rest as [ | form' rest].
  - cbn [alt_tree]. intros H. exists form. split; [left; reflexivity | ].
    apply reads_word_tree. exact H.
  - change (alt_tree (form :: form' :: rest))
      with (Re.Alt (word_tree Re.Eps form) (alt_tree (form' :: rest))).
    cbn [reads]. intros [H | H].
    + exists form. split; [left; reflexivity | apply reads_word_tree; exact H].
    + apply IH in H as (f & Hin & Hf); [ | discriminate].
      exists f. split; [right; exact Hin | exact Hf].
Qed.

Lemma reads_passive_tree (U : UnicodeData) (ending w : str) :
  reads U (passive_tree ending) w ->
  exists be gap word tail,
    w = be ++ gap ++ word ++ tail
    /\ (exists form, In form be_forms /\ same_up_to_case U form be)
    /\ gap <> [] /\ Forall (fun c => isspace U c = true) gap
    /\ word <> [] /\ Forall (fun c => Re.is_word U c = true) word
    /\ same_up_to_case U ending tail.
Proof.
  unfold passive_tree. cbn [reads].
  intros (w0 & w1 & -> & -> & be & w2 & -> & Hbe & gap & w3 & -> & [Hg Hgap]
          & word & w4 & -> & [Hw Hword] & Hend).
  unfold word_tree in Hend.
  apply reads_phrase in Hend as (tail & w5 & -> & Htail & Hb).
  cbn [reads] in Hb. destruct Hb as (w6 & w7 & -> & -> & ->).
  exists be, gap, word, tail. cbn [app]. rewrite app_nil_r.
  split; [reflexivity | ].
  split; [apply reads_alt_tree; [discriminate | exact Hbe] | ].
  split; [exact Hg | ]. split; [exact Hgap | ]. split; [exact Hw | ].
  split; [exact Hword | exact Htail].
Qed.

Lemma passive_pattern_trees (p : string) :
  In p passive_voice_patterns ->
  exists ending,
    (ending = lit "ed" \/ ending = lit "en") /\ compiled p = passive_tree ending.
Proof.
  intros H. cbn [passive_voice_patterns In] in H. destruct H as [<- | [<- | []]].
  - exists (lit "ed"). split; [left; reflexivity | vm_compute; reflexivity].
  - exists (lit "en"). split; [right; reflexivity | vm_compute; reflexivity].
Qed.

(** X23. A passive-voice finding quotes a form of "to be" (am, is, are,
    was, were, be, been, being, in any case), white space, and one word
    that ends in "ed" or "en", at least six characters in all: nothing
    else is ever reported. *)
Theorem passive_finding_shape (env : Env) (text : str)
  (l : list StyleSuggestion.t) (s : StyleSuggestion.t) :
  _check_passive_voice env text = Ok l ->
  In s l ->
  passive_shape (unicode env) (StyleSuggestion.original s)
  /\ StyleSuggestion.length s = len (StyleSuggestion.original s)
  /\ 6 <= StyleSuggestion.length s.
Proof.
  intros Hl Hin.
  assert (El : l = flat_map (fun p => map passive_suggestion
                                        (matches_of (unicode env) p text))
                     passive_voice_patterns)
    by (rewrite check_passive_voice_eq in Hl; congruence).
  rewrite El in Hin. clear El Hl.
  apply in_flat_map in Hin as (pattern & Hp & Hin).
  apply in_map_iff in Hin as (m & <- & Hm).
  pose proof (matches_read _ _ _ _ Hm) as Hr.
  cbn [passive_suggestion StyleSuggestion.original StyleSuggestion.length].
  assert (Hshape : passive_shape (unicode env) (Re.group m)).
  { destruct (passive_pattern_trees pattern Hp) as (ending & Hending & T).
    rewrite T in Hr. apply reads_passive_tree in Hr
      as (be & gap & word & tail & E & Hbe & Hg & Hgap & Hw & Hword & Ht).
    exists be, gap, word, tail.
    split; [exact E | ]. split; [exact Hbe | ]. split; [exact Hg | ].
    split; [exact Hgap | ]. split; [exact Hw | ]. split; [exact Hword | ].
    destruct Hending as [-> | ->]; [left | right]; exact Ht. }
  split; [exact Hshape | ].
  assert (Hlen : Re.end_ m - Re.start m = len (Re.group m)).
  { apply matches_of_ok in Hm as [Hok _]. apply match_span_ok in Hok as [Hspan Hg].
    rewrite Hg. destruct Hspan as (H0 & H1 & H2).
    rewrite py_slice_in_range by lia.
    unfold len in *. rewrite length_firstn, length_skipn. lia. }
  split; [exact Hlen | ]. rewrite Hlen.
  destruct Hshape as (be & gap & word & tail & -> & (form & Hform & Hbe) & Hg & _
                      & Hw & _ & Ht).
  rewrite !len_app.
  assert (Hbe2 : 2 <= len be).
  { rewrite (same_up_to_case_length _ _ _ Hbe).
    cbn [be_forms In] in Hform.
    repeat (destruct Hform as [<- | Hform]; [vm_compute; discriminate | ]).
    destruct Hform. }
  assert (Ht2 : len tail = 2).
  { destruct Ht as [Ht | Ht]; rewrite (same_up_to_case_length _ _ _ Ht); reflexivity. }
  assert (Hg1 : 1 <= len gap) by (destruct gap; [congruence | unfold len; simpl; lia]).
  assert (Hw1 : 1 <= len word) by (destruct word; [congruence | unfold len; simpl; lia]).
  lia.
Qed.

Lemma passive_finding_shape_witness :
  exists s,
    _check_passive_voice (example_env ascii_only []) text_unordered = Ok [s]
    /\ passive_shape ascii_only (StyleSuggestion.original s)
    /\ 6 <= StyleSuggestion.length s.
Proof.
  destruct (_check_passive_voice (example_env ascii_only []) text_unordered)
    as [[ | s [ | s' l]] | e] eqn:E; try (vm_compute in E; discriminate).
  exists s. split; [reflexivity | ].
  destruct (passive_finding_shape (example_env ascii_only []) text_unordered [s] s
              E (or_introl eq_refl)) as (Hshape & _ & Hlen).
  split; assumption.
Defined.
